(** * Markup-driven source rewriting (src/tools/mst.ts)

    A shallow embedding of the [@mst] directive engine of [src/tools/mst.ts]:
    the line rewriters [removeCurrentLine], [removeNextLine], [removeBlock],
    the structural rewrite [patchMSTObserverBlock], [sanitize], and the batch
    entry point [update].

    JavaScript strings are sequences of UTF-16 code units; a code unit is a
    number of [N].  The regular expressions of the source are values of an
    abstract syntax, run by a backtracking matcher that follows the
    continuation semantics of ECMAScript (ECMA-262, 22.2.2). *)

From Stdlib Require Import List ZArith NArith Lia Bool String Ascii.
From stdpp Require Import gmap strings.
Import ListNotations.

Open Scope N_scope.
Open Scope nat_scope.

(** ** JavaScript strings *)

Abbreviation codeunit := N (only parsing).
Definition jsstring := list codeunit.

(** A string literal of the source, as code units (ASCII literals only). *)
Definition js (s : string) : jsstring :=
  map N_of_ascii (list_ascii_of_string s).

(** The code unit of ["\n"]. *)
Definition LF : codeunit := 10%N.

(** [s.startsWith(pat)] *)
Fixpoint startsWith (s pat : jsstring) {struct pat} : bool :=
  match pat, s with
  | [], _ => true
  | p :: pat', c :: s' => N.eqb c p && startsWith s' pat'
  | _ :: _, [] => false
  end.

(** [s.includes(pat)]: [pat] occurs at some position of [s]. *)
Fixpoint includes (s pat : jsstring) : bool :=
  startsWith s pat ||
  match s with
  | [] => false
  | _ :: s' => includes s' pat
  end.

(** [s.split("\n")]: never empty, the empty string splits into one empty
    line. *)
Fixpoint split (s : jsstring) : list jsstring :=
  match s with
  | [] => [[]]
  | c :: s' =>
      if N.eqb c LF then [] :: split s'
      else match split s' with
           | l :: ls => (c :: l) :: ls
           | [] => [[c]]
           end
  end.

(** [lines.join("\n")] *)
Fixpoint join (lines : list jsstring) : jsstring :=
  match lines with
  | [] => []
  | [l] => l
  | l :: rest => l ++ LF :: join rest
  end.

(** ** Arrays *)

(** [arr[i]] for a number [i]: [undefined] (here [None]) out of range. *)
Definition at_index {A} (arr : list A) (i : Z) : option A :=
  if (i <? 0)%Z then None else nth_error arr (Z.to_nat i).

(** [arr.filter((x, index) => f x index)], the index counted from [i]. *)
Fixpoint filteri_from {A} (f : A -> Z -> bool) (i : Z) (arr : list A) : list A :=
  match arr with
  | [] => []
  | x :: rest =>
      if f x i then x :: filteri_from f (i + 1)%Z rest
      else filteri_from f (i + 1)%Z rest
  end.

Definition filteri {A} (f : A -> Z -> bool) (arr : list A) : list A :=
  filteri_from f 0%Z arr.

Fixpoint findIndex_from {A} (p : A -> bool) (i : Z) (arr : list A) : Z :=
  match arr with
  | [] => (-1)%Z
  | x :: rest => if p x then i else findIndex_from p (i + 1)%Z rest
  end.

(** [arr.findIndex(p)]: the first index whose element satisfies [p], or -1. *)
Definition findIndex {A} (p : A -> bool) (arr : list A) : Z :=
  findIndex_from p 0%Z arr.

(** [arr.splice(start, deleteCount)], the array left behind: a negative
    [start] counts from the end, [deleteCount] is clamped to what is there,
    a count of zero or less deletes nothing. *)
Definition splice {A} (arr : list A) (start deleteCount : Z) : list A :=
  let len := Z.of_nat (length arr) in
  let actualStart :=
    if (start <? 0)%Z then Z.max (len + start) 0 else Z.min start len in
  let actualDeleteCount := Z.min (Z.max deleteCount 0) (len - actualStart) in
  firstn (Z.to_nat actualStart) arr
    ++ skipn (Z.to_nat (actualStart + actualDeleteCount)) arr.

(** ** Directive vocabulary *)

(** [enum CommentType]: a string enum, each member used as its marker text. *)
Inductive CommentType : Type :=
| REMOVE_FILE
| REMOVE_CURRENT_LINE
| REMOVE_NEXT_LINE
| REMOVE_BLOCK_START
| REMOVE_BLOCK_END
| OBSERVER_BLOCK_START
| OBSERVER_BLOCK_END.

(** The string value of an enum member. *)
Definition marker (c : CommentType) : jsstring :=
  match c with
  | REMOVE_FILE => js "@mst remove-file"
  | REMOVE_CURRENT_LINE => js "@mst remove-current-line"
  | REMOVE_NEXT_LINE => js "@mst remove-next-line"
  | REMOVE_BLOCK_START => js "@mst remove-block-start"
  | REMOVE_BLOCK_END => js "@mst remove-block-end"
  | OBSERVER_BLOCK_START => js "@mst observer-block-start"
  | OBSERVER_BLOCK_END => js "@mst observer-block-end"
  end.

(** ** Line rewriters *)

(** [removeCurrentLine(contents, comment = CommentType.REMOVE_CURRENT_LINE)] *)
Definition removeCurrentLine (contents : jsstring) (comment : CommentType)
    : jsstring :=
  let lines := split contents in
  let result :=
    List.filter (fun line => negb (includes line (marker comment))) lines in
  join result.

(** [removeNextLine(contents, comment = CommentType.REMOVE_NEXT_LINE)] *)
Definition removeNextLine (contents : jsstring) (comment : CommentType)
    : jsstring :=
  let lines := split contents in
  let result :=
    filteri
      (fun line index =>
         let prevLine := at_index lines (index - 1)%Z in
         let preserveCurrent :=
           Bool.eqb (includes line (marker comment)) false in
         let preservePrevious :=
           match prevLine with
           | None => false
           | Some prev => Bool.eqb (includes prev (marker comment)) false
           end in
         if (index =? 0)%Z then preserveCurrent
         else
           let keepLine := preserveCurrent && preservePrevious in
           keepLine)
      lines in
  join result.

(** The [comment] argument of [removeBlock]. *)
Record blockComment := { start : CommentType; end_ : CommentType }.

(** [{ start: CommentType.REMOVE_BLOCK_START, end: CommentType.REMOVE_BLOCK_END }] *)
Definition defaultBlockComment : blockComment :=
  {| start := REMOVE_BLOCK_START; end_ := REMOVE_BLOCK_END |}.

Definition NOT_FOUND : Z := (-1)%Z.

(** The body of [removeBlock]; [recurse] is the recursive call.  [splice]
    changes [lines] in place: what follows it reads the changed array. *)
Definition removeBlock_body (recurse : jsstring -> option jsstring)
    (contents : jsstring) (comment : blockComment) : option jsstring :=
  let lines := split contents in
  let findIndex' (l : list jsstring) (c : CommentType) :=
    findIndex (fun line => includes line (marker c)) l in
  let blockStartIndex := findIndex' lines (start comment) in
  let blockEndIndex := findIndex' lines (end_ comment) in
  let blockExists :=
    negb (findIndex' lines (start comment) =? NOT_FOUND)%Z
    && negb (blockEndIndex =? NOT_FOUND)%Z in
  let lines :=
    if blockExists then
      let blockLength := (blockEndIndex - blockStartIndex + 1)%Z in
      splice lines blockStartIndex blockLength
    else lines in
  let updateContents := join lines in
  let anotherBlockExists :=
    negb (findIndex' lines (start comment) =? NOT_FOUND)%Z
    && negb (findIndex' lines (end_ comment) =? NOT_FOUND)%Z in
  if anotherBlockExists then recurse updateContents
  else Some updateContents.

(** [removeBlock(contents, comment)].  The source recurses without a bound;
    [fuel] bounds the depth of the recursion and [None] says that the bound
    was reached before a call returned. *)
Fixpoint removeBlock (fuel : nat) (contents : jsstring) (comment : blockComment)
    : option jsstring :=
  match fuel with
  | 0 => None
  | S fuel' =>
      removeBlock_body (fun c => removeBlock fuel' c comment) contents comment
  end.

(** ** Regular expressions

    The patterns of the source use literals, character classes, sequence,
    alternation, the greedy quantifiers [*], [+] and [?], and capturing
    groups; no anchors, look-around or back-references, and no [i], [s], [u]
    or [y] flag.  Matching is by code unit. *)

Inductive regex : Type :=
| Empty                              (* the empty pattern *)
| Char (c : codeunit)                (* a literal character *)
| Class (p : codeunit -> bool)       (* a character class or escape *)
| Seq (r1 r2 : regex)                (* r1 r2 *)
| Alt (r1 r2 : regex)                (* r1 | r2 *)
| Star (r : regex)                   (* r* *)
| Plus (r : regex)                   (* r+ *)
| Opt (r : regex)                    (* r? *)
| Group (n : nat) (r : regex).       (* ( r ), the n-th left parenthesis *)

(** A literal run of characters. *)
Fixpoint Lit (s : jsstring) : regex :=
  match s with
  | [] => Empty
  | [c] => Char c
  | c :: s' => Seq (Char c) (Lit s')
  end.

(** A sequence of terms. *)
Fixpoint Concat (rs : list regex) : regex :=
  match rs with
  | [] => Empty
  | [r] => r
  | r :: rs' => Seq r (Concat rs')
  end.

Definition ch (a : ascii) : codeunit := N_of_ascii a.

(** LineTerminator: LF, CR, LS, PS. *)
Definition isLineTerminator (c : codeunit) : bool :=
  N.eqb c 10 || N.eqb c 13 || N.eqb c 8232 || N.eqb c 8233.

(** [.] without the [s] flag: every character but a line terminator. *)
Definition dot (c : codeunit) : bool := negb (isLineTerminator c).

(** [\s]: WhiteSpace and LineTerminator. *)
Definition whitespace (c : codeunit) : bool :=
  N.eqb c 9 || N.eqb c 11 || N.eqb c 12 || N.eqb c 32 || N.eqb c 160
  || N.eqb c 5760 || (N.leb 8192 c && N.leb c 8202) || N.eqb c 8239
  || N.eqb c 8287 || N.eqb c 12288 || N.eqb c 65279
  || isLineTerminator c.

(** [\w]: [A-Za-z0-9_]. *)
Definition wordchar (c : codeunit) : bool :=
  (N.leb 97 c && N.leb c 122) || (N.leb 65 c && N.leb c 90)
  || (N.leb 48 c && N.leb c 57) || N.eqb c 95.

(** The captures of a match: group number to captured text, [None] for a
    group that did not take part ([undefined]). *)
Definition captures := nat -> option jsstring.

Definition noCaptures : captures := fun _ => None.

Definition setCapture (n : nat) (s : jsstring) (cap : captures) : captures :=
  fun k => if Nat.eqb k n then Some s else cap k.

(** The group numbers inside a pattern. *)
Fixpoint groups (r : regex) : list nat :=
  match r with
  | Empty | Char _ | Class _ => []
  | Seq r1 r2 | Alt r1 r2 => groups r1 ++ groups r2
  | Star r1 | Plus r1 | Opt r1 => groups r1
  | Group n r1 => n :: groups r1
  end.

(** RepeatMatcher, step 4: the captures of the groups of a quantified atom
    are reset when an iteration starts. *)
Definition clearCaptures (ns : list nat) (cap : captures) : captures :=
  fun k => if existsb (Nat.eqb k) ns then None else cap k.

(** A match result: what is left of the input after the match, and the
    captures. *)
Definition matchResult := option (jsstring * captures).

(** A continuation: the rest of the pattern, run on what is left. *)
Definition continuation := jsstring -> captures -> matchResult.

(** RepeatMatcher for a greedy quantifier without upper bound whose lower
    bound has been met: one more iteration of the atom [m] is tried first, on
    captures reset by [clear]; an iteration that consumes nothing is refused;
    when no further iteration leads to a match the continuation [c] runs.
    Every iteration consumes input, so [fuel] above the length of the input
    is never used up. *)
Fixpoint repeatMatcher
    (m : jsstring -> captures -> continuation -> matchResult)
    (clear : captures -> captures) (c : continuation)
    (fuel : nat) (x : jsstring) (cap : captures) : matchResult :=
  match fuel with
  | 0 => None
  | S fuel' =>
      let d := fun y cap' =>
        if Nat.eqb (length y) (length x) then None
        else repeatMatcher m clear c fuel' y cap' in
      match m x (clear cap) d with
      | Some z => Some z
      | None => c x cap
      end
  end.

(** The matcher of a pattern, on the input from the current position [x]:
    the first alternative to succeed together with the continuation wins, a
    greedy quantifier tries one more iteration before it tries to stop, and
    an iteration of [*] or [?] that consumes nothing is refused. *)
Fixpoint matcher (r : regex) (x : jsstring) (cap : captures)
    (c : continuation) {struct r} : matchResult :=
  match r with
  | Empty => c x cap
  | Char a =>
      match x with
      | b :: y => if N.eqb b a then c y cap else None
      | [] => None
      end
  | Class p =>
      match x with
      | b :: y => if p b then c y cap else None
      | [] => None
      end
  | Seq r1 r2 => matcher r1 x cap (fun y cap' => matcher r2 y cap' c)
  | Alt r1 r2 =>
      match matcher r1 x cap c with
      | Some z => Some z
      | None => matcher r2 x cap c
      end
  | Star r1 =>
      repeatMatcher (matcher r1) (clearCaptures (groups r1)) c
        (S (length x)) x cap
  | Plus r1 =>
      matcher r1 x (clearCaptures (groups r1) cap)
        (fun y cap' =>
           repeatMatcher (matcher r1) (clearCaptures (groups r1)) c
             (S (length y)) y cap')
  | Opt r1 =>
      let d := fun y cap' =>
        if Nat.eqb (length y) (length x) then None else c y cap' in
      match matcher r1 x (clearCaptures (groups r1) cap) d with
      | Some z => Some z
      | None => c x cap
      end
  | Group n r1 =>
      matcher r1 x cap
        (fun y cap' =>
           c y (setCapture n (firstn (length x - length y) x) cap'))
  end.

(** One successful match: the text before it, the matched text, the
    captures, and the text after it. *)
Record execResult := {
  before : jsstring;
  matched : jsstring;
  caps : captures;
  after : jsstring
}.

(** RegExpBuiltinExec for a pattern without the sticky flag, from the
    current position: the match is tried at each position in turn, the
    end of the input included. *)
Fixpoint exec (r : regex) (s : jsstring) : option execResult :=
  match matcher r s noCaptures (fun y cap => Some (y, cap)) with
  | Some (y, cap) =>
      Some {| before := []; matched := firstn (length s - length y) s;
              caps := cap; after := y |}
  | None =>
      match s with
      | [] => None
      | b :: s' =>
          match exec r s' with
          | Some e =>
              Some {| before := b :: before e; matched := matched e;
                      caps := caps e; after := after e |}
          | None => None
          end
      end
  end.

(** [s.match(r)] for a global pattern, as a truth value: some match exists. *)
Definition hasMatch (r : regex) (s : jsstring) : bool :=
  match exec r s with Some _ => true | None => false end.

(** A piece of a replacement string: literal text or [$n]. *)
Inductive replacementItem :=
| RText (s : jsstring)
| RGroup (n : nat).

(** GetSubstitution: [$n] of a group that did not take part is empty. *)
Fixpoint getSubstitution (tmpl : list replacementItem) (cap : captures)
    : jsstring :=
  match tmpl with
  | [] => []
  | RText s :: tmpl' => s ++ getSubstitution tmpl' cap
  | RGroup n :: tmpl' =>
      match cap n with
      | Some s => s ++ getSubstitution tmpl' cap
      | None => getSubstitution tmpl' cap
      end
  end.

(** [s.replace(r, replacement)] for a global pattern [r]: every match, found
    from left to right from the end of the one before, is replaced; after an
    empty match the search moves on by one character.  [fuel] counts the
    matches still allowed. *)
Fixpoint replace_loop (fuel : nat) (r : regex) (tmpl : list replacementItem)
    (s : jsstring) : jsstring :=
  match fuel with
  | 0 => s
  | S fuel' =>
      match exec r s with
      | None => s
      | Some e =>
          before e ++ getSubstitution tmpl (caps e) ++
          match matched e, after e with
          | [], [] => []
          | [], b :: rest => b :: replace_loop fuel' r tmpl rest
          | _ :: _, rest => replace_loop fuel' r tmpl rest
          end
      end
  end.

Definition replace (s : jsstring) (r : regex) (tmpl : list replacementItem)
    : jsstring :=
  replace_loop (S (length s)) r tmpl s.

(** ** The patterns of the source *)

(** [/(\/\/|#)\s*@mst.*|{?\/.*@mst.*\/}?/gm] *)
Definition mstMarkupRegex : regex :=
  Alt
    (Concat [Group 1 (Alt (Lit (js "//")) (Char (ch "#")));
             Star (Class whitespace);
             Lit (js "@mst");
             Star (Class dot)])
    (Concat [Opt (Char (ch "{"));
             Char (ch "/");
             Star (Class dot);
             Lit (js "@mst");
             Star (Class dot);
             Char (ch "/");
             Opt (Char (ch "}"))]).

(** [[\w<>,\s]] *)
Definition annotationChar (c : codeunit) : bool :=
  wordchar c || N.eqb c (ch "<") || N.eqb c (ch ">") || N.eqb c (ch ",")
  || whitespace c.

(** [[^)]] *)
Definition notCloseParen (c : codeunit) : bool := negb (N.eqb c (ch ")")).

(** The pattern [startBlockRegex] of [patchMSTObserverBlock], flag [g]:
    [//\s*@mst observer-block-start\n(export\s+)?const\s+(\w+)(:\s*[\w<>,\s]+)?\s*=\s*observer\(function\s+(\w+)(\([^)]*\))] *)
Definition startBlockRegex : regex :=
  Concat [Lit (js "//");
          Star (Class whitespace);
          Lit (marker OBSERVER_BLOCK_START);
          Char LF;
          Opt (Group 1 (Seq (Lit (js "export")) (Plus (Class whitespace))));
          Lit (js "const");
          Plus (Class whitespace);
          Group 2 (Plus (Class wordchar));
          Opt (Group 3 (Concat [Char (ch ":");
                                Star (Class whitespace);
                                Plus (Class annotationChar)]));
          Star (Class whitespace);
          Char (ch "=");
          Star (Class whitespace);
          Lit (js "observer");
          Char (ch "(");
          Lit (js "function");
          Plus (Class whitespace);
          Group 4 (Plus (Class wordchar));
          Group 5 (Concat [Char (ch "(");
                           Star (Class notCloseParen);
                           Char (ch ")")])].

(** ["$1const $2$3 = $5 =>"] *)
Definition startBlockReplacement : list replacementItem :=
  [RGroup 1; RText (js "const "); RGroup 2; RGroup 3; RText (js " = ");
   RGroup 5; RText (js " =>")].

(** The pattern [endBlockRegex], flag [g]:
    [\}\)\s*//\s*@mst observer-block-end] *)
Definition endBlockRegex : regex :=
  Concat [Char (ch "}");
          Char (ch ")");
          Star (Class whitespace);
          Lit (js "//");
          Star (Class whitespace);
          Lit (marker OBSERVER_BLOCK_END)].

(** ["}"] *)
Definition endBlockReplacement : list replacementItem := [RText (js "}")].

(** The body of [patchMSTObserverBlock]; [recurse] is the recursive call. *)
Definition patchMSTObserverBlock_body (recurse : jsstring -> option jsstring)
    (contents : jsstring) : option jsstring :=
  let hasObserverBlock (value : jsstring) :=
    hasMatch startBlockRegex value && hasMatch endBlockRegex value in
  if negb (hasObserverBlock contents) then Some contents
  else
    let updateContents := replace contents startBlockRegex startBlockReplacement in
    let updateContents := replace updateContents endBlockRegex endBlockReplacement in
    if hasObserverBlock updateContents then recurse updateContents
    else Some updateContents.

(** [patchMSTObserverBlock(contents)], the depth of its recursion bounded by
    [fuel] as for [removeBlock]. *)
Fixpoint patchMSTObserverBlock (fuel : nat) (contents : jsstring)
    : option jsstring :=
  match fuel with
  | 0 => None
  | S fuel' => patchMSTObserverBlock_body (patchMSTObserverBlock fuel') contents
  end.

(** [remove(contents)]: every remove operation, in the order of the source. *)
Definition remove (fuel : nat) (contents : jsstring) : option jsstring :=
  match
    removeBlock fuel
      (removeNextLine (removeCurrentLine contents REMOVE_CURRENT_LINE)
         REMOVE_NEXT_LINE)
      defaultBlockComment
  with
  | Some result => patchMSTObserverBlock fuel result
  | None => None
  end.

(** [sanitize(contents)]: [contents.replace(mstMarkupRegex, EMPTY)], [EMPTY]
    the empty string. *)
Definition sanitize (contents : jsstring) : jsstring :=
  replace contents mstMarkupRegex [].

(** ** Files and the batch entry point *)

(** A rewriter that the code of [update] itself calls on some contents. *)
Inductive invocation : Type :=
| CallSanitize (contents : jsstring)
| CallRemove (contents : jsstring).

(** What a run works on: the files (path to contents), and a log, kept for
    the statements below, of the rewriters called so far. *)
Record world := {
  files : gmap string jsstring;
  invoked : list invocation
}.

Definition setFiles (w : world) (fs : gmap string jsstring) : world :=
  {| files := fs; invoked := invoked w |}.

Definition logCall (w : world) (c : invocation) : world :=
  {| files := files w; invoked := invoked w ++ [c] |}.

(** [filesystem.read(path)]: [undefined] for a path that is no file. *)
Definition read (w : world) (path : string) : option jsstring :=
  files w !! path.

(** [filesystem.write(path, data)] *)
Definition write (w : world) (path : string) (data : jsstring) : world :=
  setFiles w (<[path := data]> (files w)).

(** [filesystem.remove(path)] *)
Definition removeFile (w : world) (path : string) : world :=
  setFiles w (delete path (files w)).

(** The second argument of [patching.exists]: a string or a pattern. *)
Inductive findPattern : Type :=
| PString (s : jsstring)
| PRegExp (r : regex).

(** [patching.exists(path, findPattern)]: the file is there and its contents
    include the string or hold a match of the pattern. *)
Definition exists_ (w : world) (path : string) (p : findPattern) : bool :=
  match read w path with
  | Some contents =>
      match p with
      | PString s => includes contents s
      | PRegExp r => hasMatch r contents
      end
  | None => false
  end.

(** Why a file's task was rejected. *)
Inductive failure : Type :=
| CallStackExceeded    (* a rewriter did not return *)
| FileNotFound.

(** An entry of [Promise.allSettled]. *)
Inductive settled (A : Type) : Type :=
| Fulfilled (value : A)
| Rejected (reason : failure).
Arguments Fulfilled {A} value.
Arguments Rejected {A} reason.

(** [{ path, comments }] *)
Record fileResult := { path : string; comments : list CommentType }.

(** The tasks of [Promise.allSettled(filePaths.map(task))], run to their end
    one after the other in the order of the paths (a task of the source
    reads and writes the file of its own path only, so the turns that the
    tasks take at their [await]s do not show). *)
Fixpoint allSettled {A} (task : string -> world -> settled A * world)
    (paths : list string) (w : world) : list (settled A) * world :=
  match paths with
  | [] => ([], w)
  | p :: rest =>
      let (r, w1) := task p w in
      let (rs, w2) := allSettled task rest w1 in
      (r :: rs, w2)
  end.

(** The [commentTypes] argument of [updateFiles]. *)
Record commentTypes := {
  ct_REMOVE_CURRENT_LINE : CommentType;
  ct_REMOVE_NEXT_LINE : CommentType;
  ct_REMOVE_BLOCK_START : CommentType;
  ct_REMOVE_BLOCK_END : CommentType;
  ct_REMOVE_FILE : CommentType
}.

(** The argument of [updateFiles]. *)
Record updateFilesArgs := {
  uf_filePaths : list string;
  uf_markupRegex : regex;
  uf_commentTypes : commentTypes;
  uf_dryRun : bool;
  uf_onlyMarkup : bool
}.

(** The argument of [update]; [dryRun] defaults to [true] and [onlyMarkup]
    to [false]. *)
Record updateArgs := {
  filePaths : list string;
  dryRun : bool;
  onlyMarkup : bool
}.

(** How a statement ends: it completes and the next one runs, or it
    returns from the function. *)
Inductive completion (R A : Type) : Type :=
| Normal (a : A)
| Return (r : R).
Arguments Normal {R A} a.
Arguments Return {R A} r.

(** A statement of a function that returns an [R]. *)
Definition stmt (R A : Type) : Type := world -> completion R A * world.

Definition pure {R A} (a : A) : stmt R A := fun w => (Normal a, w).

(** Sequencing: nothing runs after a [return]. *)
Definition bind {R A B} (s : stmt R A) (k : A -> stmt R B) : stmt R B :=
  fun w =>
    match s w with
    | (Normal a, w') => k a w'
    | (Return r, w') => (Return r, w')
    end.

(** [return e], [e] a call that may change the world. *)
Definition return_ {R} (e : world -> R * world) : stmt R unit :=
  fun w => let (r, w') := e w in (Return r, w').

(** [const x = await e] as a statement. *)
Definition await {R A} (e : world -> A * world) : stmt R A :=
  fun w => let (a, w') := e w in (Normal a, w').

Notation "'let*' x ':=' s1 'in' s2" := (bind s1 (fun x => s2))
  (at level 10, x name, s1 at level 100, s2 at level 200).
Notation "s1 '>>' s2" := (bind s1 (fun _ => s2))
  (at level 62, right associativity).

(** The value a call of the function gives: the returned one, [None]
    ([undefined]) when the body ends without [return]. *)
Definition call {R} (body : stmt R unit) (w : world) : option R * world :=
  match body w with
  | (Return r, w') => (Some r, w')
  | (Normal _, w') => (None, w')
  end.

(** [RegExp(operations.join("|"), "g")] *)
Fixpoint anyOf (ops : list CommentType) : regex :=
  match ops with
  | [] => Empty
  | [op] => Lit (marker op)
  | op :: rest => Alt (Lit (marker op)) (anyOf rest)
  end.

(** The task that the statements after the [return] of [update] give to
    [Promise.allSettled] for one path. *)
Definition mstFileTask (fuel : nat) (dryRun onlyMarkup : bool) (path : string)
    (w : world) : settled fileResult * world :=
  if exists_ w path (PString (marker REMOVE_FILE)) then
    let done := Fulfilled {| path := path; comments := [REMOVE_FILE] |} in
    if negb dryRun then
      if onlyMarkup then
        match read w path with
        | Some contents =>
            let sanitized := sanitize contents in
            (done, write (logCall w (CallSanitize contents)) path sanitized)
        | None => (Rejected FileNotFound, w)
        end
      else (done, removeFile w path)
    else (done, w)
  else
    let operations :=
      [REMOVE_CURRENT_LINE; REMOVE_NEXT_LINE; REMOVE_BLOCK_START;
       REMOVE_BLOCK_END; OBSERVER_BLOCK_START; OBSERVER_BLOCK_END] in
    let shouldUpdate :=
      if onlyMarkup then mstMarkupRegex else anyOf operations in
    if exists_ w path (PRegExp shouldUpdate) then
      match read w path with
      | Some before =>
          let comments :=
            List.filter (fun operation => includes before (marker operation))
              operations in
          let done := Fulfilled {| path := path; comments := comments |} in
          if negb dryRun then
            if onlyMarkup then
              (done, write (logCall w (CallSanitize before)) path (sanitize before))
            else
              match remove fuel before with
              | Some after => (done, write (logCall w (CallRemove before)) path after)
              | None => (Rejected CallStackExceeded, logCall w (CallRemove before))
              end
          else (done, w)
      | None => (Rejected FileNotFound, w)
      end
    else (Fulfilled {| path := path; comments := [] |}, w).

(** What [update] returns: the value of [updateFiles], or the settled
    results of the statements after it. *)
Inductive updateResult (T : Type) : Type :=
| OfUpdateFiles (t : T)
| OfFileTasks (l : list (settled fileResult)).
Arguments OfUpdateFiles {T} t.
Arguments OfFileTasks {T} l.

Section Update.
(** [updateFiles] is imported from [./markup], whose code is not among the
    sources: any function of the arguments and the world. *)
Context {T : Type}.
Variable updateFiles : updateFilesArgs -> world -> T * world.

(** The body of [update({ filePaths, dryRun = true, onlyMarkup = false })],
    statement by statement. *)
Definition update_body (fuel : nat) (a : updateArgs)
    : stmt (updateResult T) unit :=
  return_ (fun w =>
    let (t, w') :=
      updateFiles
        {| uf_filePaths := filePaths a;
           uf_markupRegex := mstMarkupRegex;
           uf_commentTypes :=
             {| ct_REMOVE_CURRENT_LINE := REMOVE_CURRENT_LINE;
                ct_REMOVE_NEXT_LINE := REMOVE_NEXT_LINE;
                ct_REMOVE_BLOCK_START := REMOVE_BLOCK_START;
                ct_REMOVE_BLOCK_END := REMOVE_BLOCK_END;
                ct_REMOVE_FILE := REMOVE_FILE |};
           uf_dryRun := dryRun a;
           uf_onlyMarkup := onlyMarkup a |} w in
    (OfUpdateFiles t, w')) >>
  let* mstCommentResults :=
    await (allSettled (mstFileTask fuel (dryRun a) (onlyMarkup a))
             (filePaths a)) in
  return_ (fun w => (OfFileTasks mstCommentResults, w)).

(** [update(args)] *)
Definition update (fuel : nat) (a : updateArgs) (w : world)
    : option (updateResult T) * world :=
  call (update_body fuel a) w.
End Update.

(** Modelled from the spec: [updateFiles] of [./markup], the function that
    [update] returns the value of, is not among the sources.  Sections 4.2,
    4.7 and 4.9: each file is an independent unit of work whose error is
    captured; a file with the whole-file marker is deleted (remove mode) or
    has its markers stripped (sanitize mode) and no other rewriter runs on
    it; any other file with a match of the directive pattern is rewritten by
    remove-current-line, remove-next-line, remove-block and the
    observer-block rewrite, in that order (remove mode), or by the sanitizer
    (sanitize mode); a dry run changes no file; the report gives, per file,
    the directive kinds found. *)
Definition updateFiles_task (fuel : nat) (a : updateFilesArgs) (p : string)
    (w : world) : settled fileResult * world :=
  let kinds := uf_commentTypes a in
  match read w p with
  | None => (Rejected FileNotFound, w)
  | Some contents =>
      if includes contents (marker (ct_REMOVE_FILE kinds)) then
        let report :=
          Fulfilled {| path := p; comments := [ct_REMOVE_FILE kinds] |} in
        if uf_dryRun a then (report, w)
        else if uf_onlyMarkup a then
          (report, write w p (replace contents (uf_markupRegex a) []))
        else (report, removeFile w p)
      else if hasMatch (uf_markupRegex a) contents then
        let found :=
          List.filter (fun kind => includes contents (marker kind))
            [ct_REMOVE_CURRENT_LINE kinds; ct_REMOVE_NEXT_LINE kinds;
             ct_REMOVE_BLOCK_START kinds; ct_REMOVE_BLOCK_END kinds;
             OBSERVER_BLOCK_START; OBSERVER_BLOCK_END] in
        let report := Fulfilled {| path := p; comments := found |} in
        if uf_dryRun a then (report, w)
        else if uf_onlyMarkup a then
          (report, write w p (replace contents (uf_markupRegex a) []))
        else
          match remove fuel contents with
          | Some result => (report, write w p result)
          | None => (Rejected CallStackExceeded, w)
          end
      else (Fulfilled {| path := p; comments := [] |}, w)
  end.

(** Modelled from the spec: the aggregate report of [updateFiles], made
    when every file's task has settled (section 4.9). *)
Definition updateFiles_model (fuel : nat) (a : updateFilesArgs) (w : world)
    : list (settled fileResult) * world :=
  allSettled (updateFiles_task fuel a) (uf_filePaths a) w.

(** ** Definitions for the statements *)

(** The lines that [removeCurrentLine] keeps. *)
Definition linesWithout (comment : CommentType) (lines : list jsstring)
    : list jsstring :=
  List.filter (fun line => negb (includes line (marker comment))) lines.

(** The rule of the contract, for the line at index [i]: the line does not
    contain the marker, and neither does the line before it when there is
    one. *)
Definition keepsLine (comment : CommentType) (lines : list jsstring) (i : nat)
    : bool :=
  match nth_error lines i with
  | None => false
  | Some line =>
      negb (includes line (marker comment))
      && match i with
         | 0 => true
         | S j =>
             match nth_error lines j with
             | Some prev => negb (includes prev (marker comment))
             | None => true
             end
         end
  end.

(** The elements of [l] whose index, counted from [n], satisfies [keep], in
    their order. *)
Fixpoint selectFrom {A} (keep : nat -> bool) (n : nat) (l : list A) : list A :=
  match l with
  | [] => []
  | x :: rest =>
      if keep n then x :: selectFrom keep (S n) rest
      else selectFrom keep (S n) rest
  end.

(** A start/end block range of [removeBlock] together with the lines that
    follow it up to the next block: the line with the start marker, the
    lines inside, the line with the end marker, the lines after. *)
Record block := {
  startLine : jsstring;
  inner : list jsstring;
  endLine : jsstring;
  following : list jsstring
}.

Definition blockLines (b : block) : list jsstring :=
  startLine b :: inner b ++ endLine b :: following b.

(** A line with neither block marker. *)
Definition plain (comment : blockComment) (line : jsstring) : Prop :=
  includes line (marker (start comment)) = false
  /\ includes line (marker (end_ comment)) = false.

(** A block that is not nested: the end marker is on a later line than the
    start marker and on none before it, and the lines up to the next block
    have no marker. *)
Definition sequentialBlock (comment : blockComment) (b : block) : Prop :=
  includes (startLine b) (marker (start comment)) = true
  /\ includes (startLine b) (marker (end_ comment)) = false
  /\ Forall (fun l => includes l (marker (end_ comment)) = false) (inner b)
  /\ includes (endLine b) (marker (end_ comment)) = true
  /\ Forall (plain comment) (following b).

(** The index of the first line with the marker [c], or -1. *)
Definition firstLineWith (c : CommentType) (lines : list jsstring) : Z :=
  findIndex (fun line => includes line (marker c)) lines.

(** A component in the observer idiom, its type annotation given: the line
    with the start marker, the declaration, a body line, the closing line
    with the end marker. *)
Definition observerComponent (annotation : jsstring) : jsstring :=
  join [js "// @mst observer-block-start";
        js "export const Foo: " ++ annotation
          ++ js " = observer(function Foo(props) {";
        js "  return null";
        js "}) // @mst observer-block-end"].

(** The object that [update] passes to [updateFiles]. *)
Definition updateFilesCall (a : updateArgs) : updateFilesArgs :=
  {| uf_filePaths := filePaths a;
     uf_markupRegex := mstMarkupRegex;
     uf_commentTypes :=
       {| ct_REMOVE_CURRENT_LINE := REMOVE_CURRENT_LINE;
          ct_REMOVE_NEXT_LINE := REMOVE_NEXT_LINE;
          ct_REMOVE_BLOCK_START := REMOVE_BLOCK_START;
          ct_REMOVE_BLOCK_END := REMOVE_BLOCK_END;
          ct_REMOVE_FILE := REMOVE_FILE |};
     uf_dryRun := dryRun a;
     uf_onlyMarkup := onlyMarkup a |}.

(** The language of a pattern: the texts that it matches as a whole. *)
Inductive matches : regex -> jsstring -> Prop :=
| matches_Empty : matches Empty []
| matches_Char (c : codeunit) : matches (Char c) [c]
| matches_Class (p : codeunit -> bool) (c : codeunit) :
    p c = true -> matches (Class p) [c]
| matches_Seq (r1 r2 : regex) (s1 s2 : jsstring) :
    matches r1 s1 -> matches r2 s2 -> matches (Seq r1 r2) (s1 ++ s2)
| matches_Alt_l (r1 r2 : regex) (s : jsstring) :
    matches r1 s -> matches (Alt r1 r2) s
| matches_Alt_r (r1 r2 : regex) (s : jsstring) :
    matches r2 s -> matches (Alt r1 r2) s
| matches_Star_nil (r : regex) : matches (Star r) []
| matches_Star_cons (r : regex) (s1 s2 : jsstring) :
    matches r s1 -> matches (Star r) s2 -> matches (Star r) (s1 ++ s2)
| matches_Plus (r : regex) (s1 s2 : jsstring) :
    matches r s1 -> matches (Star r) s2 -> matches (Plus r) (s1 ++ s2)
| matches_Opt_nil (r : regex) : matches (Opt r) []
| matches_Opt (r : regex) (s : jsstring) :
    matches r s -> matches (Opt r) s
| matches_Group (n : nat) (r : regex) (s : jsstring) :
    matches r s -> matches (Group n r) s.

(** A match of the pattern starts at the head of [s]. *)
Definition matchAt (r : regex) (s : jsstring) : Prop :=
  exists m rest, s = m ++ rest /\ matches r m.

(** [deletesMatches r s ms out]: [out] is [s] without the matches [ms] of
    [r], which do not overlap and are taken from left to right: each deleted
    match is not empty and starts at the first position, from the end of
    the one before, where a match starts; after the last one no match
    starts; every other character is kept, in its order. *)
Inductive deletesMatches (r : regex)
    : jsstring -> list jsstring -> jsstring -> Prop :=
| deletes_none (s : jsstring) :
    (forall a b, s = a ++ b -> ~ matchAt r b) ->
    deletesMatches r s [] s
| deletes_match (pre m rest : jsstring) (ms : list jsstring) (out : jsstring) :
    m <> [] -> matches r m ->
    (forall a b, pre = a ++ b -> b <> [] -> ~ matchAt r (b ++ m ++ rest)) ->
    deletesMatches r rest ms out ->
    deletesMatches r (pre ++ m ++ rest) (m :: ms) (pre ++ out).

(** The matches that [s.replace(r, ...)] replaces, [r] a global pattern
    without empty match. *)
Fixpoint replaced_loop (fuel : nat) (r : regex) (s : jsstring)
    : list jsstring :=
  match fuel with
  | 0 => []
  | S fuel' =>
      match exec r s with
      | None => []
      | Some e =>
          match matched e with
          | [] => []
          | _ :: _ => matched e :: replaced_loop fuel' r (after e)
          end
      end
  end.

Definition replaced (s : jsstring) (r : regex) : list jsstring :=
  replaced_loop (S (length s)) r s.

(** The first form of a directive comment: [//] or [#], whitespace, [@mst],
    and characters other than line terminators. *)
Definition commentMatch (m : jsstring) : Prop :=
  exists opener ws tail,
    m = opener ++ ws ++ js "@mst" ++ tail
    /\ (opener = js "//" \/ opener = js "#")
    /\ forallb whitespace ws = true
    /\ forallb dot tail = true.

(** The second form: an optional [{], [/], characters of the line, [@mst],
    characters of the line, [/], an optional [}]. *)
Definition inlineMatch (m : jsstring) : Prop :=
  exists lbrace mid tail rbrace,
    m = lbrace ++ js "/" ++ mid ++ js "@mst" ++ tail ++ js "/" ++ rbrace
    /\ (lbrace = [] \/ lbrace = js "{")
    /\ forallb dot mid = true
    /\ forallb dot tail = true
    /\ (rbrace = [] \/ rbrace = js "}").

(** A file with the whole-file marker and a line marker, alone in the
    world, and a run over it in sanitize mode that is not a dry run. *)
Definition modelFile : jsstring :=
  join [js "// @mst remove-file";
        js "const a = 1 // @mst remove-current-line";
        js "const b = 2"].

Definition modelWorld : world :=
  {| files := {[ "app/models/Episode.ts"%string := modelFile ]};
     invoked := [] |}.

Definition dryRemoveRun : updateArgs :=
  {| filePaths := ["app/models/Episode.ts"%string];
     dryRun := true;
     onlyMarkup := false |}.

Definition sanitizeRun : updateArgs :=
  {| filePaths := ["app/models/Episode.ts"%string];
     dryRun := false;
     onlyMarkup := true |}.

(** A continuation that succeeds on [y], whatever the captures. *)
Definition succeedsOn (c : continuation) (y : jsstring) : Prop :=
  forall cap, c y cap <> None.

(** Equal lists up to the bracketing of [++]. *)
Ltac list_assoc :=
  rewrite <- ?app_assoc; simpl; rewrite <- ?app_assoc; simpl;
  rewrite <- ?app_assoc; reflexivity.

(** Both block markers occur in the lines: the test [blockExists] and
    [anotherBlockExists] of [removeBlock]. *)
Definition hasPair (comment : blockComment) (lines : list jsstring) : bool :=
  negb (firstLineWith (start comment) lines =? -1)%Z
  && negb (firstLineWith (end_ comment) lines =? -1)%Z.

(** The lines outside the inclusive range from index [s] to index [e]. *)
Definition withoutRange {A} (s e : Z) (lines : list A) : list A :=
  firstn (Z.to_nat s) lines ++ skipn (S (Z.to_nat e)) lines.

(** The least number of characters that a match of the pattern takes
    outside its capturing groups. *)
Fixpoint slack (r : regex) : nat :=
  match r with
  | Empty => 0
  | Char _ | Class _ => 1
  | Seq r1 r2 => slack r1 + slack r2
  | Alt r1 r2 => Nat.min (slack r1) (slack r2)
  | Star _ | Opt _ | Group _ _ => 0
  | Plus r1 => slack r1
  end.

(** The length of what group [k] captured, 0 when it did not take part. *)
Definition capturedLength (cap : captures) (k : nat) : nat :=
  match cap k with
  | Some s => length s
  | None => 0
  end.

(** The lengths of the captures of the groups [ks], added up. *)
Fixpoint capturedTotal (cap : captures) (ks : list nat) : nat :=
  match ks with
  | [] => 0
  | k :: ks' => capturedLength cap k + capturedTotal cap ks'
  end.

(** No group of [l1] is a group of [l2]. *)
Definition disjointGroups (l1 l2 : list nat) : bool :=
  forallb (fun k => negb (existsb (Nat.eqb k) l2)) l1.

(** The groups of the pattern are numbered apart and none lies inside
    another. *)
Fixpoint wellGrouped (r : regex) : bool :=
  match r with
  | Empty | Char _ | Class _ => true
  | Seq r1 r2 | Alt r1 r2 =>
      wellGrouped r1 && wellGrouped r2 && disjointGroups (groups r1) (groups r2)
      && disjointGroups (groups r2) (groups r1)
  | Star r1 | Plus r1 | Opt r1 => wellGrouped r1
  | Group _ r1 => match groups r1 with [] => true | _ :: _ => false end
  end.

(** What the matcher hands to its continuation. *)
Definition handsOver (r : regex) (x : jsstring) (cap : captures)
    (c : continuation) (z : jsstring * captures) : Prop :=
  exists m y cap',
    x = m ++ y /\ c y cap' = Some z
    /\ (forall k, ~ In k (groups r) -> cap' k = cap k)
    /\ capturedTotal cap' (groups r) + slack r
       <= length m + capturedTotal cap (groups r).

(** [hasObserverBlock] of [patchMSTObserverBlock]: both patterns have a
    match in the value. *)
Definition hasObserverBlock (value : jsstring) : bool :=
  hasMatch startBlockRegex value && hasMatch endBlockRegex value.

(** A character that opens no directive comment: neither [/] nor [#]. *)
Definition opensNoComment (c : codeunit) : bool :=
  negb (N.eqb c (ch "/")) && negb (N.eqb c (ch "#")).

(** The text starts with a line terminator or is empty: the end of a line. *)
Definition atLineEnd (rest : jsstring) : bool :=
  match rest with
  | [] => true
  | b :: _ => isLineTerminator b
  end.

(** A character of a line other than [/]. *)
Definition lineCharNoSlash (c : codeunit) : bool :=
  dot c && negb (N.eqb c (ch "/")).

(** The text is not empty. *)
Definition nonEmpty (s : jsstring) : bool :=
  match s with
  | [] => false
  | _ :: _ => true
  end.

(** A component declaration in the observer idiom, up to the parameter
    list: [export const Name: Annotation = observer(function Fname(params)],
    with the white space between its parts. *)
Record observerDeclaration := {
  od_export : option jsstring;     (* the white space behind [export], when exported *)
  od_space1 : jsstring;            (* behind [const] *)
  od_name : jsstring;
  od_annotation : option (jsstring * jsstring);
                                   (* the white space behind [:] and the annotation,
                                      white space behind it included *)
  od_space2 : jsstring;            (* before [=] *)
  od_space3 : jsstring;            (* behind [=] *)
  od_space4 : jsstring;            (* behind [function] *)
  od_fname : jsstring;
  od_params : jsstring
}.

Definition exportText (d : observerDeclaration) : jsstring :=
  match od_export d with
  | Some ws => js "export" ++ ws
  | None => []
  end.

Definition annotationText (d : observerDeclaration) : jsstring :=
  match od_annotation d with
  | Some (ws, ann) => js ":" ++ ws ++ ann
  | None => []
  end.

(** The declaration as it stands in the file. *)
Definition declarationText (d : observerDeclaration) : jsstring :=
  exportText d ++ js "const" ++ od_space1 d ++ od_name d ++ annotationText d
  ++ od_space2 d ++ js "=" ++ od_space3 d ++ js "observer(function"
  ++ od_space4 d ++ od_fname d ++ js "(" ++ od_params d ++ js ")".

(** The arrow function that takes its place. *)
Definition arrowText (d : observerDeclaration) : jsstring :=
  exportText d ++ js "const " ++ od_name d ++ annotationText d ++ js " = "
  ++ js "(" ++ od_params d ++ js ")" ++ js " =>".

(** The parts of the declaration are of their classes: white space where
    white space stands, not empty where the pattern has [+]; names of word
    characters; an annotation of the characters of its class that does not
    start with white space and reaches up to the [=]; parameters without a
    closing parenthesis. *)
Definition wellFormedDeclaration (d : observerDeclaration) : bool :=
  match od_export d with
  | Some ws => nonEmpty ws && forallb whitespace ws
  | None => true
  end
  && nonEmpty (od_space1 d) && forallb whitespace (od_space1 d)
  && nonEmpty (od_name d) && forallb wordchar (od_name d)
  && match od_annotation d with
     | Some (ws, ann) =>
         forallb whitespace ws && forallb annotationChar ann
         && match ann with a :: _ => negb (whitespace a) | [] => false end
         && negb (nonEmpty (od_space2 d))
     | None => true
     end
  && forallb whitespace (od_space2 d) && forallb whitespace (od_space3 d)
  && nonEmpty (od_space4 d) && forallb whitespace (od_space4 d)
  && nonEmpty (od_fname d) && forallb wordchar (od_fname d)
  && forallb notCloseParen (od_params d).

(** The line with the start marker, its line break included. *)
Definition startMarkerLine (ws : jsstring) : jsstring :=
  js "//" ++ ws ++ marker OBSERVER_BLOCK_START ++ [LF].

(** The end of the call of [observer] and the end marker behind it. *)
Definition closingText (ws1 ws2 : jsstring) : jsstring :=
  js "})" ++ ws1 ++ js "//" ++ ws2 ++ marker OBSERVER_BLOCK_END.

(** * Properties *)

(** ** Strings and lines *)

Lemma startsWith_app (s pat : jsstring) :
  startsWith s pat = true <-> exists rest, s = pat ++ rest.
Proof.
  revert s. induction pat as [|p pat IH]; intros s; simpl.
  - split; [intros _; now exists s | reflexivity].
  - destruct s as [|c s].
    + split; [discriminate | intros [rest H]; discriminate].
    + rewrite andb_true_iff, N.eqb_eq, IH. split.
      * intros [-> [rest ->]]. now exists rest.
      * intros [rest H]. injection H as -> ->. split; [reflexivity | now exists rest].
Qed.

(** [includes] is the substring relation. *)
Lemma includes_spec (s pat : jsstring) :
  includes s pat = true <-> exists pre post, s = pre ++ pat ++ post.
Proof.
  induction s as [|c s IH]; simpl.
  - rewrite orb_false_r, startsWith_app. split.
    + intros [rest H]. now exists [], rest.
    + intros [pre [post H]]. destruct pre; [now exists post | discriminate].
  - rewrite orb_true_iff, startsWith_app, IH. split.
    + intros [[rest H] | [pre [post H]]].
      * now exists [], rest.
      * exists (c :: pre), post. simpl. now rewrite H.
    + intros [pre [post H]]. destruct pre as [|c' pre]; simpl in H.
      * left. now exists post.
      * right. injection H as -> ->. now exists pre, post.
Qed.

Lemma split_not_nil (s : jsstring) : split s <> [].
Proof.
  destruct s as [|c s]; simpl; [discriminate|].
  destruct (N.eqb c LF); [discriminate|]. destruct (split s); discriminate.
Qed.

(** No line of [split] holds a line feed. *)
Lemma split_no_LF (s : jsstring) : Forall (fun l => ~ In LF l) (split s).
Proof.
  induction s as [|c s IH]; simpl.
  - constructor; [intros [] | constructor].
  - destruct (N.eqb_spec c LF) as [->|Hne].
    + constructor; [intros [] | exact IH].
    + destruct (split s) as [|l ls]; inversion IH; subst; constructor; auto.
      * intros [H|[]]. congruence.
      * intros [H|H]; [congruence | contradiction].
Qed.

(** Joining what was split gives the contents back. *)
Lemma join_split (s : jsstring) : join (split s) = s.
Proof.
  induction s as [|c s IH]; simpl; [reflexivity|].
  destruct (N.eqb_spec c LF) as [->|Hne].
  - pose proof (split_not_nil s) as Hn. simpl.
    destruct (split s) as [|l ls]; [contradiction|]. now rewrite IH.
  - pose proof (split_not_nil s) as Hn.
    destruct (split s) as [|l ls]; [contradiction|].
    destruct ls; simpl in *; now rewrite <- IH.
Qed.

Lemma split_line_app (l s : jsstring) :
  ~ In LF l -> split (l ++ LF :: s) = l :: split s.
Proof.
  induction l as [|c l IH]; intros Hl; simpl.
  - reflexivity.
  - destruct (N.eqb_spec c LF) as [->|Hne]; [exfalso; apply Hl; now left|].
    rewrite IH; [reflexivity | intros H; apply Hl; now right].
Qed.

Lemma split_line (l : jsstring) : ~ In LF l -> split l = [l].
Proof.
  induction l as [|c l IH]; intros Hl; simpl; [reflexivity|].
  destruct (N.eqb_spec c LF) as [->|Hne]; [exfalso; apply Hl; now left|].
  rewrite IH; [reflexivity | intros H; apply Hl; now right].
Qed.

(** Splitting what was joined gives the lines back, when there is a line
    and no line holds a line feed. *)
Lemma split_join (lines : list jsstring) :
  lines <> [] -> Forall (fun l => ~ In LF l) lines -> split (join lines) = lines.
Proof.
  induction lines as [|l ls IH]; intros Hn Hall; [contradiction|].
  inversion Hall as [|? ? Hl Hls]; subst.
  destruct ls as [|l' ls].
  - simpl. now apply split_line.
  - change (join (l :: l' :: ls)) with (l ++ LF :: join (l' :: ls)).
    rewrite split_line_app by assumption. f_equal. apply IH; [discriminate | assumption].
Qed.

(** An occurrence of a text without line feed in two joined pieces lies in
    one of them. *)
Lemma includes_app_LF (m l rest : jsstring) :
  ~ In LF m -> m <> [] ->
  includes (l ++ LF :: rest) m = true ->
  includes l m = true \/ includes rest m = true.
Proof.
  intros HLF Hne H. apply includes_spec in H as [pre [post H]].
  apply app_eq_app in H as [l0 [[H1 H2] | [H1 H2]]].
  - symmetry in H2. apply app_eq_app in H2 as [l1 [[H3 H4] | [H3 H4]]].
    + left. apply includes_spec. exists pre, l1. now rewrite H1, H3.
    + destruct l1 as [|c l1].
      * left. apply includes_spec. exists pre, []. rewrite H1, H3.
        now rewrite !app_nil_r.
      * exfalso. apply HLF. injection H4 as <- _. rewrite H3.
        apply in_or_app. right. now left.
  - destruct l0 as [|c l0].
    + exfalso. destruct m as [|c m]; [contradiction|].
      injection H2 as <- _. apply HLF. now left.
    + right. injection H2 as _ ->. apply includes_spec. now exists l0, post.
Qed.

(** An occurrence of a text without line feed in joined lines lies in one
    of the lines. *)
Lemma includes_join (m : jsstring) (lines : list jsstring) :
  ~ In LF m -> m <> [] ->
  includes (join lines) m = true ->
  Exists (fun l => includes l m = true) lines.
Proof.
  intros HLF Hne. induction lines as [|l ls IH]; intros H.
  - change (join []) with (@nil codeunit) in H.
    apply includes_spec in H as [pre [post H]].
    destruct pre; destruct m; try discriminate. contradiction.
  - destruct ls as [|l' ls].
    + simpl in H. now constructor.
    + change (join (l :: l' :: ls)) with (l ++ LF :: join (l' :: ls)) in H.
      apply includes_app_LF in H as [H | H]; try assumption.
      * now constructor.
      * apply Exists_cons_tl. now apply IH.
Qed.

(** No marker is empty or holds a line feed. *)
Lemma marker_no_LF (c : CommentType) : ~ In LF (marker c).
Proof.
  destruct c; vm_compute; intro H;
    repeat (destruct H as [H | H]; [discriminate H|]); exact H.
Qed.

Lemma marker_not_nil (c : CommentType) : marker c <> [].
Proof. destruct c; discriminate. Qed.

Lemma filter_sublist {A} (f : A -> bool) (l : list A) :
  sublist (List.filter f l) l.
Proof.
  induction l as [|x l IH]; simpl.
  - constructor.
  - destruct (f x); now constructor.
Qed.

Lemma filter_Forall_sub {A} (P : A -> Prop) (f : A -> bool) (l : list A) :
  Forall P l -> Forall P (List.filter f l).
Proof.
  induction 1 as [|x l Hx Hl IH]; simpl; [constructor|].
  destruct (f x); [constructor|]; assumption.
Qed.

(** ** removeCurrentLine *)

(** The output of [removeCurrentLine] never contains the marker. *)
Lemma removeCurrentLine_no_marker (contents : jsstring) (comment : CommentType) :
  includes (removeCurrentLine contents comment) (marker comment) = false.
Proof.
  unfold removeCurrentLine.
  destruct (includes (join _) (marker comment)) eqn:H; [exfalso | reflexivity].
  apply includes_join in H; [| apply marker_no_LF | apply marker_not_nil].
  apply List.Exists_exists in H as [l [Hin Hl]].
  apply filter_In in Hin as [_ Hf]. rewrite Hl in Hf. discriminate.
Qed.

(** C7: [removeCurrentLine] is a stable filter.  Its output is the join, by
    line feeds, of exactly the input lines without the
    [@mst remove-current-line] marker; splitting the output gives those
    lines back verbatim (when one is left); they are a subsequence of the
    input lines, so their order is the original one; and the output does
    not contain the marker. *)
Theorem removeCurrentLine_stable_filter (contents : jsstring) :
  removeCurrentLine contents REMOVE_CURRENT_LINE
    = join (linesWithout REMOVE_CURRENT_LINE (split contents))
  /\ (linesWithout REMOVE_CURRENT_LINE (split contents) <> [] ->
      split (removeCurrentLine contents REMOVE_CURRENT_LINE)
        = linesWithout REMOVE_CURRENT_LINE (split contents))
  /\ (linesWithout REMOVE_CURRENT_LINE (split contents) = [] ->
      removeCurrentLine contents REMOVE_CURRENT_LINE = [])
  /\ sublist (linesWithout REMOVE_CURRENT_LINE (split contents)) (split contents)
  /\ Forall (fun line => includes line (marker REMOVE_CURRENT_LINE) = false)
       (linesWithout REMOVE_CURRENT_LINE (split contents))
  /\ (forall line, In line (split contents) ->
        includes line (marker REMOVE_CURRENT_LINE) = false ->
        In line (linesWithout REMOVE_CURRENT_LINE (split contents)))
  /\ includes (removeCurrentLine contents REMOVE_CURRENT_LINE)
       (marker REMOVE_CURRENT_LINE) = false.
Proof.
  repeat split.
  - intros Hne. unfold removeCurrentLine. apply split_join; [exact Hne|].
    apply filter_Forall_sub, split_no_LF.
  - intros Hnil. unfold removeCurrentLine. fold (linesWithout REMOVE_CURRENT_LINE (split contents)).
    now rewrite Hnil.
  - apply filter_sublist.
  - apply List.Forall_forall. intros l Hin. apply filter_In in Hin as [_ Hf].
    now apply negb_true_iff.
  - intros line Hin Hl. apply filter_In. split; [exact Hin|]. now rewrite Hl.
  - apply removeCurrentLine_no_marker.
Qed.

(** The theorem at three lines, the second with the marker: the output
    splits into the first and the third. *)
Lemma removeCurrentLine_three_lines_witness :
  split (removeCurrentLine
           (join [js "const a = 1";
                  js "const b = 2 // @mst remove-current-line";
                  js "const c = 3"])
           REMOVE_CURRENT_LINE)
  = [js "const a = 1"; js "const c = 3"].
Proof.
  apply (proj1 (proj2 (removeCurrentLine_stable_filter
           (join [js "const a = 1";
                  js "const b = 2 // @mst remove-current-line";
                  js "const c = 3"])))).
  vm_compute. discriminate.
Defined.

(** ** removeNextLine *)

Lemma filteri_from_select {A} (f : A -> Z -> bool) (keep : nat -> bool)
    (n : nat) (l : list A) :
  (forall k x, nth_error l k = Some x -> f x (Z.of_nat (n + k)) = keep (n + k)) ->
  filteri_from f (Z.of_nat n) l = selectFrom keep n l.
Proof.
  revert n. induction l as [|x l IH]; intros n H; simpl; [reflexivity|].
  assert (Hx : f x (Z.of_nat n) = keep n).
  { specialize (H 0 x eq_refl). now rewrite Nat.add_0_r in H. }
  replace (Z.of_nat n + 1)%Z with (Z.of_nat (S n)) by lia.
  rewrite Hx, IH; [reflexivity|].
  intros k y Hk. replace (S n + k) with (n + S k) by lia. now apply H.
Qed.

(** C5: [removeNextLine] keeps the line at index [i] if and only if the line
    does not contain the [@mst remove-next-line] marker and the line at
    [i - 1], when there is one, does not contain it either, the first line
    being judged by the first condition alone; and the three lines
    ["a // @mst remove-next-line"], ["b"], ["c"] give the single line ["c"]. *)
Theorem removeNextLine_keeps_by_rule :
  (forall contents : jsstring,
     removeNextLine contents REMOVE_NEXT_LINE
       = join (selectFrom (keepsLine REMOVE_NEXT_LINE (split contents)) 0
                 (split contents)))
  /\ removeNextLine
       (join [js "a // @mst remove-next-line"; js "b"; js "c"])
       REMOVE_NEXT_LINE
     = join [js "c"].
Proof.
  split; [| vm_compute; reflexivity].
  intros contents. unfold removeNextLine, filteri. f_equal.
  apply (filteri_from_select _ _ 0).
  intros k line Hk. simpl Nat.add. unfold keepsLine. rewrite Hk.
  destruct k as [|j].
  - simpl. rewrite andb_true_r. now destruct (includes line _).
  - replace (Z.of_nat (S j) =? 0)%Z with false by (symmetry; apply Z.eqb_neq; lia).
    unfold at_index.
    replace (Z.of_nat (S j) - 1 <? 0)%Z with false by (symmetry; apply Z.ltb_ge; lia).
    replace (Z.to_nat (Z.of_nat (S j) - 1)) with j by lia.
    destruct (nth_error (split contents) j) as [prev|] eqn:Hj.
    + now destruct (includes line _), (includes prev _).
    + exfalso. apply nth_error_None in Hj.
      assert (S j < length (split contents)) by (apply nth_error_Some; congruence).
      lia.
Qed.

(** ** removeBlock *)

Lemma findIndex_from_none {A} (p : A -> bool) (i : Z) (l : list A) :
  Forall (fun x => p x = false) l -> findIndex_from p i l = (-1)%Z.
Proof.
  intros H. revert i. induction H as [|x l Hx Hl IH]; intros i; simpl.
  - reflexivity.
  - now rewrite Hx.
Qed.

Lemma findIndex_from_app {A} (p : A -> bool) (i : Z) (pre : list A) (x : A)
    (rest : list A) :
  Forall (fun y => p y = false) pre -> p x = true ->
  findIndex_from p i (pre ++ x :: rest) = (i + Z.of_nat (length pre))%Z.
Proof.
  intros H Hx. revert i. induction H as [|y l Hy Hl IH]; intros i; simpl.
  - rewrite Hx. lia.
  - rewrite Hy, IH. lia.
Qed.

Lemma firstLineWith_none (c : CommentType) (lines : list jsstring) :
  Forall (fun l => includes l (marker c) = false) lines ->
  firstLineWith c lines = (-1)%Z.
Proof. apply findIndex_from_none. Qed.

Lemma firstLineWith_app (c : CommentType) (pre : list jsstring) (x : jsstring)
    (rest : list jsstring) :
  Forall (fun l => includes l (marker c) = false) pre ->
  includes x (marker c) = true ->
  firstLineWith c (pre ++ x :: rest) = Z.of_nat (length pre).
Proof.
  intros H Hx. unfold firstLineWith, findIndex.
  now rewrite findIndex_from_app by assumption.
Qed.

(** Deleting a middle part by [splice]. *)
Lemma splice_middle {A} (pre mid post : list A) :
  splice (pre ++ mid ++ post) (Z.of_nat (length pre)) (Z.of_nat (length mid))
    = pre ++ post.
Proof.
  unfold splice. rewrite !length_app.
  replace (Z.of_nat (length pre) <? 0)%Z with false by (symmetry; apply Z.ltb_ge; lia).
  rewrite Z.min_l by lia. rewrite Z.max_l by lia. rewrite Z.min_l by lia.
  rewrite Nat2Z.id. rewrite firstn_app, Nat.sub_diag, firstn_all. simpl.
  rewrite app_nil_r. f_equal.
  replace (Z.to_nat (Z.of_nat (length pre) + Z.of_nat (length mid)))
    with (length pre + length mid) by lia.
  rewrite skipn_app. rewrite skipn_all2 by lia. simpl.
  replace (length pre + length mid - length pre) with (length mid) by lia.
  rewrite skipn_app, skipn_all, Nat.sub_diag. reflexivity.
Qed.

(** A count of zero or less deletes nothing. *)
Lemma splice_nothing {A} (arr : list A) (start count : Z) :
  (0 <= start)%Z -> (count <= 0)%Z -> splice arr start count = arr.
Proof.
  intros Hs Hc. unfold splice.
  replace (start <? 0)%Z with false by (symmetry; apply Z.ltb_ge; lia).
  rewrite (Z.max_r count 0) by lia. rewrite (Z.min_l 0) by lia.
  rewrite Z.add_0_r. apply firstn_skipn.
Qed.

(** The body of [removeBlock], in terms of [firstLineWith]. *)
Lemma removeBlock_body_eq (recurse : jsstring -> option jsstring)
    (contents : jsstring) (comment : blockComment) :
  removeBlock_body recurse contents comment =
    let s := firstLineWith (start comment) (split contents) in
    let e := firstLineWith (end_ comment) (split contents) in
    let lines :=
      if negb (s =? -1)%Z && negb (e =? -1)%Z
      then splice (split contents) s (e - s + 1)%Z
      else split contents in
    if negb (firstLineWith (start comment) lines =? -1)%Z
       && negb (firstLineWith (end_ comment) lines =? -1)%Z
    then recurse (join lines) else Some (join lines).
Proof. reflexivity. Qed.

(** One call on contents whose first start line comes before its first end
    line: the inclusive range is deleted, and the call recurses when both
    markers are still there. *)
Lemma removeBlock_body_block (recurse : jsstring -> option jsstring)
    (contents : jsstring) (comment : blockComment)
    (pre : list jsstring) (s : jsstring) (mid : list jsstring) (e : jsstring)
    (rest : list jsstring) :
  split contents = pre ++ s :: mid ++ e :: rest ->
  Forall (plain comment) pre ->
  includes s (marker (start comment)) = true ->
  includes s (marker (end_ comment)) = false ->
  Forall (fun l => includes l (marker (end_ comment)) = false) mid ->
  includes e (marker (end_ comment)) = true ->
  removeBlock_body recurse contents comment =
    if negb (firstLineWith (start comment) (pre ++ rest) =? -1)%Z
       && negb (firstLineWith (end_ comment) (pre ++ rest) =? -1)%Z
    then recurse (join (pre ++ rest)) else Some (join (pre ++ rest)).
Proof.
  intros Hsplit Hpre Hs Hs' Hmid He.
  assert (Hpre1 : Forall (fun l => includes l (marker (start comment)) = false) pre).
  { eapply List.Forall_impl; [|exact Hpre]. now intros l [H _]. }
  assert (Hpre2 : Forall (fun l => includes l (marker (end_ comment)) = false) pre).
  { eapply List.Forall_impl; [|exact Hpre]. now intros l [_ H]. }
  rewrite removeBlock_body_eq. cbv zeta. rewrite Hsplit.
  rewrite (firstLineWith_app (start comment) pre s) by assumption.
  replace (pre ++ s :: mid ++ e :: rest) with ((pre ++ s :: mid) ++ e :: rest)
    by list_assoc.
  rewrite (firstLineWith_app (end_ comment) (pre ++ s :: mid) e);
    [| apply Forall_app; split; [assumption | now constructor] | assumption].
  replace (negb (Z.of_nat (length pre) =? -1)%Z) with true
    by (symmetry; apply negb_true_iff, Z.eqb_neq; lia).
  replace (negb (Z.of_nat (length (pre ++ s :: mid)) =? -1)%Z) with true
    by (symmetry; apply negb_true_iff, Z.eqb_neq; lia).
  cbn [andb].
  replace ((pre ++ s :: mid) ++ e :: rest) with (pre ++ (s :: mid ++ [e]) ++ rest)
    by list_assoc.
  replace (Z.of_nat (length (pre ++ s :: mid)) - Z.of_nat (length pre) + 1)%Z
    with (Z.of_nat (length (s :: mid ++ [e])))
    by (rewrite length_app; simpl; rewrite length_app; simpl; lia).
  rewrite splice_middle. reflexivity.
Qed.

(** One call on contents without a line with the start marker, or without a
    line with the end marker: nothing is deleted and the call returns. *)
Lemma removeBlock_body_no_pair (recurse : jsstring -> option jsstring)
    (contents : jsstring) (comment : blockComment) :
  firstLineWith (start comment) (split contents) = (-1)%Z
  \/ firstLineWith (end_ comment) (split contents) = (-1)%Z ->
  removeBlock_body recurse contents comment = Some contents.
Proof.
  intros H. rewrite removeBlock_body_eq. cbv zeta.
  assert (Hb : negb (firstLineWith (start comment) (split contents) =? -1)%Z
               && negb (firstLineWith (end_ comment) (split contents) =? -1)%Z
               = false).
  { destruct H as [-> | ->]; [reflexivity | apply andb_false_r]. }
  rewrite Hb, Hb. now rewrite join_split.
Qed.

(** One call on contents whose first end line comes before its first start
    line: nothing is deleted and the call recurses on the same contents. *)
Lemma removeBlock_body_end_first (recurse : jsstring -> option jsstring)
    (contents : jsstring) (comment : blockComment) :
  (0 <= firstLineWith (end_ comment) (split contents)
     < firstLineWith (start comment) (split contents))%Z ->
  removeBlock_body recurse contents comment = recurse contents.
Proof.
  intros H. rewrite removeBlock_body_eq. cbv zeta.
  assert (Hb : negb (firstLineWith (start comment) (split contents) =? -1)%Z
               && negb (firstLineWith (end_ comment) (split contents) =? -1)%Z
               = true).
  { apply andb_true_iff; split; apply negb_true_iff, Z.eqb_neq; lia. }
  rewrite Hb. rewrite splice_nothing by lia. rewrite Hb. now rewrite join_split.
Qed.

(** Every line of a part of split contents is free of line feeds. *)
Lemma split_parts_no_LF (contents : jsstring) (a b c : list jsstring) :
  split contents = a ++ b ++ c -> Forall (fun l => ~ In LF l) (a ++ c).
Proof.
  intros H. pose proof (split_no_LF contents) as Hall. rewrite H in Hall.
  apply Forall_app in Hall as [Ha Hbc]. apply Forall_app in Hbc as [_ Hc].
  apply Forall_app. now split.
Qed.

(** Plain lines followed by a sequential block hold both markers. *)
Lemma block_has_pair (comment : blockComment) (pre : list jsstring) (b : block)
    (rest : list jsstring) :
  Forall (plain comment) pre -> sequentialBlock comment b ->
  negb (firstLineWith (start comment) (pre ++ blockLines b ++ rest) =? -1)%Z
  && negb (firstLineWith (end_ comment) (pre ++ blockLines b ++ rest) =? -1)%Z
  = true.
Proof.
  intros Hpre (Hs & Hs' & Hin & He & Hfol).
  assert (Hpre1 : Forall (fun l => includes l (marker (start comment)) = false) pre).
  { eapply List.Forall_impl; [|exact Hpre]. now intros l [H _]. }
  assert (Hpre2 : Forall (fun l => includes l (marker (end_ comment)) = false) pre).
  { eapply List.Forall_impl; [|exact Hpre]. now intros l [_ H]. }
  unfold blockLines. simpl.
  rewrite (firstLineWith_app (start comment) pre (startLine b)) by assumption.
  replace (pre ++ startLine b :: (inner b ++ endLine b :: following b) ++ rest)
    with ((pre ++ startLine b :: inner b) ++ endLine b :: following b ++ rest)
    by list_assoc.
  rewrite (firstLineWith_app (end_ comment) _ (endLine b));
    [| apply Forall_app; split; [assumption | now constructor] | assumption].
  apply andb_true_iff; split; apply negb_true_iff, Z.eqb_neq; lia.
Qed.

(** Sequential blocks are all removed, the lines around them are kept. *)
Lemma removeBlock_sequential (comment : blockComment) (blocks : list block) :
  forall (fuel : nat) (contents : jsstring) (pre : list jsstring),
    split contents = pre ++ concat (map blockLines blocks) ->
    Forall (plain comment) pre ->
    Forall (sequentialBlock comment) blocks ->
    length blocks < fuel ->
    removeBlock fuel contents comment
      = Some (join (pre ++ concat (map following blocks))).
Proof.
  induction blocks as [|b bs IH]; intros fuel contents pre Hsplit Hpre Hbs Hfuel.
  - destruct fuel as [|fuel]; [simpl in Hfuel; lia|]. simpl.
    rewrite app_nil_r in *. rewrite removeBlock_body_no_pair.
    + now rewrite <- Hsplit, join_split.
    + left. rewrite Hsplit. apply firstLineWith_none.
      eapply List.Forall_impl; [|exact Hpre]. now intros l [H _].
  - destruct fuel as [|fuel]; [simpl in Hfuel; lia|].
    inversion Hbs as [|? ? Hb Hbs']; subst.
    pose proof Hb as (Hs & Hs' & Hin & He & Hfol).
    simpl in Hsplit. unfold blockLines at 1 in Hsplit. simpl in Hsplit.
    rewrite <- !app_assoc in Hsplit. simpl in Hsplit.
    change (removeBlock (S fuel) contents comment)
      with (removeBlock_body (fun c => removeBlock fuel c comment) contents comment).
    rewrite (removeBlock_body_block _ contents comment pre (startLine b) (inner b)
               (endLine b) (following b ++ concat (map blockLines bs)))
      by assumption.
    assert (Hpre' : Forall (plain comment) (pre ++ following b))
      by (apply Forall_app; now split).
    destruct bs as [|b' bs'].
    + simpl. rewrite !app_nil_r.
      rewrite (firstLineWith_none (start comment)); [reflexivity|].
      eapply List.Forall_impl; [|exact Hpre']. now intros l [H _].
    + inversion Hbs' as [|? ? Hb' _]; subst.
      assert (Hl : pre ++ following b ++ concat (map blockLines (b' :: bs'))
                   = (pre ++ following b) ++ blockLines b'
                       ++ concat (map blockLines bs')) by list_assoc.
      assert (Hno : Forall (fun l => ~ In LF l)
                      (pre ++ following b ++ concat (map blockLines (b' :: bs')))).
      { apply (split_parts_no_LF contents pre
                 (startLine b :: inner b ++ [endLine b])).
        rewrite Hsplit. list_assoc. }
      rewrite Hl in Hno |- *. rewrite block_has_pair by assumption.
      replace (pre ++ concat (map following (b :: b' :: bs')))
        with ((pre ++ following b) ++ concat (map following (b' :: bs')))
        by list_assoc.
      apply IH; try assumption; [| simpl in Hfuel |- *; lia].
      apply split_join.
      * unfold blockLines at 1. intros Hnil.
        apply app_eq_nil in Hnil as [_ Hnil].
        apply app_eq_nil in Hnil as [Hnil _]. discriminate.
      * exact Hno.
Qed.

(** More depth of recursion does not change a result of [removeBlock]. *)
Lemma removeBlock_fuel (comment : blockComment) (n : nat) :
  forall (m : nat) (contents result : jsstring),
    removeBlock n contents comment = Some result -> n <= m ->
    removeBlock m contents comment = Some result.
Proof.
  induction n as [|n IH]; intros m contents result H Hle; [discriminate|].
  destruct m as [|m]; [lia|]. simpl in H |- *.
  rewrite removeBlock_body_eq in H |- *. cbv zeta in H |- *.
  match goal with
  | |- (if ?b then _ else _) = _ => destruct b; [| exact H]
  end.
  apply IH; [exact H | lia].
Qed.

Lemma findIndex_from_range {A} (p : A -> bool) (i : Z) (l : list A) :
  findIndex_from p i l = (-1)%Z
  \/ (i <= findIndex_from p i l < i + Z.of_nat (length l))%Z.
Proof.
  revert i. induction l as [|x l IH]; intros i; simpl; [now left|].
  destruct (p x); [right; lia|].
  destruct (IH (i + 1)%Z) as [H | H]; [now left | right; lia].
Qed.

(** A call whose first start line is not after its first end line deletes
    at least one line: it returns, or it recurses on contents with fewer
    lines. *)
Lemma removeBlock_body_progress (recurse : jsstring -> option jsstring)
    (contents : jsstring) (comment : blockComment) :
  (0 <= firstLineWith (start comment) (split contents)
     <= firstLineWith (end_ comment) (split contents))%Z ->
  exists lines',
    length lines' < length (split contents)
    /\ (removeBlock_body recurse contents comment = Some (join lines')
        \/ (removeBlock_body recurse contents comment = recurse (join lines')
            /\ split (join lines') = lines')).
Proof.
  intros H. rewrite removeBlock_body_eq. cbv zeta.
  set (s := firstLineWith (start comment) (split contents)) in *.
  set (e := firstLineWith (end_ comment) (split contents)) in *.
  assert (He : (e < Z.of_nat (length (split contents)))%Z).
  { destruct (findIndex_from_range
                (fun line => includes line (marker (end_ comment))) 0
                (split contents)) as [Hr | Hr];
      fold (findIndex (fun line => includes line (marker (end_ comment)))
              (split contents)) in Hr;
      fold (firstLineWith (end_ comment) (split contents)) in Hr; fold e in Hr; lia. }
  replace (negb (s =? -1)%Z && negb (e =? -1)%Z) with true
    by (symmetry; apply andb_true_iff; split; apply negb_true_iff, Z.eqb_neq; lia).
  exists (splice (split contents) s (e - s + 1)). split.
  - unfold splice.
    replace (s <? 0)%Z with false by (symmetry; apply Z.ltb_ge; lia).
    rewrite length_app, length_firstn, length_skipn. lia.
  - destruct (negb _ && negb _) eqn:Hb; [right | now left].
    split; [reflexivity|]. apply split_join.
    + intros Hnil. rewrite Hnil in Hb. discriminate.
    + unfold splice. apply Forall_app. split.
      * apply Forall_take, split_no_LF.
      * apply Forall_drop, split_no_LF.
Qed.

(** C1 (the code does not do what the claim says): [removeBlock] does not
    terminate for every input.  On contents whose first line with the end
    marker comes before the first line with the start marker, a call
    deletes nothing and recurses on the same contents, so no depth of
    recursion is enough for it to return. *)
Theorem removeBlock_end_before_start_never_returns
    (contents : jsstring) (comment : blockComment) :
  (0 <= firstLineWith (end_ comment) (split contents)
     < firstLineWith (start comment) (split contents))%Z ->
  forall fuel : nat, removeBlock fuel contents comment = None.
Proof.
  intros H fuel. induction fuel as [|fuel IH]; simpl; [reflexivity|].
  now rewrite removeBlock_body_end_first.
Qed.

(** The theorem at the two lines [// @mst remove-block-end],
    [// @mst remove-block-start]. *)
Lemma removeBlock_end_before_start_witness :
  (0 <= firstLineWith REMOVE_BLOCK_END
          (split (join [js "// @mst remove-block-end";
                        js "// @mst remove-block-start"]))
     < firstLineWith REMOVE_BLOCK_START
          (split (join [js "// @mst remove-block-end";
                        js "// @mst remove-block-start"])))%Z
  /\ forall fuel : nat,
       removeBlock fuel
         (join [js "// @mst remove-block-end"; js "// @mst remove-block-start"])
         defaultBlockComment = None.
Proof.
  split.
  - vm_compute. split; [discriminate | reflexivity].
  - apply (removeBlock_end_before_start_never_returns
             (join [js "// @mst remove-block-end"; js "// @mst remove-block-start"])
             defaultBlockComment).
    vm_compute. split; [discriminate | reflexivity].
Defined.

(** C2 (the code does not do what the claim says for a start found after
    its end): a start marker without any end marker, and an end marker
    without any start marker, are inert, the contents are returned
    unchanged; but on the two lines [// @mst remove-block-end],
    [// @mst remove-block-start] a call changes nothing and calls itself
    again on the same contents, so [removeBlock] returns at no depth of
    recursion. *)
Theorem removeBlock_unpaired_marker :
  (forall (contents : jsstring) (comment : blockComment) (fuel : nat),
     firstLineWith (start comment) (split contents) = (-1)%Z
     \/ firstLineWith (end_ comment) (split contents) = (-1)%Z ->
     removeBlock (S fuel) contents comment = Some contents)
  /\ (forall recurse : jsstring -> option jsstring,
        removeBlock_body recurse
          (join [js "// @mst remove-block-end"; js "// @mst remove-block-start"])
          defaultBlockComment
        = recurse (join [js "// @mst remove-block-end";
                         js "// @mst remove-block-start"]))
  /\ (forall fuel : nat,
        removeBlock fuel
          (join [js "// @mst remove-block-end"; js "// @mst remove-block-start"])
          defaultBlockComment = None).
Proof.
  split; [| split].
  - intros contents comment fuel H. simpl. now apply removeBlock_body_no_pair.
  - intros recurse. apply removeBlock_body_end_first.
    vm_compute. split; [discriminate | reflexivity].
  - intros fuel. induction fuel as [|fuel IH]; simpl; [reflexivity|].
    rewrite removeBlock_body_end_first; [exact IH|].
    vm_compute. split; [discriminate | reflexivity].
Qed.

(** The first part of the theorem at three lines with a start marker and no
    end marker: the contents come back unchanged. *)
Lemma removeBlock_start_only_witness :
  firstLineWith REMOVE_BLOCK_END
    (split (join [js "a"; js "// @mst remove-block-start"; js "b"])) = (-1)%Z
  /\ removeBlock 1 (join [js "a"; js "// @mst remove-block-start"; js "b"])
       defaultBlockComment
     = Some (join [js "a"; js "// @mst remove-block-start"; js "b"]).
Proof.
  split; [reflexivity|].
  apply (proj1 removeBlock_unpaired_marker
           (join [js "a"; js "// @mst remove-block-start"; js "b"])
           defaultBlockComment 0).
  right. reflexivity.
Defined.

(** C6: [removeBlock] removes every one of any number of sequential,
    non-nested start/end block ranges, inclusively, and leaves the lines
    around them unchanged: contents that split into lines without marker
    followed by blocks (a start line, lines without end marker, an end
    line, lines without marker) give the lines without marker, once the
    depth of recursion exceeds the number of blocks; in particular for two
    disjoint pairs; and the five lines ["x"], START, ["y"], END, ["z"] give
    ["x"], ["z"], for every line START with the start marker (and not the
    end marker) and every line END with the end marker. *)
Theorem removeBlock_removes_sequential_blocks :
  (forall (comment : blockComment) (contents : jsstring)
          (pre : list jsstring) (blocks : list block) (fuel : nat),
     split contents = pre ++ concat (map blockLines blocks) ->
     Forall (plain comment) pre ->
     Forall (sequentialBlock comment) blocks ->
     length blocks < fuel ->
     removeBlock fuel contents comment
       = Some (join (pre ++ concat (map following blocks))))
  /\ (forall (contents : jsstring) (pre : list jsstring) (b1 b2 : block),
        split contents = pre ++ blockLines b1 ++ blockLines b2 ->
        Forall (plain defaultBlockComment) pre ->
        sequentialBlock defaultBlockComment b1 ->
        sequentialBlock defaultBlockComment b2 ->
        removeBlock 3 contents defaultBlockComment
          = Some (join (pre ++ following b1 ++ following b2)))
  /\ (forall START END : jsstring,
        ~ In LF START -> ~ In LF END ->
        includes START (marker REMOVE_BLOCK_START) = true ->
        includes START (marker REMOVE_BLOCK_END) = false ->
        includes END (marker REMOVE_BLOCK_END) = true ->
        removeBlock 2 (join [js "x"; START; js "y"; END; js "z"])
          defaultBlockComment
        = Some (join [js "x"; js "z"])).
Proof.
  split; [| split].
  - intros comment contents pre blocks fuel. apply removeBlock_sequential.
  - intros contents pre b1 b2 Hsplit Hpre Hb1 Hb2.
    rewrite (removeBlock_sequential defaultBlockComment [b1; b2] 3 contents pre).
    + simpl. now rewrite app_nil_r.
    + simpl. now rewrite app_nil_r.
    + exact Hpre.
    + constructor; [exact Hb1 | constructor; [exact Hb2 | constructor]].
    + simpl. lia.
  - intros START END HS HE Hs Hs' He.
    apply (removeBlock_sequential defaultBlockComment
             [{| startLine := START; inner := [js "y"]; endLine := END;
                 following := [js "z"] |}]
             2 _ [js "x"]).
    + apply split_join; [discriminate|].
      repeat (constructor; [first [exact HS | exact HE
                                    | vm_compute; intuition discriminate] |]).
      constructor.
    + repeat constructor.
    + constructor; [| constructor].
      repeat split; try assumption; repeat constructor.
    + simpl. lia.
Qed.

(** The first part of the theorem at the five lines ["x"], START, ["y"],
    END, ["z"]: one block, with ["x"] before it and ["z"] after it. *)
Lemma removeBlock_five_lines_witness :
  removeBlock 2
    (join [js "x"; js "// @mst remove-block-start"; js "y";
           js "// @mst remove-block-end"; js "z"])
    defaultBlockComment
  = Some (join [js "x"; js "z"]).
Proof.
  apply (proj1 removeBlock_removes_sequential_blocks defaultBlockComment
           (join [js "x"; js "// @mst remove-block-start"; js "y";
                  js "// @mst remove-block-end"; js "z"])
           [js "x"]
           [{| startLine := js "// @mst remove-block-start";
               inner := [js "y"];
               endLine := js "// @mst remove-block-end";
               following := [js "z"] |}]
           2).
  - vm_compute. reflexivity.
  - repeat constructor.
  - repeat constructor.
  - simpl. lia.
Defined.

(** ** patchMSTObserverBlock *)

(** More depth of recursion does not change a result. *)
Lemma patchMSTObserverBlock_fuel (n : nat) :
  forall (m : nat) (contents result : jsstring),
    patchMSTObserverBlock n contents = Some result -> n <= m ->
    patchMSTObserverBlock m contents = Some result.
Proof.
  induction n as [|n IH]; intros m contents result H Hle; [discriminate|].
  destruct m as [|m]; [lia|]. simpl in *. unfold patchMSTObserverBlock_body in *.
  destruct (negb _); [exact H|]. destruct (_ && _); [|exact H].
  apply IH; [exact H | lia].
Qed.

(** C3, as stated, fails: with the annotation [React.FC<Props>] the start
    pattern has no match, since [.] is not in the class of the annotation,
    and [patchMSTObserverBlock] returns the contents unchanged: no line of
    the result is the declaration or the bare closing line of the claim. *)
Lemma patchMSTObserverBlock_ReactFC_unchanged :
  (forall fuel : nat,
     patchMSTObserverBlock (S fuel) (observerComponent (js "React.FC<Props>"))
     = Some (observerComponent (js "React.FC<Props>")))
  /\ ~ In (js "export const Foo: React.FC<Props> = (props) => {")
         (split (observerComponent (js "React.FC<Props>")))
  /\ ~ In (js "}") (split (observerComponent (js "React.FC<Props>"))).
Proof.
  split; [| split].
  - intros fuel. apply (patchMSTObserverBlock_fuel 1); [|lia].
    vm_compute. reflexivity.
  - vm_compute. intros H.
    repeat (destruct H as [H | H]; [discriminate H|]). exact H.
  - vm_compute. intros H.
    repeat (destruct H as [H | H]; [discriminate H|]). exact H.
Qed.

(** C3, amended: with the annotation [FC<Props>] the line with the start
    marker is consumed, the declaration becomes
    [export const Foo: FC<Props>  = (props) => {] (the blank after the
    annotation is part of the third group, so two blanks come before [=]),
    the closing line becomes [}], and the body is untouched; with the
    annotation [React.FC<Props>] the contents come back unchanged. *)
Theorem patchMSTObserverBlock_example :
  (forall fuel : nat,
     patchMSTObserverBlock (S fuel) (observerComponent (js "FC<Props>"))
     = Some (join [js "export const Foo: FC<Props>  = (props) => {";
                   js "  return null";
                   js "}"]))
  /\ (forall fuel : nat,
        patchMSTObserverBlock (S fuel) (observerComponent (js "React.FC<Props>"))
        = Some (observerComponent (js "React.FC<Props>"))).
Proof.
  split; intros fuel; apply (patchMSTObserverBlock_fuel 1); try lia;
    vm_compute; reflexivity.
Qed.

(** ** sanitize *)

(** C4 (the code does not do what the claim says): [sanitize] is not
    idempotent.  In [#/ @mst remove-file / @mst remove-file] the one match
    is [/ @mst remove-file /]; what is left, [# @mst remove-file], still
    holds a directive and is a match as a whole, so a second pass gives the
    empty string. *)
Theorem sanitize_twice_differs :
  sanitize (js "#/ @mst remove-file / @mst remove-file")
    = js "# @mst remove-file"
  /\ sanitize (sanitize (js "#/ @mst remove-file / @mst remove-file")) = []
  /\ sanitize (sanitize (js "#/ @mst remove-file / @mst remove-file"))
       <> sanitize (js "#/ @mst remove-file / @mst remove-file")
  /\ includes (sanitize (js "#/ @mst remove-file / @mst remove-file"))
       (marker REMOVE_FILE) = true.
Proof.
  repeat split; try (vm_compute; reflexivity).
  vm_compute. discriminate.
Qed.

(** ** update *)

(** The statements after the [return], had they run: the task of a file
    with the whole-file marker reports [REMOVE_FILE] alone and, when the run
    is not a dry run, deletes the file or writes its sanitized contents and
    logs the call of [sanitize]. *)
Lemma mstFileTask_removeFile (fuel : nat) (dry only : bool) (p : string)
    (w : world) (contents : jsstring) :
  files w !! p = Some contents ->
  includes contents (marker REMOVE_FILE) = true ->
  mstFileTask fuel dry only p w
  = (Fulfilled {| path := p; comments := [REMOVE_FILE] |},
     if dry then w
     else if only then write (logCall w (CallSanitize contents)) p (sanitize contents)
     else removeFile w p).
Proof.
  intros Hp Hm. unfold mstFileTask, exists_, read. rewrite Hp, Hm.
  destruct dry, only; reflexivity.
Qed.

(** The first statement of [update] returns. *)
Lemma update_unfold {T : Type}
    (updateFiles : updateFilesArgs -> world -> T * world)
    (fuel : nat) (a : updateArgs) (w : world) :
  update updateFiles fuel a w
    = (Some (OfUpdateFiles (fst (updateFiles (updateFilesCall a) w))),
       snd (updateFiles (updateFilesCall a) w)).
Proof.
  unfold update, call, update_body, bind, return_.
  fold (updateFilesCall a).
  destruct (updateFiles (updateFilesCall a) w) as [t w']. reflexivity.
Qed.

(** C10: for every argument (and every [updateFiles]) [update] returns
    exactly the value of its first statement, the call of [updateFiles], and
    leaves the world as that call leaves it: the statements after the
    [return] (the whole-file branch, the loop over the files, the observer
    handling) never run, so no call of [mst.sanitize] or [mst.remove],
    which calls [patchMSTObserverBlock], is made by them. *)
Theorem update_returns_updateFiles {T : Type}
    (updateFiles : updateFilesArgs -> world -> T * world)
    (fuel : nat) (a : updateArgs) (w : world) :
  update updateFiles fuel a w
    = (Some (OfUpdateFiles (fst (updateFiles (updateFilesCall a) w))),
       snd (updateFiles (updateFilesCall a) w))
  /\ invoked (snd (update updateFiles fuel a w))
     = invoked (snd (updateFiles (updateFilesCall a) w)).
Proof.
  split; [apply update_unfold | now rewrite update_unfold].
Qed.

(** A task of the model changes the file of its own path only, and logs no
    call. *)
Lemma updateFiles_task_other (fuel : nat) (a : updateFilesArgs) (p q : string)
    (w : world) :
  q <> p -> files (snd (updateFiles_task fuel a q w)) !! p = files w !! p.
Proof.
  intros Hne. unfold updateFiles_task.
  destruct (read w q) as [contents|]; [|reflexivity].
  repeat match goal with
         | |- context [if ?b then _ else _] => destruct b
         | |- context [match remove ?f ?c with _ => _ end] => destruct (remove f c)
         end; simpl; try reflexivity;
    try (now apply lookup_insert_ne); now apply lookup_delete_ne.
Qed.

Lemma updateFiles_task_invoked (fuel : nat) (a : updateFilesArgs) (q : string)
    (w : world) :
  invoked (snd (updateFiles_task fuel a q w)) = invoked w.
Proof.
  unfold updateFiles_task.
  destruct (read w q) as [contents|]; [|reflexivity].
  repeat match goal with
         | |- context [if ?b then _ else _] => destruct b
         | |- context [match remove ?f ?c with _ => _ end] => destruct (remove f c)
         end; reflexivity.
Qed.

(** The task of the model on a file with the whole-file marker. *)
Lemma updateFiles_task_removeFile (fuel : nat) (a : updateArgs) (p : string)
    (w : world) (contents : jsstring) :
  files w !! p = Some contents ->
  includes contents (marker REMOVE_FILE) = true ->
  fst (updateFiles_task fuel (updateFilesCall a) p w)
    = Fulfilled {| path := p; comments := [REMOVE_FILE] |}
  /\ files (snd (updateFiles_task fuel (updateFilesCall a) p w)) !! p
     = if dryRun a then Some contents
       else if onlyMarkup a then Some (sanitize contents) else None.
Proof.
  intros Hp Hm. unfold updateFiles_task, read. rewrite Hp.
  cbn [updateFilesCall uf_commentTypes ct_REMOVE_FILE uf_dryRun uf_onlyMarkup
       uf_markupRegex].
  rewrite Hm.
  destruct (dryRun a); [now split|].
  destruct (onlyMarkup a); simpl; split; try reflexivity.
  - apply lookup_insert_eq.
  - apply lookup_delete_eq.
Qed.

(** The settled results are in the order of the paths, and the file of a
    path that occurs once is as its own task leaves it. *)
Lemma allSettled_at {A} (task : string -> world -> settled A * world)
    (p : string) :
  (forall q w0, q <> p -> files (snd (task q w0)) !! p = files w0 !! p) ->
  forall (paths : list string) (i : nat) (w : world),
    List.NoDup paths -> nth_error paths i = Some p ->
    exists w0, files w0 !! p = files w !! p
      /\ nth_error (fst (allSettled task paths w)) i = Some (fst (task p w0))
      /\ files (snd (allSettled task paths w)) !! p
         = files (snd (task p w0)) !! p.
Proof.
  intros Hother. assert (Hkeep : forall paths w, ~ In p paths ->
    files (snd (allSettled task paths w)) !! p = files w !! p).
  { induction paths as [|q paths IH]; intros w Hnin; simpl; [reflexivity|].
    destruct (task q w) as [r w1] eqn:Hq.
    destruct (allSettled task paths w1) as [rs w2] eqn:Hrest. simpl.
    change w2 with (snd (rs, w2)). rewrite <- Hrest. rewrite IH.
    - change w1 with (snd (r, w1)). rewrite <- Hq. apply Hother.
      intros ->. apply Hnin. now left.
    - intros Hin. apply Hnin. now right. }
  induction paths as [|q paths IH]; intros i w Hnd Hi.
  - destruct i; discriminate.
  - inversion Hnd as [|? ? Hnin Hnd']; subst. simpl.
    destruct (task q w) as [r w1] eqn:Hq.
    destruct (allSettled task paths w1) as [rs w2] eqn:Hrest.
    destruct i as [|i]; simpl in Hi |- *.
    + injection Hi as ->. exists w. split; [reflexivity|]. rewrite Hq. simpl.
      split; [reflexivity|].
      change w2 with (snd (rs, w2)). rewrite <- Hrest. now apply Hkeep.
    + destruct (IH i w1 Hnd' Hi) as (w0 & Hw0 & Hres & Hfin).
      exists w0. rewrite Hrest in Hres, Hfin. simpl in Hres, Hfin.
      split; [| now split].
      rewrite Hw0. change w1 with (snd (r, w1)). rewrite <- Hq. apply Hother.
      intros ->. apply Hnin. eapply nth_error_In. exact Hi.
Qed.

Lemma allSettled_invoked {A} (task : string -> world -> settled A * world) :
  (forall q w0, invoked (snd (task q w0)) = invoked w0) ->
  forall (paths : list string) (w : world),
    invoked (snd (allSettled task paths w)) = invoked w.
Proof.
  intros Htask. induction paths as [|q paths IH]; intros w; simpl; [reflexivity|].
  destruct (task q w) as [r w1] eqn:Hq.
  destruct (allSettled task paths w1) as [rs w2] eqn:Hrest. simpl.
  change w2 with (snd (rs, w2)). rewrite <- Hrest, IH.
  change w1 with (snd (r, w1)). now rewrite <- Hq.
Qed.

(** [update] on a file, listed once, with the whole-file marker. *)
Lemma update_removeFile (fuel : nat) (a : updateArgs) (w : world)
    (p : string) (i : nat) (contents : jsstring) :
  List.NoDup (filePaths a) ->
  nth_error (filePaths a) i = Some p ->
  files w !! p = Some contents ->
  includes contents (marker REMOVE_FILE) = true ->
  exists (results : list (settled fileResult)) (w' : world),
    update (updateFiles_model fuel) fuel a w = (Some (OfUpdateFiles results), w')
    /\ nth_error results i
       = Some (Fulfilled {| path := p; comments := [REMOVE_FILE] |})
    /\ files w' !! p
       = (if dryRun a then Some contents
          else if onlyMarkup a then Some (sanitize contents) else None)
    /\ invoked w' = invoked w.
Proof.
  intros Hnd Hi Hp Hm.
  destruct (allSettled_at (updateFiles_task fuel (updateFilesCall a)) p
              (fun q w0 => updateFiles_task_other fuel _ p q w0)
              (filePaths a) i w Hnd Hi) as (w0 & Hw0 & Hres & Hfin).
  rewrite <- Hw0 in Hp.
  destruct (updateFiles_task_removeFile fuel a p w0 contents Hp Hm) as [Hr Hf].
  exists (fst (updateFiles_model fuel (updateFilesCall a) w)),
         (snd (updateFiles_model fuel (updateFilesCall a) w)).
  split; [apply update_unfold|]. unfold updateFiles_model.
  cbn [uf_filePaths updateFilesCall].
  fold (updateFilesCall a).
  split; [now rewrite Hres, Hr|]. split; [now rewrite Hfin, Hf|].
  apply allSettled_invoked. intros q w1. apply updateFiles_task_invoked.
Qed.

(** A dry run, the default of [update], in remove mode: the file with the
    whole-file marker is reported and is still there, with its contents
    (section 4.9: a dry run changes no file). *)
Lemma update_dry_run_keeps_file :
  exists (results : list (settled fileResult)) (w' : world),
    update (updateFiles_model 1) 1 dryRemoveRun modelWorld
      = (Some (OfUpdateFiles results), w')
    /\ nth_error results 0
       = Some (Fulfilled {| path := "app/models/Episode.ts"%string;
                            comments := [REMOVE_FILE] |})
    /\ files w' !! "app/models/Episode.ts"%string = Some modelFile
    /\ files w' !! "app/models/Episode.ts"%string <> None.
Proof.
  destruct (update_removeFile 1 dryRemoveRun modelWorld
              "app/models/Episode.ts"%string 0 modelFile)
    as (results & w' & Hu & Hr & Hf & _).
  - repeat constructor. simpl. tauto.
  - reflexivity.
  - apply lookup_singleton_eq.
  - vm_compute. reflexivity.
  - exists results, w'. simpl in Hf. rewrite Hf. repeat split; try assumption.
    discriminate.
Qed.

(** The tasks that run after the first task of a path [p]: what holds of
    the file of [p] after [n] tasks of [p] holds, with the count of the
    further tasks of [p] added, at the end. *)
Lemma allSettled_later {A} (task : string -> world -> settled A * world)
    (p : string) (Inv : nat -> option jsstring -> Prop) :
  (forall q w0, q <> p -> files (snd (task q w0)) !! p = files w0 !! p) ->
  (forall n w0, Inv n (files w0 !! p) ->
     Inv (S n) (files (snd (task p w0)) !! p)) ->
  forall (paths : list string) (n : nat) (w : world),
    Inv n (files w !! p) ->
    Inv (n + count_occ string_dec paths p)
      (files (snd (allSettled task paths w)) !! p).
Proof.
  intros Hother Hstep. induction paths as [|q paths IH]; intros n w Hinv.
  - simpl. now rewrite Nat.add_0_r.
  - cbn [allSettled count_occ].
    destruct (task q w) as [r w1] eqn:Hq.
    destruct (allSettled task paths w1) as [rs w2] eqn:Hrest. cbn [snd].
    change w2 with (snd (rs, w2)). rewrite <- Hrest.
    destruct (string_dec q p) as [-> | Hne].
    + rewrite Nat.add_succ_r. apply (IH (S n)).
      change w1 with (snd (r, w1)). rewrite <- Hq. now apply Hstep.
    + apply IH. change w1 with (snd (r, w1)). rewrite <- Hq.
      now rewrite Hother.
Qed.

(** The first task of a path [p] in the list runs on the file as it was at
    the start, and its result stands at the index of that entry. *)
Lemma allSettled_first_task {A} (task : string -> world -> settled A * world)
    (p : string) (contents : jsstring) (R : settled A)
    (Inv : nat -> option jsstring -> Prop) :
  (forall q w0, q <> p -> files (snd (task q w0)) !! p = files w0 !! p) ->
  (forall w0, files w0 !! p = Some contents ->
     fst (task p w0) = R /\ Inv 1 (files (snd (task p w0)) !! p)) ->
  (forall n w0, Inv n (files w0 !! p) ->
     Inv (S n) (files (snd (task p w0)) !! p)) ->
  forall (paths : list string) (w : world),
    In p paths -> files w !! p = Some contents ->
    exists i,
      nth_error paths i = Some p
      /\ (forall j, j < i -> nth_error paths j <> Some p)
      /\ nth_error (fst (allSettled task paths w)) i = Some R
      /\ Inv (count_occ string_dec paths p)
           (files (snd (allSettled task paths w)) !! p).
Proof.
  intros Hother Hfirst Hstep.
  induction paths as [|q paths IH]; intros w Hin Hp; [contradiction|].
  cbn [allSettled count_occ].
  destruct (task q w) as [r w1] eqn:Hq.
  destruct (allSettled task paths w1) as [rs w2] eqn:Hrest. cbn [fst snd].
  destruct (string_dec q p) as [-> | Hne].
  - exists 0. split; [reflexivity|]. split; [intros j Hj; lia|].
    destruct (Hfirst w Hp) as [HR Hinv]. rewrite Hq in HR, Hinv.
    cbn [fst snd] in HR, Hinv. split; [cbn; now rewrite HR|].
    change w2 with (snd (rs, w2)). rewrite <- Hrest.
    apply (allSettled_later task p Inv Hother Hstep paths 1 w1 Hinv).
  - destruct Hin as [-> | Hin]; [contradiction|].
    assert (Hp1 : files w1 !! p = Some contents).
    { change w1 with (snd (r, w1)). rewrite <- Hq. now rewrite Hother. }
    destruct (IH w1 Hin Hp1) as (i & Hi & Hbefore & Hres & Hinv).
    rewrite Hrest in Hres, Hinv. cbn [fst snd] in Hres, Hinv.
    exists (S i). split; [exact Hi|]. split; [| split; [exact Hres | exact Hinv]].
    intros [|j] Hj; cbn [nth_error].
    + intros E. injection E as E. contradiction.
    + apply Hbefore. lia.
Qed.

(** A dry run of the model changes nothing. *)
Lemma updateFiles_task_dry (fuel : nat) (a : updateFilesArgs) (q : string)
    (w : world) :
  uf_dryRun a = true -> snd (updateFiles_task fuel a q w) = w.
Proof.
  intros Hd. unfold updateFiles_task. rewrite Hd.
  destruct (read w q) as [contents|]; [|reflexivity].
  repeat match goal with
         | |- context [if ?b then _ else _] => destruct b
         end; reflexivity.
Qed.

(** A task of the model on a path that is no file changes nothing. *)
Lemma updateFiles_task_missing (fuel : nat) (a : updateFilesArgs) (q : string)
    (w : world) :
  files w !! q = None -> snd (updateFiles_task fuel a q w) = w.
Proof. intros H. unfold updateFiles_task, read. now rewrite H. Qed.

(** In sanitize mode a task of the model leaves its file as it is or
    writes back its sanitized contents. *)
Lemma updateFiles_task_sanitizes (fuel : nat) (a : updateArgs) (q : string)
    (w : world) (c : jsstring) :
  dryRun a = false -> onlyMarkup a = true -> files w !! q = Some c ->
  files (snd (updateFiles_task fuel (updateFilesCall a) q w)) !! q = Some c
  \/ files (snd (updateFiles_task fuel (updateFilesCall a) q w)) !! q
     = Some (sanitize c).
Proof.
  intros Hd Ho Hq. unfold updateFiles_task, read. rewrite Hq.
  cbn [updateFilesCall uf_commentTypes ct_REMOVE_FILE uf_dryRun uf_onlyMarkup
       uf_markupRegex].
  rewrite Hd, Ho.
  destruct (includes c (marker REMOVE_FILE)).
  - right. apply lookup_insert_eq.
  - destruct (hasMatch mstMarkupRegex c).
    + right. apply lookup_insert_eq.
    + now left.
Qed.

(** What holds of a file with the whole-file marker once its first task
    has run, after [n] tasks of its path: unchanged in a dry run, deleted
    in remove mode, sanitized at least once and at most [n] times in
    sanitize mode. *)
Lemma update_wholeFile (fuel : nat) (a : updateArgs) (w : world)
    (p : string) (contents : jsstring) :
  In p (filePaths a) ->
  files w !! p = Some contents ->
  includes contents (marker REMOVE_FILE) = true ->
  exists (results : list (settled fileResult)) (w' : world) (i : nat),
    update (updateFiles_model fuel) fuel a w = (Some (OfUpdateFiles results), w')
    /\ nth_error (filePaths a) i = Some p
    /\ (forall j, j < i -> nth_error (filePaths a) j <> Some p)
    /\ nth_error results i
       = Some (Fulfilled {| path := p; comments := [REMOVE_FILE] |})
    /\ (if dryRun a then files w' !! p = Some contents
        else if onlyMarkup a then
          exists k, 1 <= k <= count_occ string_dec (filePaths a) p
                    /\ files w' !! p = Some (Nat.iter k sanitize contents)
        else files w' !! p = None).
Proof.
  intros Hin Hp Hm.
  destruct (allSettled_first_task (updateFiles_task fuel (updateFilesCall a)) p
              contents (Fulfilled {| path := p; comments := [REMOVE_FILE] |})
              (fun n o =>
                 if dryRun a then o = Some contents
                 else if onlyMarkup a then
                   exists k, 1 <= k <= n
                             /\ o = Some (Nat.iter k sanitize contents)
                 else o = None)
              (fun q w0 => updateFiles_task_other fuel _ p q w0))
    with (paths := filePaths a) (w := w)
    as (i & Hi & Hbefore & Hres & Hinv); try assumption.
  - intros w0 Hw0.
    destruct (updateFiles_task_removeFile fuel a p w0 contents Hw0 Hm)
      as [Hr Hf].
    split; [exact Hr|]. rewrite Hf.
    destruct (dryRun a); [reflexivity|].
    destruct (onlyMarkup a); [|reflexivity].
    exists 1. split; [lia | reflexivity].
  - intros n w0 Hinv.
    destruct (dryRun a) eqn:Hd.
    + now rewrite updateFiles_task_dry.
    + destruct (onlyMarkup a) eqn:Ho.
      * destruct Hinv as (k & Hk & Hfile).
        destruct (updateFiles_task_sanitizes fuel a p w0 _ Hd Ho Hfile)
          as [H | H]; rewrite H.
        -- exists k. split; [lia | reflexivity].
        -- exists (S k). split; [lia | reflexivity].
      * now rewrite updateFiles_task_missing.
  - exists (fst (updateFiles_model fuel (updateFilesCall a) w)),
           (snd (updateFiles_model fuel (updateFilesCall a) w)), i.
    split; [apply update_unfold|]. unfold updateFiles_model.
    cbn [uf_filePaths updateFilesCall]. fold (updateFilesCall a).
    split; [exact Hi|]. split; [exact Hbefore|]. split; [exact Hres|].
    exact Hinv.
Qed.

(** C8: whole-file removal takes precedence in [update].  For every file
    among the paths whose contents hold the [@mst remove-file] marker,
    whatever other markers they hold and however often the path is listed:
    the entry of the report for the file (the first one of its path) gives
    the [REMOVE_FILE] directive alone; when the run changes files (it is
    not a dry run, section 4.9), in remove mode the file is deleted and in
    sanitize mode ([onlyMarkup]) it survives and its contents are those
    that the sanitizer alone gives (once for a path listed once), so no
    line or block rewriter ran on it; a dry run leaves it as it is.  The
    statements of the source after the [return] of [update], which do not
    run, do the same on the file: their task reports [REMOVE_FILE] alone
    and calls [sanitize] or deletes the file, under the same guard. *)
Theorem update_removeFile_precedence (fuel : nat) (a : updateArgs) (w : world)
    (p : string) (contents : jsstring) :
  In p (filePaths a) ->
  files w !! p = Some contents ->
  includes contents (marker REMOVE_FILE) = true ->
  (exists (results : list (settled fileResult)) (w' : world) (i : nat),
     update (updateFiles_model fuel) fuel a w
       = (Some (OfUpdateFiles results), w')
     /\ nth_error (filePaths a) i = Some p
     /\ (forall j, j < i -> nth_error (filePaths a) j <> Some p)
     /\ nth_error results i
        = Some (Fulfilled {| path := p; comments := [REMOVE_FILE] |})
     /\ (dryRun a = false -> onlyMarkup a = false -> files w' !! p = None)
     /\ (dryRun a = false -> onlyMarkup a = true ->
         exists k, 1 <= k <= count_occ string_dec (filePaths a) p
                   /\ files w' !! p = Some (Nat.iter k sanitize contents))
     /\ (dryRun a = true -> files w' !! p = Some contents))
  /\ mstFileTask fuel (dryRun a) (onlyMarkup a) p w
     = (Fulfilled {| path := p; comments := [REMOVE_FILE] |},
        if dryRun a then w
        else if onlyMarkup a then
          write (logCall w (CallSanitize contents)) p (sanitize contents)
        else removeFile w p).
Proof.
  intros Hin Hp Hm. split; [| now apply mstFileTask_removeFile].
  destruct (update_wholeFile fuel a w p contents Hin Hp Hm)
    as (results & w' & i & Hu & Hi & Hbefore & Hr & Hf).
  exists results, w', i. repeat split; try assumption.
  - intros Hd Ho. now rewrite Hd, Ho in Hf.
  - intros Hd Ho. now rewrite Hd, Ho in Hf.
  - intros Hd. now rewrite Hd in Hf.
Qed.

(** The theorem at a file with the whole-file marker and a line marker, in
    sanitize mode: the report is [REMOVE_FILE] alone and the file holds its
    sanitized contents, the line with the line marker still there. *)
Lemma update_removeFile_witness :
  exists (results : list (settled fileResult)) (w' : world),
    update (updateFiles_model 1) 1 sanitizeRun modelWorld
      = (Some (OfUpdateFiles results), w')
    /\ nth_error results 0
       = Some (Fulfilled {| path := "app/models/Episode.ts"%string;
                            comments := [REMOVE_FILE] |})
    /\ files w' !! "app/models/Episode.ts"%string
       = Some (join [[]; js "const a = 1 "; js "const b = 2"]).
Proof.
  destruct (update_removeFile_precedence 1 sanitizeRun modelWorld
              "app/models/Episode.ts"%string modelFile)
    as [(results & w' & i & Hu & Hi & _ & Hr & _ & Hs & _) _].
  - now left.
  - apply lookup_singleton_eq.
  - vm_compute. reflexivity.
  - exists results, w'. split; [exact Hu|].
    destruct i as [|i]; [| destruct i; discriminate Hi].
    split; [exact Hr|].
    destruct (Hs eq_refl eq_refl) as (k & Hk & Hfile).
    vm_compute in Hk. assert (k = 1) as -> by lia. exact Hfile.
Defined.

(** ** The matcher and the language of a pattern *)

(** What [repeatMatcher] finds is a match of the starred atom, when what the
    atom finds is a match of the atom. *)
Lemma repeatMatcher_sound (r1 : regex) (clear : captures -> captures)
    (c : continuation) :
  (forall x cap d z, matcher r1 x cap d = Some z ->
     exists m y cap', x = m ++ y /\ matches r1 m /\ d y cap' = Some z) ->
  forall fuel x cap z,
    repeatMatcher (matcher r1) clear c fuel x cap = Some z ->
    exists m y cap', x = m ++ y /\ matches (Star r1) m /\ c y cap' = Some z.
Proof.
  intros IH1. induction fuel as [|fuel IH]; intros x cap z H; [discriminate|].
  simpl in H.
  destruct (matcher r1 x (clear cap) _) as [z'|] eqn:Hm.
  - injection H as ->. apply IH1 in Hm as (m1 & y1 & cap1 & Hx & Hm1 & Hd).
    destruct (Nat.eqb (length y1) (length x)); [discriminate|].
    apply IH in Hd as (m2 & y & cap' & Hy & Hm2 & Hc).
    exists (m1 ++ m2), y, cap'. split; [| split; [|exact Hc]].
    + rewrite Hx, Hy. now rewrite app_assoc.
    + now constructor.
  - exists [], x, cap. split; [reflexivity | split; [constructor | exact H]].
Qed.

(** Soundness: when the matcher succeeds, a prefix of the input is in the
    language of the pattern and the continuation succeeded on the rest. *)
Lemma matcher_sound (r : regex) :
  forall x cap c z, matcher r x cap c = Some z ->
    exists m y cap', x = m ++ y /\ matches r m /\ c y cap' = Some z.
Proof.
  induction r as [| a | p | r1 IH1 r2 IH2 | r1 IH1 r2 IH2 | r1 IH1 | r1 IH1
                  | r1 IH1 | n r1 IH1]; intros x cap c z H.
  - simpl in H.
    exists [], x, cap. split; [reflexivity | split; [constructor | exact H]].
  - simpl in H. destruct x as [|b y]; [discriminate|].
    destruct (N.eqb_spec b a) as [->|]; [|discriminate].
    exists [a], y, cap. split; [reflexivity | split; [constructor | exact H]].
  - simpl in H. destruct x as [|b y]; [discriminate|].
    destruct (p b) eqn:Hp; [|discriminate].
    exists [b], y, cap. split; [reflexivity | split; [now constructor | exact H]].
  - simpl in H. apply IH1 in H as (m1 & y1 & cap1 & Hx & Hm1 & H).
    apply IH2 in H as (m2 & y & cap' & Hy & Hm2 & H).
    exists (m1 ++ m2), y, cap'. split; [| split; [now constructor | exact H]].
    rewrite Hx, Hy. now rewrite app_assoc.
  - simpl in H. destruct (matcher r1 x cap c) as [z'|] eqn:H1.
    + injection H as ->. apply IH1 in H1 as (m & y & cap' & Hx & Hm & Hc).
      exists m, y, cap'. split; [exact Hx | split; [now apply matches_Alt_l | exact Hc]].
    + apply IH2 in H as (m & y & cap' & Hx & Hm & Hc).
      exists m, y, cap'. split; [exact Hx | split; [now apply matches_Alt_r | exact Hc]].
  - change (repeatMatcher (matcher r1) (clearCaptures (groups r1)) c
              (S (length x)) x cap = Some z) in H.
    eapply repeatMatcher_sound; [exact IH1 | exact H].
  - change (matcher r1 x (clearCaptures (groups r1) cap)
              (fun y cap' =>
                 repeatMatcher (matcher r1) (clearCaptures (groups r1)) c
                   (S (length y)) y cap') = Some z) in H.
    apply IH1 in H as (m1 & y1 & cap1 & Hx & Hm1 & H).
    apply (repeatMatcher_sound r1 _ c IH1) in H as (m2 & y & cap' & Hy & Hm2 & H).
    exists (m1 ++ m2), y, cap'. split; [| split; [now constructor | exact H]].
    rewrite Hx, Hy. now rewrite app_assoc.
  - simpl in H. destruct (matcher r1 x _ _) as [z'|] eqn:H1.
    + injection H as ->. apply IH1 in H1 as (m & y & cap' & Hx & Hm & Hc).
      destruct (Nat.eqb (length y) (length x)); [discriminate|].
      exists m, y, cap'. split; [exact Hx | split; [now apply matches_Opt | exact Hc]].
    + exists [], x, cap. split; [reflexivity | split; [constructor | exact H]].
  - simpl in H. apply IH1 in H as (m & y & cap' & Hx & Hm & Hc).
    exists m, y, (setCapture n (firstn (length x - length y) x) cap').
    split; [exact Hx | split; [now constructor | exact Hc]].
Qed.

(** Completeness: when a prefix of the input is in the language of the
    pattern and the continuation succeeds on the rest, the matcher succeeds
    (with this or with another match); likewise [repeatMatcher] for a
    starred atom, with fuel above the length of the input. *)
Lemma matcher_complete_aux (r : regex) (m : jsstring) :
  matches r m ->
  (forall y cap c, succeedsOn c y -> matcher r (m ++ y) cap c <> None)
  /\ (forall r1, r = Star r1 ->
        forall y cap c clear fuel, succeedsOn c y ->
          length (m ++ y) < fuel ->
          repeatMatcher (matcher r1) clear c fuel (m ++ y) cap <> None).
Proof.
  induction 1 as [| a | p a Hp | r1 r2 s1 s2 H1 [IH1 _] H2 [IH2 _]
                  | r1 r2 s H1 [IH1 _] | r1 r2 s H2 [IH2 _]
                  | r1 | r1 s1 s2 H1 [IH1 _] H2 [IHs IH2]
                  | r1 s1 s2 H1 [IH1 _] H2 [_ IH2]
                  | r1 | r1 s H1 [IH1 _] | n r1 s H1 [IH1 _]].
  - split; [| discriminate]. intros y cap c Hc. apply Hc.
  - split; [| discriminate]. intros y cap c Hc. simpl.
    rewrite N.eqb_refl. apply Hc.
  - split; [| discriminate]. intros y cap c Hc. simpl. rewrite Hp. apply Hc.
  - split; [| discriminate]. intros y cap c Hc. simpl. rewrite <- app_assoc.
    apply IH1. intros cap'. now apply IH2.
  - split; [| discriminate]. intros y cap c Hc. simpl.
    destruct (matcher r1 (s ++ y) cap c) eqn:E; [discriminate|].
    now apply IH1 in E.
  - split; [| discriminate]. intros y cap c Hc. simpl.
    destruct (matcher r1 (s ++ y) cap c) eqn:E; [discriminate|].
    now apply IH2.
  - assert (Hrep : forall y cap c clear fuel, succeedsOn c y ->
              length ([] ++ y) < fuel ->
              repeatMatcher (matcher r1) clear c fuel ([] ++ y) cap <> None).
    { intros y cap c clear fuel Hc Hf. destruct fuel as [|fuel]; [lia|].
      simpl. destruct (matcher r1 y _ _); [discriminate | apply Hc]. }
    split.
    + intros y cap c Hc. apply Hrep; [exact Hc | simpl; lia].
    + intros r1' E. injection E as <-. exact Hrep.
  - assert (Hrep : forall y cap c clear fuel, succeedsOn c y ->
              length ((s1 ++ s2) ++ y) < fuel ->
              repeatMatcher (matcher r1) clear c fuel ((s1 ++ s2) ++ y) cap
                <> None).
    { intros y cap c clear fuel Hc Hf. destruct s1 as [|a s1].
      - apply (IH2 r1 eq_refl); assumption.
      - destruct fuel as [|fuel]; [lia|].
        change (repeatMatcher (matcher r1) clear c (S fuel)
                  (((a :: s1) ++ s2) ++ y) cap)
          with (match matcher r1 (((a :: s1) ++ s2) ++ y) (clear cap)
                        (fun y' cap' =>
                           if Nat.eqb (length y') (length (((a :: s1) ++ s2) ++ y))
                           then None
                           else repeatMatcher (matcher r1) clear c fuel y' cap')
                with Some z => Some z | None => c (((a :: s1) ++ s2) ++ y) cap
                end).
        destruct (matcher r1 _ _ _) eqn:E; [discriminate|].
        exfalso. rewrite <- app_assoc in E. revert E. apply IH1.
        intros cap'.
        replace (Nat.eqb (length (s2 ++ y)) (length ((a :: s1) ++ s2 ++ y)))
          with false.
        + apply (IH2 r1 eq_refl); [exact Hc|].
          clear -Hf. simpl in *. rewrite ?length_app in *. simpl in *. lia.
        + symmetry. apply Nat.eqb_neq. simpl. rewrite ?length_app. simpl. lia. }
    split.
    + intros y cap c Hc. apply Hrep; [exact Hc | lia].
    + intros r1' E. injection E as <-. exact Hrep.
  - split; [| discriminate]. intros y cap c Hc.
    change (matcher r1 ((s1 ++ s2) ++ y) (clearCaptures (groups r1) cap)
              (fun y' cap' =>
                 repeatMatcher (matcher r1) (clearCaptures (groups r1)) c
                   (S (length y')) y' cap') <> None).
    rewrite <- app_assoc. apply IH1. intros cap'.
    apply (IH2 r1 eq_refl); [exact Hc | lia].
  - split; [| discriminate]. intros y cap c Hc. simpl.
    destruct (matcher r1 y _ _); [discriminate | apply Hc].
  - split; [| discriminate]. intros y cap c Hc. simpl.
    destruct (matcher r1 (s ++ y) _ _) eqn:E; [discriminate|].
    destruct s as [|a s]; [apply Hc|].
    exfalso. revert E. apply IH1. intros cap'.
    replace (Nat.eqb (length y) (length ((a :: s) ++ y))) with false; [apply Hc|].
    symmetry. apply Nat.eqb_neq. rewrite length_app. simpl. lia.
  - split; [| discriminate]. intros y cap c Hc. simpl.
    apply IH1. intros cap'. apply Hc.
Qed.

Lemma matcher_complete (r : regex) (m y : jsstring) (cap : captures)
    (c : continuation) :
  matches r m -> succeedsOn c y -> matcher r (m ++ y) cap c <> None.
Proof. intros Hm Hc. now apply (matcher_complete_aux r m Hm). Qed.

(** The matcher runs its continuation on inputs no longer than its own:
    continuations that agree on them give the same result. *)
Lemma repeatMatcher_ext
    (m : jsstring -> captures -> continuation -> matchResult)
    (clear : captures -> captures) (c1 c2 : continuation) :
  (forall x cap d1 d2,
     (forall y cap', length y <= length x -> d1 y cap' = d2 y cap') ->
     m x cap d1 = m x cap d2) ->
  forall fuel x cap,
    (forall y cap', length y <= length x -> c1 y cap' = c2 y cap') ->
    repeatMatcher m clear c1 fuel x cap = repeatMatcher m clear c2 fuel x cap.
Proof.
  intros Hm. induction fuel as [|fuel IH]; intros x cap Hc; [reflexivity|].
  simpl. rewrite (Hm x (clear cap) _
    (fun y cap' => if Nat.eqb (length y) (length x) then None
                   else repeatMatcher m clear c2 fuel y cap')).
  - now rewrite Hc.
  - intros y cap' Hy. destruct (Nat.eqb (length y) (length x)); [reflexivity|].
    apply IH. intros z cap'' Hz. apply Hc. lia.
Qed.

Lemma matcher_ext (r : regex) :
  forall x cap c1 c2,
    (forall y cap', length y <= length x -> c1 y cap' = c2 y cap') ->
    matcher r x cap c1 = matcher r x cap c2.
Proof.
  induction r as [| a | p | r1 IH1 r2 IH2 | r1 IH1 r2 IH2 | r1 IH1 | r1 IH1
                  | r1 IH1 | n r1 IH1]; intros x cap c1 c2 Hc.
  - simpl. now apply Hc.
  - simpl. destruct x as [|b y]; [reflexivity|].
    destruct (N.eqb b a); [|reflexivity]. apply Hc. simpl. lia.
  - simpl. destruct x as [|b y]; [reflexivity|].
    destruct (p b); [|reflexivity]. apply Hc. simpl. lia.
  - simpl. apply IH1. intros y cap' Hy. apply IH2.
    intros z cap'' Hz. apply Hc. lia.
  - simpl. now rewrite (IH1 x cap c1 c2 Hc), (IH2 x cap c1 c2 Hc).
  - change (repeatMatcher (matcher r1) (clearCaptures (groups r1)) c1
              (S (length x)) x cap
            = repeatMatcher (matcher r1) (clearCaptures (groups r1)) c2
                (S (length x)) x cap).
    now apply repeatMatcher_ext.
  - change (matcher r1 x (clearCaptures (groups r1) cap)
              (fun y cap' =>
                 repeatMatcher (matcher r1) (clearCaptures (groups r1)) c1
                   (S (length y)) y cap')
            = matcher r1 x (clearCaptures (groups r1) cap)
                (fun y cap' =>
                   repeatMatcher (matcher r1) (clearCaptures (groups r1)) c2
                     (S (length y)) y cap')).
    apply IH1. intros y cap' Hy. apply repeatMatcher_ext; [exact IH1|].
    intros z cap'' Hz. apply Hc. lia.
  - simpl. rewrite (IH1 x _ _
      (fun y cap' => if Nat.eqb (length y) (length x) then None else c2 y cap')).
    + now rewrite Hc.
    + intros y cap' Hy. destruct (Nat.eqb (length y) (length x)); [reflexivity|].
      now apply Hc.
  - simpl. apply IH1. intros y cap' Hy. now apply Hc.
Qed.

(** Fuel above the length of the input is never used up: the result of
    [repeatMatcher] does not depend on it. *)
Lemma repeatMatcher_fuel (r1 : regex) (clear : captures -> captures)
    (c : continuation) :
  forall f1 f2 x cap,
    length x < f1 -> length x < f2 ->
    repeatMatcher (matcher r1) clear c f1 x cap
    = repeatMatcher (matcher r1) clear c f2 x cap.
Proof.
  induction f1 as [|f1 IH]; intros f2 x cap H1 H2; [lia|].
  destruct f2 as [|f2]; [lia|]. simpl.
  rewrite (matcher_ext r1 x (clear cap) _
    (fun y cap' => if Nat.eqb (length y) (length x) then None
                   else repeatMatcher (matcher r1) clear c f2 y cap'));
    [reflexivity|].
  intros y cap' Hy. destruct (Nat.eqb_spec (length y) (length x)); [reflexivity|].
  apply IH; lia.
Qed.

(** ** exec and replace *)

Lemma exec_eq (r : regex) (s : jsstring) :
  exec r s =
    match matcher r s noCaptures (fun y cap => Some (y, cap)) with
    | Some (y, cap) =>
        Some {| before := []; matched := firstn (length s - length y) s;
                caps := cap; after := y |}
    | None =>
        match s with
        | [] => None
        | b :: s' =>
            match exec r s' with
            | Some e =>
                Some {| before := b :: before e; matched := matched e;
                        caps := caps e; after := after e |}
            | None => None
            end
        end
    end.
Proof. destruct s; reflexivity. Qed.

(** The matcher fails at a position exactly when no match starts there. *)
Lemma matcher_none_no_match (r : regex) (s : jsstring) :
  matcher r s noCaptures (fun y cap => Some (y, cap)) = None ->
  ~ matchAt r s.
Proof.
  intros H (m & rest & -> & Hm). revert H. apply matcher_complete; [exact Hm|].
  intros cap. discriminate.
Qed.

Lemma matcher_some_match (r : regex) (s y : jsstring) (cap : captures) :
  matcher r s noCaptures (fun y cap => Some (y, cap)) = Some (y, cap) ->
  exists m, s = m ++ y /\ matches r m.
Proof.
  intros H. apply matcher_sound in H as (m & y' & cap' & Hs & Hm & Hk).
  injection Hk as -> _. now exists m.
Qed.

(** No match found: no match starts anywhere in the input. *)
Lemma exec_none (r : regex) (s : jsstring) :
  exec r s = None -> forall a b, s = a ++ b -> ~ matchAt r b.
Proof.
  induction s as [|ch0 s IH]; intros H a b Hab; rewrite exec_eq in H;
    destruct (matcher r _ noCaptures _) as [[y cap]|] eqn:E; try discriminate.
  - apply eq_sym, app_eq_nil in Hab as [-> ->].
    now apply matcher_none_no_match.
  - destruct a as [|a0 a]; simpl in Hab.
    + subst b. now apply matcher_none_no_match.
    + injection Hab as _ Hab. destruct (exec r s) eqn:Es; [discriminate|].
      now apply (IH eq_refl a b).
Qed.

Lemma firstn_match {A} (s m y : list A) :
  s = m ++ y -> firstn (length s - length y) s = m.
Proof.
  intros ->. rewrite length_app, Nat.add_sub.
  rewrite firstn_app, Nat.sub_diag, firstn_all. simpl. apply app_nil_r.
Qed.

(** A match found: it is a match, the input is the text before it, the
    match and the text after it, and no match starts before it. *)
Lemma exec_some (r : regex) (s : jsstring) (e : execResult) :
  exec r s = Some e ->
  s = before e ++ matched e ++ after e
  /\ matches r (matched e)
  /\ (forall a b, before e = a ++ b -> b <> [] ->
        ~ matchAt r (b ++ matched e ++ after e)).
Proof.
  revert e. induction s as [|ch0 s IH]; intros e H; rewrite exec_eq in H;
    destruct (matcher r _ noCaptures _) as [[y cap]|] eqn:E; try discriminate.
  - injection H as <-. simpl.
    apply matcher_some_match in E as (m & Hs & Hm).
    apply eq_sym, app_eq_nil in Hs as [-> ->].
    repeat split; try assumption.
    intros a b Hab Hb. apply eq_sym, app_eq_nil in Hab as [_ ->]. contradiction.
  - injection H as <-. cbn [before matched after].
    apply matcher_some_match in E as (m & Hs & Hm).
    change (S (length s)) with (length (ch0 :: s)).
    rewrite (firstn_match _ _ _ Hs).
    repeat split; try assumption.
    intros a b Hab Hb. apply eq_sym, app_eq_nil in Hab as [_ ->]. contradiction.
  - destruct (exec r s) as [e'|] eqn:Es; [|discriminate].
    injection H as <-. simpl.
    destruct (IH e' eq_refl) as (Hs & Hm & Hleft).
    repeat split; [now rewrite Hs at 1 | exact Hm |].
    intros a b Hab Hb. destruct a as [|a0 a]; simpl in Hab.
    + subst b. simpl. rewrite <- Hs. now apply matcher_none_no_match.
    + injection Hab as _ Hab. now apply (Hleft a b).
Qed.

(** Fuel above the length of the input is never used up by [replace_loop]. *)
Lemma replace_loop_fuel (r : regex) (tmpl : list replacementItem) :
  forall f1 f2 s,
    length s < f1 -> length s < f2 ->
    replace_loop f1 r tmpl s = replace_loop f2 r tmpl s.
Proof.
  induction f1 as [|f1 IH]; intros f2 s H1 H2; [lia|].
  destruct f2 as [|f2]; [lia|]. simpl.
  destruct (exec r s) as [e|] eqn:E; [|reflexivity].
  apply exec_some in E as (Hs & _ & _).
  assert (Hlen : length s = length (before e) + length (matched e)
                            + length (after e)).
  { rewrite Hs at 1. rewrite !length_app. lia. }
  destruct (matched e) as [|m0 m]; destruct (after e) as [|b rest];
    simpl in Hlen; try reflexivity.
  - rewrite (IH f2 rest); [reflexivity | lia | lia].
  - rewrite (IH f2 []); [reflexivity | simpl; lia | simpl; lia].
  - rewrite (IH f2 (b :: rest)); [reflexivity | simpl; lia | simpl; lia].
Qed.

(** [replace] with the empty replacement deletes matches from left to
    right, for a pattern that has no empty match. *)
Lemma replace_loop_deletes (r : regex) :
  (forall m, matches r m -> m <> []) ->
  forall (fuel : nat) (s : jsstring),
    length s < fuel ->
    deletesMatches r s (replaced_loop fuel r s) (replace_loop fuel r [] s).
Proof.
  intros Hne. induction fuel as [|fuel IH]; intros s Hf; [lia|].
  simpl. destruct (exec r s) as [e|] eqn:E.
  - apply exec_some in E as (Hs & Hm & Hleft).
    pose proof (Hne _ Hm) as Hnil.
    destruct (matched e) as [|m0 m] eqn:Em; [contradiction|].
    rewrite Hs at 1. apply deletes_match; try assumption.
    apply IH. rewrite Hs in Hf. rewrite !length_app in Hf. simpl in Hf. lia.
  - apply deletes_none. now apply exec_none.
Qed.

(** ** The language of the patterns of the source *)

Lemma matches_Empty_iff (m : jsstring) : matches Empty m <-> m = [].
Proof. split; [now inversion 1 | intros ->; constructor]. Qed.

Lemma matches_Char_iff (c : codeunit) (m : jsstring) :
  matches (Char c) m <-> m = [c].
Proof. split; [now inversion 1 | intros ->; constructor]. Qed.

Lemma matches_Seq_iff (r1 r2 : regex) (m : jsstring) :
  matches (Seq r1 r2) m
  <-> exists s1 s2, m = s1 ++ s2 /\ matches r1 s1 /\ matches r2 s2.
Proof.
  split.
  - inversion 1; subst. now eexists _, _.
  - intros (s1 & s2 & -> & H1 & H2). now constructor.
Qed.

Lemma matches_Alt_iff (r1 r2 : regex) (m : jsstring) :
  matches (Alt r1 r2) m <-> matches r1 m \/ matches r2 m.
Proof.
  split.
  - inversion 1; subst; [now left | now right].
  - intros [H | H]; [now apply matches_Alt_l | now apply matches_Alt_r].
Qed.

Lemma matches_Opt_iff (r : regex) (m : jsstring) :
  matches (Opt r) m <-> m = [] \/ matches r m.
Proof.
  split.
  - inversion 1; subst; [now left | now right].
  - intros [-> | H]; [apply matches_Opt_nil | now apply matches_Opt].
Qed.

Lemma matches_Group_iff (n : nat) (r : regex) (m : jsstring) :
  matches (Group n r) m <-> matches r m.
Proof. split; [now inversion 1 | now constructor]. Qed.

Lemma matches_Lit_iff (s m : jsstring) : matches (Lit s) m <-> m = s.
Proof.
  revert m. induction s as [|c s IH]; intros m.
  - apply matches_Empty_iff.
  - destruct s as [|c' s].
    + apply matches_Char_iff.
    + change (Lit (c :: c' :: s)) with (Seq (Char c) (Lit (c' :: s))).
      rewrite matches_Seq_iff. split.
      * intros (s1 & s2 & -> & H1 & H2). apply matches_Char_iff in H1 as ->.
        apply IH in H2 as ->. reflexivity.
      * intros ->. exists [c], (c' :: s).
        split; [reflexivity | split; [constructor | now apply IH]].
Qed.

Lemma matches_Star_Class_iff (p : codeunit -> bool) (m : jsstring) :
  matches (Star (Class p)) m <-> forallb p m = true.
Proof.
  split.
  - intros H. remember (Star (Class p)) as r eqn:Er.
    induction H as [| | | | | | r | r s1 s2 H1 _ H2 IH2 | | | |];
      try discriminate; [reflexivity|].
    injection Er as ->. inversion H1; subst. simpl.
    rewrite IH2 by reflexivity. now rewrite andb_true_r.
  - induction m as [|c m IH]; intros H; [constructor|].
    simpl in H. apply andb_true_iff in H as [Hc Hm].
    change (c :: m) with ([c] ++ m). constructor; [now constructor | now apply IH].
Qed.

(** The matches of [mstMarkupRegex] are the two forms of directive comment. *)
Lemma matches_mstMarkupRegex (m : jsstring) :
  matches mstMarkupRegex m <-> commentMatch m \/ inlineMatch m.
Proof.
  unfold mstMarkupRegex. cbn [Concat]. rewrite matches_Alt_iff. split.
  - intros [H | H].
    + left.
      apply matches_Seq_iff in H as (opener & x1 & -> & Ho & H).
      apply matches_Seq_iff in H as (ws & x2 & -> & Hws & H).
      apply matches_Seq_iff in H as (tok & tail & -> & Htok & Htail).
      apply matches_Group_iff, matches_Alt_iff in Ho.
      rewrite matches_Lit_iff, matches_Char_iff in Ho.
      apply matches_Star_Class_iff in Hws, Htail.
      apply matches_Lit_iff in Htok as ->.
      exists opener, ws, tail. repeat split; assumption.
    + right.
      apply matches_Seq_iff in H as (lbrace & x1 & -> & Hl & H).
      apply matches_Seq_iff in H as (sl & x2 & -> & Hsl & H).
      apply matches_Seq_iff in H as (mid & x3 & -> & Hmid & H).
      apply matches_Seq_iff in H as (tok & x4 & -> & Htok & H).
      apply matches_Seq_iff in H as (tail & x5 & -> & Htail & H).
      apply matches_Seq_iff in H as (sl' & rbrace & -> & Hsl' & Hr).
      rewrite matches_Opt_iff, matches_Char_iff in Hl, Hr.
      apply matches_Char_iff in Hsl as ->, Hsl' as ->.
      apply matches_Star_Class_iff in Hmid, Htail.
      apply matches_Lit_iff in Htok as ->.
      exists lbrace, mid, tail, rbrace. repeat split; assumption.
  - intros [(opener & ws & tail & -> & Ho & Hws & Htail)
           | (lbrace & mid & tail & rbrace & -> & Hl & Hmid & Htail & Hr)].
    + left. repeat (apply matches_Seq; [|try apply matches_Seq]).
      * apply matches_Group_iff, matches_Alt_iff.
        now rewrite matches_Lit_iff, matches_Char_iff.
      * now apply matches_Star_Class_iff.
      * now apply matches_Lit_iff.
      * now apply matches_Star_Class_iff.
    + right.
      apply matches_Seq; [now rewrite matches_Opt_iff, matches_Char_iff|].
      apply (matches_Seq _ _ (js "/")); [now apply matches_Char_iff|].
      apply matches_Seq; [now apply matches_Star_Class_iff|].
      apply matches_Seq; [now apply matches_Lit_iff|].
      apply matches_Seq; [now apply matches_Star_Class_iff|].
      apply (matches_Seq _ _ (js "/")); [now apply matches_Char_iff|].
      now rewrite matches_Opt_iff, matches_Char_iff.
Qed.

(** Every match of [mstMarkupRegex] holds the token [@mst]. *)
Lemma mstMarkupRegex_match_includes (m : jsstring) :
  matches mstMarkupRegex m -> includes m (js "@mst") = true.
Proof.
  intros H. apply includes_spec. apply matches_mstMarkupRegex in H
    as [(opener & ws & tail & -> & _) | (lbrace & mid & tail & rbrace & -> & _)].
  - exists (opener ++ ws), tail. list_assoc.
  - exists (lbrace ++ js "/" ++ mid), (tail ++ js "/" ++ rbrace). list_assoc.
Qed.

Lemma mstMarkupRegex_match_not_nil (m : jsstring) :
  matches mstMarkupRegex m -> m <> [].
Proof.
  intros H ->. apply mstMarkupRegex_match_includes in H. discriminate.
Qed.

Lemma forallb_dot_no_LF (s : jsstring) : forallb dot s = true -> ~ In LF s.
Proof.
  intros H Hin. rewrite forallb_forall in H. apply H in Hin. discriminate.
Qed.

(** A match of [mstMarkupRegex] holds a line feed only in the whitespace
    between [//] or [#] and [@mst]. *)
Lemma mstMarkupRegex_match_LF (m : jsstring) :
  matches mstMarkupRegex m -> In LF m ->
  exists opener ws tail,
    m = opener ++ ws ++ js "@mst" ++ tail
    /\ (opener = js "//" \/ opener = js "#")
    /\ forallb whitespace ws = true /\ In LF ws
    /\ forallb dot tail = true.
Proof.
  intros H Hin. apply matches_mstMarkupRegex in H
    as [(opener & ws & tail & -> & Ho & Hws & Htail)
       | (lbrace & mid & tail & rbrace & -> & Hl & Hmid & Htail & Hr)].
  - exists opener, ws, tail. repeat split; try assumption.
    apply in_app_or in Hin as [Hin | Hin].
    { exfalso. destruct Ho as [-> | ->]; vm_compute in Hin; intuition discriminate. }
    apply in_app_or in Hin as [Hin | Hin]; [exact Hin|].
    apply in_app_or in Hin as [Hin | Hin].
    { exfalso. vm_compute in Hin. intuition discriminate. }
    exfalso. now apply (forallb_dot_no_LF tail).
  - exfalso.
    repeat (apply in_app_or in Hin as [Hin | Hin];
            [try (now apply (forallb_dot_no_LF _ Hmid));
             try (now apply (forallb_dot_no_LF _ Htail));
             try (destruct Hl as [-> | ->]);
             try (vm_compute in Hin; intuition discriminate) |]).
    destruct Hr as [-> | ->]; vm_compute in Hin; intuition discriminate.
Qed.

Lemma deletesMatches_sublist (r : regex) (s out : jsstring)
    (ms : list jsstring) :
  deletesMatches r s ms out -> sublist out s.
Proof.
  induction 1 as [s _ | pre m rest ms out _ _ _ _ IH]; [reflexivity|].
  apply sublist_app; [reflexivity|]. now apply sublist_inserts_l.
Qed.

(** Nothing is deleted from a text without a token that every match holds. *)
Lemma deletesMatches_no_token (r : regex) (s out tok : jsstring)
    (ms : list jsstring) :
  deletesMatches r s ms out ->
  (forall m, matches r m -> includes m tok = true) ->
  includes s tok = false -> ms = [] /\ out = s.
Proof.
  intros H Htok Hno.
  destruct H as [s _ | pre m rest ms out _ Hm _ _]; [now split|].
  exfalso. apply Htok, includes_spec in Hm as (a & b & ->).
  assert (Hin : includes (pre ++ (a ++ tok ++ b) ++ rest) tok = true).
  { apply includes_spec. exists (pre ++ a), (b ++ rest). list_assoc. }
  rewrite Hin in Hno. discriminate.
Qed.

(** The number of lines is one more than the number of line feeds. *)
Lemma split_length (s : jsstring) :
  length (split s) = S (count_occ N.eq_dec s LF).
Proof.
  induction s as [|c s IH]; simpl; [reflexivity|].
  destruct (N.eqb_spec c LF) as [->|Hne].
  - destruct (N.eq_dec LF LF); [|contradiction]. simpl. now rewrite IH.
  - destruct (N.eq_dec c LF); [contradiction|].
    pose proof (split_not_nil s) as Hn.
    destruct (split s) as [|l ls]; [contradiction | exact IH].
Qed.

(** Deleting matches without line feed keeps the number of lines. *)
Lemma deletesMatches_lines (r : regex) (s out : jsstring) (ms : list jsstring) :
  deletesMatches r s ms out ->
  Forall (fun m => ~ In LF m) ms ->
  length (split out) = length (split s).
Proof.
  intros H Hms. rewrite !split_length. f_equal.
  induction H as [s _ | pre m rest ms out _ _ _ _ IH]; [reflexivity|].
  inversion Hms as [|? ? Hm Hms']; subst.
  specialize (IH Hms'). apply (count_occ_not_In N.eq_dec) in Hm.
  rewrite !count_occ_app. lia.
Qed.

Lemma sanitize_deletes (contents : jsstring) :
  deletesMatches mstMarkupRegex contents (replaced contents mstMarkupRegex)
    (sanitize contents).
Proof.
  unfold sanitize, replace, replaced. apply replace_loop_deletes; [|lia].
  apply mstMarkupRegex_match_not_nil.
Qed.

(** C9, as stated, fails twice.  A match can span a line feed: in the three
    lines [a //], [@mst remove-file], [b] the match is [//], the line feed
    and [@mst remove-file], and two lines are left.  And the result can
    still hold a match: what is left of
    [#/ @mst remove-file / @mst remove-file] is [# @mst remove-file]. *)
Lemma sanitize_not_line_preserving_nor_clean :
  (length (split (join [js "a //"; js "@mst remove-file"; js "b"])) = 3
   /\ sanitize (join [js "a //"; js "@mst remove-file"; js "b"])
      = join [js "a "; js "b"]
   /\ length (split (sanitize (join [js "a //"; js "@mst remove-file"; js "b"])))
      = 2)
  /\ hasMatch mstMarkupRegex
       (sanitize (js "#/ @mst remove-file / @mst remove-file")) = true.
Proof. repeat split; vm_compute; reflexivity. Qed.

(** C9, amended: for every contents, [sanitize] deletes matches of
    [mstMarkupRegex] that do not overlap, from left to right: each deleted
    match starts at the first position, from the end of the one before,
    where a match starts, and no match starts after the last one; every
    other character is kept in its order, contents without [@mst] come back
    unchanged, and the number of lines is kept when no deleted match holds a
    line feed.  A match is one of the two forms of directive comment, and
    holds a line feed only in the whitespace between [//] or [#] and
    [@mst]. *)
Theorem sanitize_deletes_directive_matches :
  (forall contents : jsstring,
     deletesMatches mstMarkupRegex contents (replaced contents mstMarkupRegex)
       (sanitize contents)
     /\ sublist (sanitize contents) contents
     /\ (includes contents (js "@mst") = false -> sanitize contents = contents)
     /\ (Forall (fun m => ~ In LF m) (replaced contents mstMarkupRegex) ->
         length (split (sanitize contents)) = length (split contents)))
  /\ (forall m : jsstring,
        matches mstMarkupRegex m <-> commentMatch m \/ inlineMatch m)
  /\ (forall m : jsstring,
        matches mstMarkupRegex m -> In LF m ->
        exists opener ws tail,
          m = opener ++ ws ++ js "@mst" ++ tail
          /\ (opener = js "//" \/ opener = js "#")
          /\ forallb whitespace ws = true /\ In LF ws
          /\ forallb dot tail = true).
Proof.
  split; [| split; [apply matches_mstMarkupRegex | apply mstMarkupRegex_match_LF]].
  intros contents. pose proof (sanitize_deletes contents) as H.
  split; [exact H|]. split; [now apply deletesMatches_sublist in H|]. split.
  - intros Hno.
    apply (deletesMatches_no_token _ _ _ (js "@mst") _ H); [|exact Hno].
    apply mstMarkupRegex_match_includes.
  - intros Hms. exact (deletesMatches_lines _ _ _ _ H Hms).
Qed.

(** The theorem at two lines, the first with a directive comment: the one
    deleted match holds no line feed, and two lines are left. *)
Lemma sanitize_two_lines_witness :
  replaced (join [js "const a = 1 // @mst remove-current-line"; js "const b = 2"])
    mstMarkupRegex
  = [js "// @mst remove-current-line"]
  /\ length (split (sanitize
         (join [js "const a = 1 // @mst remove-current-line"; js "const b = 2"])))
     = 2.
Proof.
  split; [vm_compute; reflexivity|].
  apply (proj2 (proj2 (proj2 (proj1 sanitize_deletes_directive_matches
           (join [js "const a = 1 // @mst remove-current-line";
                  js "const b = 2"]))))).
  vm_compute. constructor; [| constructor].
  intros H. repeat (destruct H as [H | H]; [discriminate H|]). exact H.
Defined.

(** * Further properties of the rewriters *)

(** ** Markers, lines and contents *)

(** A text that occurs in a line occurs in the joined lines. *)
Lemma includes_join_line (m l : jsstring) (lines : list jsstring) :
  In l lines -> includes l m = true -> includes (join lines) m = true.
Proof.
  intros Hin Hl. apply includes_spec in Hl as (a & b & ->).
  induction lines as [|l' ls IH]; [contradiction|].
  destruct Hin as [-> | Hin].
  - destruct ls as [|l2 ls].
    + apply includes_spec. now exists a, b.
    + change (join ((a ++ m ++ b) :: l2 :: ls))
        with ((a ++ m ++ b) ++ LF :: join (l2 :: ls)).
      apply includes_spec. exists a, (b ++ LF :: join (l2 :: ls)). list_assoc.
  - specialize (IH Hin). destruct ls as [|l2 ls]; [contradiction|].
    change (join (l' :: l2 :: ls)) with (l' ++ LF :: join (l2 :: ls)).
    apply includes_spec in IH as (a' & b' & ->). apply includes_spec.
    exists (l' ++ LF :: a'), b'. list_assoc.
Qed.

(** Contents without a text have no line with it. *)
Lemma includes_split (m s : jsstring) :
  includes s m = false ->
  Forall (fun l => includes l m = false) (split s).
Proof.
  intros H. apply List.Forall_forall. intros l Hin.
  destruct (includes l m) eqn:Hl; [|reflexivity].
  rewrite <- (join_split s) in H.
  now rewrite (includes_join_line m l (split s) Hin Hl) in H.
Qed.

(** Lines without a marker join to contents without it. *)
Lemma join_no_marker (c : CommentType) (lines : list jsstring) :
  Forall (fun l => includes l (marker c) = false) lines ->
  includes (join lines) (marker c) = false.
Proof.
  intros H. destruct (includes (join lines) (marker c)) eqn:E; [|reflexivity].
  apply includes_join in E; [| apply marker_no_LF | apply marker_not_nil].
  apply List.Exists_exists in E as (l & Hin & Hl).
  rewrite List.Forall_forall in H. rewrite (H l Hin) in Hl. discriminate.
Qed.

Lemma filter_all {A} (f : A -> bool) (l : list A) :
  Forall (fun x => f x = true) l -> List.filter f l = l.
Proof.
  induction 1 as [|x l Hx _ IH]; simpl; [reflexivity|]. now rewrite Hx, IH.
Qed.

(** ** removeCurrentLine, for every comment type *)

(** Contents without the marker come back as they are. *)
Lemma removeCurrentLine_unmarked (contents : jsstring) (comment : CommentType) :
  includes contents (marker comment) = false ->
  removeCurrentLine contents comment = contents.
Proof.
  intros H. unfold removeCurrentLine. rewrite filter_all.
  - apply join_split.
  - eapply List.Forall_impl; [| apply (includes_split _ _ H)].
    intros l Hl. simpl in Hl. now rewrite Hl.
Qed.

(** X1: whatever comment type is passed, the output of [removeCurrentLine]
    does not contain its marker, and a second application changes
    nothing. *)
Theorem removeCurrentLine_idempotent (contents : jsstring)
    (comment : CommentType) :
  includes (removeCurrentLine contents comment) (marker comment) = false
  /\ removeCurrentLine (removeCurrentLine contents comment) comment
     = removeCurrentLine contents comment.
Proof.
  pose proof (removeCurrentLine_no_marker contents comment) as H.
  split; [exact H|]. now apply removeCurrentLine_unmarked.
Qed.

(** X2: [removeCurrentLine] changes the contents exactly when they contain
    the marker. *)
Theorem removeCurrentLine_unchanged_iff (contents : jsstring)
    (comment : CommentType) :
  removeCurrentLine contents comment = contents
  <-> includes contents (marker comment) = false.
Proof.
  split.
  - intros H. rewrite <- H. apply removeCurrentLine_no_marker.
  - apply removeCurrentLine_unmarked.
Qed.

(** ** removeNextLine, for every comment type *)

Lemma filteri_from_Forall {A} (P : A -> Prop) (f : A -> Z -> bool) (i : Z)
    (l : list A) :
  (forall x k, f x k = true -> P x) -> Forall P (filteri_from f i l).
Proof.
  intros Hf. revert i. induction l as [|x l IH]; intros i; simpl; [constructor|].
  destruct (f x i) eqn:E; [constructor; [now apply (Hf x i) | apply IH] | apply IH].
Qed.

Lemma filteri_from_sublist {A} (f : A -> Z -> bool) (i : Z) (l : list A) :
  sublist (filteri_from f i l) l.
Proof.
  revert i. induction l as [|x l IH]; intros i; simpl; [constructor|].
  destruct (f x i); constructor; apply IH.
Qed.

(** The lines that [removeNextLine] keeps, as the source computes them. *)
Lemma removeNextLine_kept_no_marker (contents : jsstring)
    (comment : CommentType) :
  includes (removeNextLine contents comment) (marker comment) = false.
Proof.
  unfold removeNextLine, filteri. apply join_no_marker.
  apply filteri_from_Forall. intros line k Hk.
  destruct (k =? 0)%Z.
  - now destruct (includes line (marker comment)).
  - apply andb_true_iff in Hk as [Hk _].
    now destruct (includes line (marker comment)).
Qed.

(** [removeNextLine] selects the lines by the rule, for every comment
    type. *)
Lemma removeNextLine_select (contents : jsstring) (comment : CommentType) :
  removeNextLine contents comment
  = join (selectFrom (keepsLine comment (split contents)) 0 (split contents)).
Proof.
  unfold removeNextLine, filteri. f_equal.
  apply (filteri_from_select _ _ 0).
  intros k line Hk. simpl Nat.add. unfold keepsLine. rewrite Hk.
  destruct k as [|j].
  - simpl. rewrite andb_true_r. now destruct (includes line _).
  - replace (Z.of_nat (S j) =? 0)%Z with false by (symmetry; apply Z.eqb_neq; lia).
    unfold at_index.
    replace (Z.of_nat (S j) - 1 <? 0)%Z with false by (symmetry; apply Z.ltb_ge; lia).
    replace (Z.to_nat (Z.of_nat (S j) - 1)) with j by lia.
    destruct (nth_error (split contents) j) as [prev|] eqn:Hj.
    + now destruct (includes line _), (includes prev _).
    + exfalso. apply nth_error_None in Hj.
      assert (S j < length (split contents)) by (apply nth_error_Some; congruence).
      lia.
Qed.

Lemma selectFrom_all {A} (keep : nat -> bool) (n : nat) (l : list A) :
  (forall k, k < length l -> keep (n + k) = true) -> selectFrom keep n l = l.
Proof.
  revert n. induction l as [|x l IH]; intros n H; simpl; [reflexivity|].
  rewrite <- (Nat.add_0_r n) at 1. rewrite H by (simpl; lia). f_equal.
  apply IH. intros k Hk. replace (S n + k) with (n + S k) by lia.
  apply H. simpl. lia.
Qed.

(** Contents without the marker come back as they are. *)
Lemma removeNextLine_unmarked (contents : jsstring) (comment : CommentType) :
  includes contents (marker comment) = false ->
  removeNextLine contents comment = contents.
Proof.
  intros H. rewrite removeNextLine_select. rewrite selectFrom_all.
  - apply join_split.
  - pose proof (includes_split _ _ H) as Hall.
    rewrite List.Forall_forall in Hall.
    intros k Hk. simpl. unfold keepsLine.
    destruct (nth_error (split contents) k) as [line|] eqn:Hline.
    + rewrite (Hall line (nth_error_In _ _ Hline)). simpl.
      destruct k as [|j]; [reflexivity|].
      destruct (nth_error (split contents) j) as [prev|] eqn:Hprev; [|reflexivity].
      now rewrite (Hall prev (nth_error_In _ _ Hprev)).
    + apply nth_error_None in Hline. lia.
Qed.

(** X3: whatever comment type is passed, the output of [removeNextLine]
    does not contain its marker, its lines are input lines in their
    order, and a second application changes nothing. *)
Theorem removeNextLine_idempotent (contents : jsstring)
    (comment : CommentType) :
  includes (removeNextLine contents comment) (marker comment) = false
  /\ (exists kept, removeNextLine contents comment = join kept
                   /\ sublist kept (split contents))
  /\ removeNextLine (removeNextLine contents comment) comment
     = removeNextLine contents comment.
Proof.
  pose proof (removeNextLine_kept_no_marker contents comment) as H.
  split; [exact H|]. split.
  - eexists. split; [reflexivity|]. apply filteri_from_sublist.
  - now apply removeNextLine_unmarked.
Qed.

(** X4: [removeNextLine] changes the contents exactly when they contain the
    marker. *)
Theorem removeNextLine_unchanged_iff (contents : jsstring)
    (comment : CommentType) :
  removeNextLine contents comment = contents
  <-> includes contents (marker comment) = false.
Proof.
  split.
  - intros H. rewrite <- H. apply removeNextLine_kept_no_marker.
  - apply removeNextLine_unmarked.
Qed.

(** ** removeBlock: one call, termination, result *)

Lemma firstLineWith_range (c : CommentType) (lines : list jsstring) :
  firstLineWith c lines = (-1)%Z
  \/ (0 <= firstLineWith c lines < Z.of_nat (length lines))%Z.
Proof.
  unfold firstLineWith, findIndex.
  destruct (findIndex_from_range (fun line => includes line (marker c)) 0 lines)
    as [H | H]; [now left | right; lia].
Qed.

(** A call whose first start line is not after its first end line: the
    lines from the one to the other are deleted, whatever lies between. *)
Lemma removeBlock_body_first (recurse : jsstring -> option jsstring)
    (contents : jsstring) (comment : blockComment) :
  (0 <= firstLineWith (start comment) (split contents)
     <= firstLineWith (end_ comment) (split contents))%Z ->
  removeBlock_body recurse contents comment
  = if hasPair comment
         (withoutRange (firstLineWith (start comment) (split contents))
            (firstLineWith (end_ comment) (split contents)) (split contents))
    then recurse (join (withoutRange
                          (firstLineWith (start comment) (split contents))
                          (firstLineWith (end_ comment) (split contents))
                          (split contents)))
    else Some (join (withoutRange
                       (firstLineWith (start comment) (split contents))
                       (firstLineWith (end_ comment) (split contents))
                       (split contents))).
Proof.
  intros H. rewrite removeBlock_body_eq. cbv zeta.
  set (s := firstLineWith (start comment) (split contents)) in *.
  set (e := firstLineWith (end_ comment) (split contents)) in *.
  assert (He : (e < Z.of_nat (length (split contents)))%Z).
  { destruct (firstLineWith_range (end_ comment) (split contents)) as [Hr | Hr];
      fold e in Hr; lia. }
  replace (negb (s =? -1)%Z && negb (e =? -1)%Z) with true
    by (symmetry; apply andb_true_iff; split; apply negb_true_iff, Z.eqb_neq; lia).
  assert (Hsp : splice (split contents) s (e - s + 1)
                = withoutRange s e (split contents)).
  { unfold splice, withoutRange.
    replace (s <? 0)%Z with false by (symmetry; apply Z.ltb_ge; lia).
    rewrite (Z.min_l s) by lia. rewrite (Z.max_l (e - s + 1)) by lia.
    rewrite Z.min_l by lia.
    replace (s + (e - s + 1))%Z with (Z.succ e) by lia.
    rewrite Z2Nat.inj_succ by lia. reflexivity. }
  rewrite Hsp. reflexivity.
Qed.

Lemma withoutRange_length {A} (s e : Z) (lines : list A) :
  (0 <= s <= e)%Z -> (e < Z.of_nat (length lines))%Z ->
  length (withoutRange s e lines) < length lines.
Proof.
  intros Hs He. unfold withoutRange.
  rewrite length_app, length_firstn, length_skipn. lia.
Qed.

Lemma take_drop_sublist {A} (a b : nat) (l : list A) :
  a <= b -> sublist (firstn a l ++ skipn b l) l.
Proof.
  intros Hab. rewrite <- (firstn_skipn a l) at 3.
  apply sublist_app; [reflexivity|].
  replace b with ((b - a) + a) by lia. rewrite <- skipn_skipn.
  apply sublist_drop.
Qed.

Lemma splice_sublist {A} (arr : list A) (s n : Z) : sublist (splice arr s n) arr.
Proof.
  unfold splice. cbv zeta. apply take_drop_sublist.
  destruct (Z.ltb_spec s 0); lia.
Qed.

Lemma sublist_Forall_sub {A} (P : A -> Prop) (l1 l2 : list A) :
  sublist l1 l2 -> Forall P l2 -> Forall P l1.
Proof.
  induction 1 as [| x l1 l2 _ IH | x l1 l2 _ IH]; intros H.
  - constructor.
  - inversion H; subst. constructor; auto.
  - inversion H; subst. auto.
Qed.

Lemma hasPair_nil (comment : blockComment) : hasPair comment [] = false.
Proof. reflexivity. Qed.

Lemma hasPair_empty_line (comment : blockComment) :
  hasPair comment (split (join [])) = false.
Proof.
  unfold hasPair, firstLineWith, findIndex. simpl.
  pose proof (marker_not_nil (start comment)) as Hn.
  destruct (marker (start comment)); [contradiction | reflexivity].
Qed.

(** The lines of a call after its [splice], in every case. *)
Lemma removeBlock_body_lines (recurse : jsstring -> option jsstring)
    (contents : jsstring) (comment : blockComment) :
  exists lines',
    sublist lines' (split contents)
    /\ removeBlock_body recurse contents comment
       = if hasPair comment lines' then recurse (join lines')
         else Some (join lines').
Proof.
  rewrite removeBlock_body_eq. cbv zeta.
  destruct (negb (firstLineWith (start comment) (split contents) =? -1)%Z
            && negb (firstLineWith (end_ comment) (split contents) =? -1)%Z).
  - eexists. split; [apply splice_sublist | reflexivity].
  - eexists. split; [reflexivity | reflexivity].
Qed.

(** X5: the first-occurrence rule of [removeBlock].  When the first line
    with the start marker is not after the first line with the end marker,
    a call deletes the lines from the one to the other, both included and
    whatever lies between (further start markers too), and goes on with
    what is left when that still holds both markers. *)
Theorem removeBlock_first_occurrence_rule (contents : jsstring)
    (comment : blockComment) (fuel : nat) :
  (0 <= firstLineWith (start comment) (split contents)
     <= firstLineWith (end_ comment) (split contents))%Z ->
  length (withoutRange (firstLineWith (start comment) (split contents))
            (firstLineWith (end_ comment) (split contents)) (split contents))
    < length (split contents)
  /\ removeBlock (S fuel) contents comment
     = if hasPair comment
            (withoutRange (firstLineWith (start comment) (split contents))
               (firstLineWith (end_ comment) (split contents)) (split contents))
       then removeBlock fuel
              (join (withoutRange
                       (firstLineWith (start comment) (split contents))
                       (firstLineWith (end_ comment) (split contents))
                       (split contents)))
              comment
       else Some (join (withoutRange
                          (firstLineWith (start comment) (split contents))
                          (firstLineWith (end_ comment) (split contents))
                          (split contents))).
Proof.
  intros H. split.
  - apply withoutRange_length; [exact H|].
    destruct (firstLineWith_range (end_ comment) (split contents)); lia.
  - simpl. now rewrite removeBlock_body_first.
Qed.

(** The rule at nested markers: of the lines [a], START, [b], START, [c],
    END, [d], END the first START up to the first END go, and the second
    END stays behind. *)
Lemma removeBlock_nested_witness :
  length (withoutRange 1 5
            [js "a"; js "// @mst remove-block-start"; js "b";
             js "// @mst remove-block-start"; js "c";
             js "// @mst remove-block-end"; js "d";
             js "// @mst remove-block-end"]) < 8
  /\ removeBlock 1
       (join [js "a"; js "// @mst remove-block-start"; js "b";
              js "// @mst remove-block-start"; js "c";
              js "// @mst remove-block-end"; js "d";
              js "// @mst remove-block-end"])
       defaultBlockComment
     = Some (join [js "a"; js "d"; js "// @mst remove-block-end"]).
Proof.
  apply (removeBlock_first_occurrence_rule
           (join [js "a"; js "// @mst remove-block-start"; js "b";
                  js "// @mst remove-block-start"; js "c";
                  js "// @mst remove-block-end"; js "d";
                  js "// @mst remove-block-end"])
           defaultBlockComment 0).
  vm_compute. split; discriminate.
Defined.

(** On contents of at most [n] lines, [removeBlock] returns within [n]
    calls or at no depth of recursion. *)
Lemma removeBlock_returns_within (comment : blockComment) (n : nat) :
  forall contents, length (split contents) <= n ->
    (exists result,
       forall fuel, n <= fuel -> removeBlock fuel contents comment = Some result)
    \/ (forall fuel, removeBlock fuel contents comment = None).
Proof.
  induction n as [|n IH]; intros contents Hle.
  { pose proof (split_not_nil contents). destruct (split contents);
      [contradiction | simpl in Hle; lia]. }
  destruct (firstLineWith_range (start comment) (split contents)) as [Hs | Hs];
    [| destruct (firstLineWith_range (end_ comment) (split contents)) as [He | He]].
  - left. exists contents. intros [|fuel] Hf; [lia|]. simpl.
    apply removeBlock_body_no_pair. now left.
  - left. exists contents. intros [|fuel] Hf; [lia|]. simpl.
    apply removeBlock_body_no_pair. now right.
  - destruct (Z.lt_ge_cases (firstLineWith (end_ comment) (split contents))
                (firstLineWith (start comment) (split contents))) as [Hlt | Hge].
    + right. intros fuel. induction fuel as [|fuel IHf]; [reflexivity|]. simpl.
      rewrite removeBlock_body_end_first; [exact IHf | lia].
    + set (rest := withoutRange (firstLineWith (start comment) (split contents))
                     (firstLineWith (end_ comment) (split contents))
                     (split contents)).
      assert (Hlen : length rest < length (split contents))
        by (apply withoutRange_length; lia).
      assert (Hbody : forall recurse,
                removeBlock_body recurse contents comment
                = if hasPair comment rest then recurse (join rest)
                  else Some (join rest))
        by (intros recurse; apply removeBlock_body_first; lia).
      destruct (hasPair comment rest) eqn:Hp.
      * assert (Hsplit : split (join rest) = rest).
        { apply split_join.
          - intros Hnil. rewrite Hnil in Hp. discriminate.
          - apply (sublist_Forall_sub _ rest (split contents));
              [| apply split_no_LF].
            unfold rest, withoutRange. apply take_drop_sublist. lia. }
        destruct (IH (join rest)) as [[result Hres] | Hnever].
        { rewrite Hsplit. lia. }
        -- left. exists result. intros [|fuel] Hf; [lia|]. simpl.
           rewrite Hbody. apply Hres. lia.
        -- right. intros [|fuel]; [reflexivity|]. simpl. rewrite Hbody.
           apply Hnever.
      * left. exists (join rest). intros [|fuel] Hf; [lia|]. simpl.
        now rewrite Hbody.
Qed.

(** X6: [removeBlock] returns within as many calls as the contents have
    lines, or it returns at no depth of recursion. *)
Theorem removeBlock_returns_or_never (contents : jsstring)
    (comment : blockComment) :
  (exists result,
     forall fuel, length (split contents) <= fuel ->
       removeBlock fuel contents comment = Some result)
  \/ (forall fuel, removeBlock fuel contents comment = None).
Proof.
  apply (removeBlock_returns_within comment (length (split contents))). lia.
Qed.

(** X7: what [removeBlock] returns.  Whenever a call returns, the result is
    the join of input lines in their order, at least one of the two block
    markers is on none of its lines, and a further [removeBlock] returns it
    unchanged. *)
Theorem removeBlock_result (comment : blockComment) (fuel : nat) :
  forall contents result : jsstring,
    removeBlock fuel contents comment = Some result ->
    (exists lines', result = join lines' /\ sublist lines' (split contents))
    /\ hasPair comment (split result) = false
    /\ (forall fuel', removeBlock (S fuel') result comment = Some result).
Proof.
  induction fuel as [|fuel IH]; intros contents result H; [discriminate|].
  simpl in H.
  destruct (removeBlock_body_lines (fun c => removeBlock fuel c comment)
              contents comment) as (lines' & Hsub & Hbody).
  rewrite Hbody in H. clear Hbody.
  assert (HLF : Forall (fun l => ~ In LF l) lines')
    by (apply (sublist_Forall_sub _ _ _ Hsub), split_no_LF).
  destruct (hasPair comment lines') eqn:Hp.
  - assert (Hsplit : split (join lines') = lines').
    { apply split_join; [| exact HLF].
      intros Hnil. rewrite Hnil in Hp. discriminate. }
    destruct (IH _ _ H) as ((l2 & Hr & Hsub2) & Hno & Hidem).
    split; [| now split].
    exists l2. split; [exact Hr|]. rewrite Hsplit in Hsub2.
    now transitivity lines'.
  - injection H as <-.
    assert (Hno : hasPair comment (split (join lines')) = false).
    { destruct lines' as [|l ls]; [apply hasPair_empty_line|].
      rewrite split_join; [exact Hp | discriminate | exact HLF]. }
    split; [now exists lines'|]. split; [exact Hno|].
    intros fuel'. simpl. apply removeBlock_body_no_pair.
    unfold hasPair in Hno. apply andb_false_iff in Hno as [Hno | Hno];
      apply negb_false_iff, Z.eqb_eq in Hno; [now left | now right].
Qed.

(** The result [x], [z] of the five lines [x], START, [y], END, [z]. *)
Lemma removeBlock_result_witness :
  (exists lines',
     join [js "x"; js "z"] = join lines'
     /\ sublist lines'
          (split (join [js "x"; js "// @mst remove-block-start"; js "y";
                        js "// @mst remove-block-end"; js "z"])))
  /\ hasPair defaultBlockComment (split (join [js "x"; js "z"])) = false
  /\ (forall fuel',
        removeBlock (S fuel') (join [js "x"; js "z"]) defaultBlockComment
        = Some (join [js "x"; js "z"])).
Proof.
  apply (removeBlock_result defaultBlockComment 2
           (join [js "x"; js "// @mst remove-block-start"; js "y";
                  js "// @mst remove-block-end"; js "z"])
           (join [js "x"; js "z"])).
  vm_compute. reflexivity.
Defined.

(** ** Captures and the length of a match *)

Lemma capturedTotal_app (cap : captures) (l1 l2 : list nat) :
  capturedTotal cap (l1 ++ l2) = capturedTotal cap l1 + capturedTotal cap l2.
Proof. induction l1 as [|k l1 IH]; simpl; [reflexivity | rewrite IH; lia]. Qed.

Lemma capturedTotal_ext (cap1 cap2 : captures) (ks : list nat) :
  (forall k, In k ks -> cap1 k = cap2 k) ->
  capturedTotal cap1 ks = capturedTotal cap2 ks.
Proof.
  induction ks as [|k ks IH]; intros H; simpl; [reflexivity|].
  unfold capturedLength. rewrite (H k) by now left.
  rewrite IH; [reflexivity|]. intros j Hj. apply H. now right.
Qed.

Lemma capturedTotal_clear (cap : captures) (ks : list nat) :
  capturedTotal (clearCaptures ks cap) ks = 0.
Proof.
  assert (H : forall l, (forall k, In k l -> In k ks) ->
                capturedTotal (clearCaptures ks cap) l = 0).
  { induction l as [|k l IH]; intros Hl; simpl; [reflexivity|].
    rewrite IH by (intros j Hj; apply Hl; now right).
    unfold capturedLength, clearCaptures.
    replace (existsb (Nat.eqb k) ks) with true; [reflexivity|].
    symmetry. apply existsb_exists. exists k. split; [apply Hl; now left|].
    apply Nat.eqb_refl. }
  apply H. auto.
Qed.

Lemma capturedTotal_noCaptures (ks : list nat) :
  capturedTotal noCaptures ks = 0.
Proof. induction ks as [|k ks IH]; [reflexivity | exact IH]. Qed.

Lemma clearCaptures_other (cap : captures) (ks : list nat) (k : nat) :
  ~ In k ks -> clearCaptures ks cap k = cap k.
Proof.
  intros Hk. unfold clearCaptures.
  destruct (existsb (Nat.eqb k) ks) eqn:E; [|reflexivity].
  exfalso. apply existsb_exists in E as (j & Hj & Hkj).
  apply Nat.eqb_eq in Hkj as ->. contradiction.
Qed.

Lemma disjointGroups_spec (l1 l2 : list nat) (k : nat) :
  disjointGroups l1 l2 = true -> In k l1 -> ~ In k l2.
Proof.
  intros H Hk Hk2. unfold disjointGroups in H. rewrite forallb_forall in H.
  specialize (H k Hk). apply negb_true_iff in H.
  assert (E : existsb (Nat.eqb k) l2 = true)
    by (apply existsb_exists; exists k; split; [exact Hk2 | apply Nat.eqb_refl]).
  congruence.
Qed.


Lemma repeatMatcher_handsOver (r1 : regex) (c : continuation) :
  (forall x cap d z, matcher r1 x cap d = Some z -> handsOver r1 x cap d z) ->
  forall fuel x cap z,
    repeatMatcher (matcher r1) (clearCaptures (groups r1)) c fuel x cap = Some z ->
    handsOver (Star r1) x cap c z.
Proof.
  intros IH1. induction fuel as [|fuel IH]; intros x cap z H; [discriminate|].
  simpl in H.
  destruct (matcher r1 x (clearCaptures (groups r1) cap) _) as [z'|] eqn:Hm.
  - injection H as ->.
    apply IH1 in Hm as (m1 & y1 & cap1 & Hx & Hd & Hf1 & Hb1).
    destruct (Nat.eqb (length y1) (length x)); [discriminate|].
    apply IH in Hd as (m2 & y & cap' & Hy & Hc & Hf2 & Hb2).
    cbn [groups slack] in Hf2, Hb2.
    rewrite capturedTotal_clear in Hb1.
    exists (m1 ++ m2), y, cap'. cbn [groups slack].
    split; [rewrite Hx, Hy; now rewrite app_assoc|].
    split; [exact Hc|]. split.
    + intros k Hk. rewrite (Hf2 k Hk), (Hf1 k Hk).
      now apply clearCaptures_other.
    + rewrite length_app. lia.
  - exists [], x, cap. cbn [groups slack length].
    split; [reflexivity|]. split; [exact H|]. split; [reflexivity | lia].
Qed.

(** The captures that the matcher leaves: groups outside the pattern keep
    their captures, and the captured texts and the characters that the
    pattern needs outside its groups fit into the match. *)
Lemma matcher_handsOver (r : regex) :
  wellGrouped r = true ->
  forall x cap c z, matcher r x cap c = Some z -> handsOver r x cap c z.
Proof.
  induction r as [| a | p | r1 IH1 r2 IH2 | r1 IH1 r2 IH2 | r1 IH1 | r1 IH1
                  | r1 IH1 | n r1 IH1]; intros Hwg x cap c z H.
  - simpl in H. exists [], x, cap. simpl. repeat split; [exact H | lia].
  - simpl in H. destruct x as [|b y]; [discriminate|].
    destruct (N.eqb_spec b a) as [->|]; [|discriminate].
    exists [a], y, cap. simpl. repeat split; [exact H | lia].
  - simpl in H. destruct x as [|b y]; [discriminate|].
    destruct (p b) eqn:Hp; [|discriminate].
    exists [b], y, cap. simpl. repeat split; [exact H | lia].
  - cbn [wellGrouped] in Hwg.
    apply andb_prop in Hwg as [Hwg Hd21]. apply andb_prop in Hwg as [Hwg Hd12].
    apply andb_prop in Hwg as [Hwg1 Hwg2].
    simpl in H. apply (IH1 Hwg1) in H as (m1 & y1 & cap1 & Hx & H & Hf1 & Hb1).
    apply (IH2 Hwg2) in H as (m2 & y & cap' & Hy & H & Hf2 & Hb2).
    exists (m1 ++ m2), y, cap'. cbn [groups slack].
    split; [rewrite Hx, Hy; now rewrite app_assoc|].
    split; [exact H|]. split.
    + intros k Hk. rewrite Hf2, Hf1; [reflexivity | |];
        intros Hin; apply Hk, in_or_app; tauto.
    + rewrite !capturedTotal_app, length_app.
      rewrite (capturedTotal_ext cap' cap1 (groups r1))
        by (intros k Hk; apply Hf2; now apply (disjointGroups_spec _ _ _ Hd12)).
      rewrite (capturedTotal_ext cap1 cap (groups r2)) in Hb2
        by (intros k Hk; apply Hf1; now apply (disjointGroups_spec _ _ _ Hd21)).
      lia.
  - cbn [wellGrouped] in Hwg.
    apply andb_prop in Hwg as [Hwg Hd21]. apply andb_prop in Hwg as [Hwg Hd12].
    apply andb_prop in Hwg as [Hwg1 Hwg2].
    simpl in H. destruct (matcher r1 x cap c) as [z'|] eqn:H1.
    + injection H as ->.
      apply (IH1 Hwg1) in H1 as (m & y & cap' & Hx & Hc & Hf & Hb).
      exists m, y, cap'. cbn [groups slack].
      split; [exact Hx|]. split; [exact Hc|]. split.
      * intros k Hk. apply Hf. intros Hin; apply Hk, in_or_app; tauto.
      * rewrite !capturedTotal_app.
        rewrite (capturedTotal_ext cap' cap (groups r2))
          by (intros k Hk; apply Hf; now apply (disjointGroups_spec _ _ _ Hd21)).
        lia.
    + apply (IH2 Hwg2) in H as (m & y & cap' & Hx & Hc & Hf & Hb).
      exists m, y, cap'. cbn [groups slack].
      split; [exact Hx|]. split; [exact Hc|]. split.
      * intros k Hk. apply Hf. intros Hin; apply Hk, in_or_app; tauto.
      * rewrite !capturedTotal_app.
        rewrite (capturedTotal_ext cap' cap (groups r1))
          by (intros k Hk; apply Hf; now apply (disjointGroups_spec _ _ _ Hd12)).
        lia.
  - cbn [wellGrouped] in Hwg.
    change (repeatMatcher (matcher r1) (clearCaptures (groups r1)) c
              (S (length x)) x cap = Some z) in H.
    eapply repeatMatcher_handsOver; [exact (IH1 Hwg) | exact H].
  - cbn [wellGrouped] in Hwg.
    change (matcher r1 x (clearCaptures (groups r1) cap)
              (fun y cap' =>
                 repeatMatcher (matcher r1) (clearCaptures (groups r1)) c
                   (S (length y)) y cap') = Some z) in H.
    apply (IH1 Hwg) in H as (m1 & y1 & cap1 & Hx & H & Hf1 & Hb1).
    apply (repeatMatcher_handsOver r1 c (IH1 Hwg)) in H
      as (m2 & y & cap' & Hy & H & Hf2 & Hb2).
    cbn [groups slack] in Hf2, Hb2.
    rewrite capturedTotal_clear in Hb1.
    exists (m1 ++ m2), y, cap'. cbn [groups slack].
    split; [rewrite Hx, Hy; now rewrite app_assoc|].
    split; [exact H|]. split.
    + intros k Hk. rewrite (Hf2 k Hk), (Hf1 k Hk).
      now apply clearCaptures_other.
    + rewrite length_app. lia.
  - cbn [wellGrouped] in Hwg.
    simpl in H. destruct (matcher r1 x _ _) as [z'|] eqn:H1.
    + injection H as ->.
      apply (IH1 Hwg) in H1 as (m & y & cap' & Hx & Hc & Hf & Hb).
      destruct (Nat.eqb (length y) (length x)); [discriminate|].
      rewrite capturedTotal_clear in Hb.
      exists m, y, cap'. cbn [groups slack].
      split; [exact Hx|]. split; [exact Hc|]. split.
      * intros k Hk. rewrite (Hf k Hk). now apply clearCaptures_other.
      * lia.
    + exists [], x, cap. cbn [groups slack length].
      split; [reflexivity|]. split; [exact H|]. split; [reflexivity | lia].
  - cbn [wellGrouped] in Hwg.
    destruct (groups r1) as [|g gs] eqn:Hg; [|discriminate].
    assert (Hwg1 : wellGrouped r1 = true).
    { clear -Hg. induction r1; cbn [wellGrouped groups] in *;
        try reflexivity; try discriminate; auto.
      - apply app_eq_nil in Hg as [H1 H2]. rewrite IHr1_1, IHr1_2 by assumption.
        now rewrite H1, H2.
      - apply app_eq_nil in Hg as [H1 H2]. rewrite IHr1_1, IHr1_2 by assumption.
        now rewrite H1, H2. }
    simpl in H. apply (IH1 Hwg1) in H as (m & y & cap' & Hx & Hc & Hf & Hb).
    exists m, y, (setCapture n (firstn (length x - length y) x) cap').
    cbn [groups slack]. rewrite Hg.
    split; [exact Hx|]. split; [exact Hc|]. split.
    + intros k Hk. unfold setCapture.
      destruct (Nat.eqb_spec k n) as [->|Hkn]; [exfalso; apply Hk; now left|].
      apply Hf. rewrite Hg. intros [].
    + rewrite Hg in Hb. cbn [capturedTotal] in *.
      unfold capturedLength at 1, setCapture at 1.
      rewrite Nat.eqb_refl, (firstn_match _ _ _ Hx). lia.
Qed.

(** The captures of a match found by [exec], and the characters that the
    pattern needs outside its groups, fit into the matched text. *)
Lemma exec_captures (r : regex) (s : jsstring) (e : execResult) :
  wellGrouped r = true -> exec r s = Some e ->
  capturedTotal (caps e) (groups r) + slack r <= length (matched e).
Proof.
  intros Hwg. revert e. induction s as [|ch0 s IH]; intros e H;
    rewrite exec_eq in H;
    destruct (matcher r _ noCaptures _) as [[y cap]|] eqn:E; try discriminate.
  - injection H as <-. cbn [caps matched].
    apply (matcher_handsOver r Hwg) in E as (m & y' & cap' & Hs & Hk & _ & Hb).
    injection Hk as -> ->.
    apply eq_sym, app_eq_nil in Hs as [-> ->].
    rewrite capturedTotal_noCaptures in Hb. lia.
  - injection H as <-. cbn [caps matched].
    apply (matcher_handsOver r Hwg) in E as (m & y' & cap' & Hs & Hk & _ & Hb).
    injection Hk as -> ->.
    change (S (length s)) with (length (ch0 :: s)).
    rewrite (firstn_match _ _ _ Hs).
    rewrite capturedTotal_noCaptures in Hb. lia.
  - destruct (exec r s) as [e'|] eqn:Es; [|discriminate].
    injection H as <-. cbn [caps matched]. now apply IH.
Qed.

(** ** patchMSTObserverBlock: termination and result *)

(** A replacement that is shorter than every match shortens the input. *)
Lemma replace_loop_length (r : regex) (tmpl : list replacementItem) :
  (forall s e, exec r s = Some e ->
     length (getSubstitution tmpl (caps e)) < length (matched e)) ->
  forall fuel s, length (replace_loop fuel r tmpl s) <= length s.
Proof.
  intros Hshort. induction fuel as [|fuel IH]; intros s; [reflexivity|].
  simpl. destruct (exec r s) as [e|] eqn:E; [|reflexivity].
  pose proof (Hshort _ _ E) as Hlt.
  apply exec_some in E as (Hs & _ & _).
  assert (Hlen : length s = length (before e) + length (matched e)
                            + length (after e)).
  { rewrite Hs at 1. rewrite !length_app. lia. }
  destruct (matched e) as [|m0 m]; [simpl in Hlt; lia|].
  rewrite !length_app. pose proof (IH (after e)). lia.
Qed.

Lemma replace_length_lt (r : regex) (tmpl : list replacementItem)
    (s : jsstring) :
  (forall s e, exec r s = Some e ->
     length (getSubstitution tmpl (caps e)) < length (matched e)) ->
  hasMatch r s = true -> length (replace s r tmpl) < length s.
Proof.
  intros Hshort Hm. unfold replace, hasMatch in *. simpl.
  destruct (exec r s) as [e|] eqn:E; [|discriminate].
  pose proof (Hshort _ _ E) as Hlt.
  apply exec_some in E as (Hs & _ & _).
  assert (Hlen : length s = length (before e) + length (matched e)
                            + length (after e)).
  { rewrite Hs at 1. rewrite !length_app. lia. }
  destruct (matched e) as [|m0 m]; [simpl in Hlt; lia|].
  rewrite !length_app.
  pose proof (replace_loop_length r tmpl Hshort (length s) (after e)). lia.
Qed.

Lemma replace_length_le (r : regex) (tmpl : list replacementItem)
    (s : jsstring) :
  (forall s e, exec r s = Some e ->
     length (getSubstitution tmpl (caps e)) < length (matched e)) ->
  length (replace s r tmpl) <= length s.
Proof. intros Hshort. now apply replace_loop_length. Qed.

(** The replacement of the start pattern is shorter than the match: the
    match holds its captures and 53 characters more, the replacement the
    captures 1, 2, 3 and 5 and 12 characters more. *)
Lemma startBlockReplacement_shorter (s : jsstring) (e : execResult) :
  exec startBlockRegex s = Some e ->
  length (getSubstitution startBlockReplacement (caps e)) < length (matched e).
Proof.
  intros E. apply exec_captures in E; [|reflexivity].
  change (groups startBlockRegex) with [1; 2; 3; 4; 5] in E.
  change (slack startBlockRegex) with 53 in E.
  unfold startBlockReplacement. cbn [getSubstitution capturedTotal] in *.
  unfold capturedLength in E.
  destruct (caps e 1), (caps e 2), (caps e 3), (caps e 4), (caps e 5);
    rewrite ?length_app; cbn [length js] in *; rewrite ?length_app;
    simpl length; lia.
Qed.

Lemma endBlockReplacement_shorter (s : jsstring) (e : execResult) :
  exec endBlockRegex s = Some e ->
  length (getSubstitution endBlockReplacement (caps e)) < length (matched e).
Proof.
  intros E. apply exec_captures in E; [|reflexivity].
  change (slack endBlockRegex) with 27 in E.
  simpl. lia.
Qed.

Lemma patchMSTObserverBlock_body_eq (recurse : jsstring -> option jsstring)
    (contents : jsstring) :
  patchMSTObserverBlock_body recurse contents
  = if hasObserverBlock contents
    then
      let updateContents :=
        replace (replace contents startBlockRegex startBlockReplacement)
          endBlockRegex endBlockReplacement in
      if hasObserverBlock updateContents then recurse updateContents
      else Some updateContents
    else Some contents.
Proof.
  unfold patchMSTObserverBlock_body, hasObserverBlock.
  destruct (hasMatch startBlockRegex contents && hasMatch endBlockRegex contents);
    reflexivity.
Qed.

(** One round of [patchMSTObserverBlock] on contents with an observer block
    shortens them. *)
Lemma patchMSTObserverBlock_round_shortens (contents : jsstring) :
  hasObserverBlock contents = true ->
  length (replace (replace contents startBlockRegex startBlockReplacement)
            endBlockRegex endBlockReplacement) < length contents.
Proof.
  intros H. apply andb_prop in H as [Hs _].
  pose proof (replace_length_lt startBlockRegex startBlockReplacement contents
                startBlockReplacement_shorter Hs).
  pose proof (replace_length_le endBlockRegex endBlockReplacement
                (replace contents startBlockRegex startBlockReplacement)
                endBlockReplacement_shorter).
  lia.
Qed.

Lemma patchMSTObserverBlock_returns_aux (n : nat) :
  forall contents, length contents < n ->
    exists result,
      (forall fuel, length contents < fuel ->
         patchMSTObserverBlock fuel contents = Some result)
      /\ hasObserverBlock result = false
      /\ (if hasObserverBlock contents then length result < length contents
          else result = contents).
Proof.
  induction n as [|n IH]; intros contents Hn; [lia|].
  destruct (hasObserverBlock contents) eqn:Hb.
  - pose proof (patchMSTObserverBlock_round_shortens contents Hb) as Hlt.
    set (u := replace (replace contents startBlockRegex startBlockReplacement)
                endBlockRegex endBlockReplacement) in *.
    destruct (hasObserverBlock u) eqn:Hu.
    + destruct (IH u ltac:(lia)) as (result & Hres & Hpost & Hlen).
      rewrite Hu in Hlen.
      exists result. split; [| split; [exact Hpost | lia]].
      intros [|fuel] Hf; [lia|]. simpl.
      rewrite patchMSTObserverBlock_body_eq, Hb. cbv zeta. fold u. rewrite Hu.
      apply Hres. lia.
    + exists u. split; [| split; [exact Hu | exact Hlt]].
      intros [|fuel] Hf; [lia|]. simpl.
      rewrite patchMSTObserverBlock_body_eq, Hb. cbv zeta. fold u.
      now rewrite Hu.
  - exists contents. split; [| split; [exact Hb | reflexivity]].
    intros [|fuel] Hf; [lia|]. simpl.
    now rewrite patchMSTObserverBlock_body_eq, Hb.
Qed.

(** X8. [patchMSTObserverBlock] returns on every input, unlike [removeBlock]:
    a recursion depth above the length of the contents is never used up.
    The result has no observer block left; it is the contents themselves
    when they have no observer block, and shorter than the contents when
    they have one. *)
Theorem patchMSTObserverBlock_returns (contents : jsstring) :
  exists result,
    (forall fuel, length contents < fuel ->
       patchMSTObserverBlock fuel contents = Some result)
    /\ hasObserverBlock result = false
    /\ (if hasObserverBlock contents then length result < length contents
        else result = contents).
Proof. apply (patchMSTObserverBlock_returns_aux (S (length contents))). lia. Qed.

(** ** The markers that the observer patterns need *)

Lemma hasMatch_includes (r : regex) (pat s : jsstring) :
  (forall m, matches r m -> includes m pat = true) ->
  hasMatch r s = true -> includes s pat = true.
Proof.
  intros Hr H. unfold hasMatch in H.
  destruct (exec r s) as [e|] eqn:E; [|discriminate].
  apply exec_some in E as (Hs & Hm & _).
  apply Hr, includes_spec in Hm as (a & b & Hab).
  apply includes_spec. exists (before e ++ a), (b ++ after e).
  rewrite Hs, Hab. list_assoc.
Qed.

Lemma startBlockRegex_match_includes (m : jsstring) :
  matches startBlockRegex m ->
  includes m (marker OBSERVER_BLOCK_START) = true.
Proof.
  unfold startBlockRegex. cbn [Concat]. intros H.
  apply matches_Seq_iff in H as (s1 & x1 & -> & _ & H).
  apply matches_Seq_iff in H as (s2 & x2 & -> & _ & H).
  apply matches_Seq_iff in H as (s3 & x3 & -> & H & _).
  apply matches_Lit_iff in H as ->.
  apply includes_spec. exists (s1 ++ s2), x3. list_assoc.
Qed.

Lemma endBlockRegex_match_includes (m : jsstring) :
  matches endBlockRegex m ->
  includes m (marker OBSERVER_BLOCK_END) = true.
Proof.
  unfold endBlockRegex. cbn [Concat]. intros H.
  apply matches_Seq_iff in H as (s1 & x1 & -> & _ & H).
  apply matches_Seq_iff in H as (s2 & x2 & -> & _ & H).
  apply matches_Seq_iff in H as (s3 & x3 & -> & _ & H).
  apply matches_Seq_iff in H as (s4 & x4 & -> & _ & H).
  apply matches_Seq_iff in H as (s5 & x5 & -> & _ & H).
  apply matches_Lit_iff in H as ->.
  apply includes_spec. exists (s1 ++ s2 ++ s3 ++ s4 ++ s5), []. list_assoc.
Qed.

(** Contents without one of the two observer markers have no observer
    block. *)
Lemma hasObserverBlock_markers (contents : jsstring) :
  hasObserverBlock contents = true ->
  includes contents (marker OBSERVER_BLOCK_START) = true
  /\ includes contents (marker OBSERVER_BLOCK_END) = true.
Proof.
  intros H. apply andb_prop in H as [Hs He]. split.
  - exact (hasMatch_includes _ _ _ startBlockRegex_match_includes Hs).
  - exact (hasMatch_includes _ _ _ endBlockRegex_match_includes He).
Qed.

Lemma patchMSTObserverBlock_unmarked (contents : jsstring) (fuel : nat) :
  includes contents (marker OBSERVER_BLOCK_START) = false
  \/ includes contents (marker OBSERVER_BLOCK_END) = false ->
  patchMSTObserverBlock (S fuel) contents = Some contents.
Proof.
  intros H. simpl. rewrite patchMSTObserverBlock_body_eq.
  destruct (hasObserverBlock contents) eqn:Hb; [|reflexivity].
  apply hasObserverBlock_markers in Hb as [Hs He].
  destruct H as [H | H]; congruence.
Qed.

(** X9: [patchMSTObserverBlock] rewrites nothing unless the contents hold
    both observer markers: without the start marker or without the end
    marker the contents come back as they are, whatever else they hold. *)
Theorem patchMSTObserverBlock_needs_both_markers (contents : jsstring)
    (fuel : nat) :
  includes contents (marker OBSERVER_BLOCK_START) = false
  \/ includes contents (marker OBSERVER_BLOCK_END) = false ->
  patchMSTObserverBlock (S fuel) contents = Some contents
  /\ hasObserverBlock contents = false.
Proof.
  intros H. split; [now apply patchMSTObserverBlock_unmarked|].
  destruct (hasObserverBlock contents) eqn:Hb; [|reflexivity].
  apply hasObserverBlock_markers in Hb as [Hs He].
  destruct H as [H | H]; congruence.
Qed.

(** An observer component whose end marker is missing stays as it is. *)
Lemma patchMSTObserverBlock_start_only_witness :
  patchMSTObserverBlock 1
    (join [js "// @mst observer-block-start";
           js "export const Foo = observer(function Foo(props) {";
           js "  return null";
           js "})"])
  = Some (join [js "// @mst observer-block-start";
                js "export const Foo = observer(function Foo(props) {";
                js "  return null";
                js "})"])
  /\ hasObserverBlock
       (join [js "// @mst observer-block-start";
              js "export const Foo = observer(function Foo(props) {";
              js "  return null";
              js "})"]) = false.
Proof.
  apply (patchMSTObserverBlock_needs_both_markers
           (join [js "// @mst observer-block-start";
                  js "export const Foo = observer(function Foo(props) {";
                  js "  return null";
                  js "})"]) 0).
  right. vm_compute. reflexivity.
Defined.

(** ** remove *)

Lemma includes_firstLineWith (c : CommentType) (contents : jsstring) :
  includes contents (marker c) = false ->
  firstLineWith c (split contents) = (-1)%Z.
Proof. intros H. apply firstLineWith_none. now apply includes_split. Qed.

(** X10: [remove] returns the contents as they are when they hold no
    remove-current-line marker, no remove-next-line marker, at most one of
    the two remove-block markers and at most one of the two observer
    markers. *)
Theorem remove_unmarked (contents : jsstring) (fuel : nat) :
  includes contents (marker REMOVE_CURRENT_LINE) = false ->
  includes contents (marker REMOVE_NEXT_LINE) = false ->
  includes contents (marker REMOVE_BLOCK_START) = false
  \/ includes contents (marker REMOVE_BLOCK_END) = false ->
  includes contents (marker OBSERVER_BLOCK_START) = false
  \/ includes contents (marker OBSERVER_BLOCK_END) = false ->
  remove (S fuel) contents = Some contents.
Proof.
  intros Hc Hn Hb Ho. unfold remove.
  rewrite (removeCurrentLine_unmarked _ _ Hc), (removeNextLine_unmarked _ _ Hn).
  assert (Hrb : removeBlock (S fuel) contents defaultBlockComment = Some contents).
  { simpl. apply removeBlock_body_no_pair.
    destruct Hb as [Hb | Hb]; [left | right];
      now apply (includes_firstLineWith _ _ Hb). }
  rewrite Hrb. now apply patchMSTObserverBlock_unmarked.
Qed.

(** Contents with a remove-file directive, a lone block start and a lone
    observer end come back from [remove] as they are. *)
Lemma remove_unmarked_witness :
  remove 1
    (join [js "// @mst remove-file";
           js "// @mst remove-block-start";
           js "const x = 1 // @mst observer-block-end"])
  = Some (join [js "// @mst remove-file";
                js "// @mst remove-block-start";
                js "const x = 1 // @mst observer-block-end"]).
Proof.
  apply (remove_unmarked
           (join [js "// @mst remove-file";
                  js "// @mst remove-block-start";
                  js "const x = 1 // @mst observer-block-end"]) 0).
  - vm_compute. reflexivity.
  - vm_compute. reflexivity.
  - right. vm_compute. reflexivity.
  - left. vm_compute. reflexivity.
Defined.

(** X11: [remove] returns from some depth of recursion on, with a result
    that has no observer block, or it returns at no depth; it returns at no
    depth exactly when its [removeBlock] call does not return. *)
Theorem remove_returns_or_never (contents : jsstring) :
  (exists depth result,
     (forall fuel, depth <= fuel -> remove fuel contents = Some result)
     /\ hasObserverBlock result = false)
  \/ ((forall fuel, remove fuel contents = None)
      /\ (forall fuel,
            removeBlock fuel
              (removeNextLine (removeCurrentLine contents REMOVE_CURRENT_LINE)
                 REMOVE_NEXT_LINE)
              defaultBlockComment = None)).
Proof.
  unfold remove.
  set (c2 := removeNextLine (removeCurrentLine contents REMOVE_CURRENT_LINE)
               REMOVE_NEXT_LINE).
  destruct (removeBlock_returns_within defaultBlockComment
              (length (split c2)) c2 (le_n _)) as [[r Hr] | Hnever].
  - left.
    destruct (patchMSTObserverBlock_returns_aux (S (length r)) r (le_n _))
      as (result & Hres & Hpost & _).
    exists (Nat.max (length (split c2)) (S (length r))), result.
    split; [|exact Hpost].
    intros fuel Hf. rewrite Hr by lia. apply Hres. lia.
  - right. split; [|exact Hnever].
    intros fuel. now rewrite Hnever.
Qed.

(** ** sanitize: what changes, and a comment at the end of a line *)

Lemma mstMarkupRegex_replacement_shorter (s : jsstring) (e : execResult) :
  exec mstMarkupRegex s = Some e ->
  length (getSubstitution [] (caps e)) < length (matched e).
Proof.
  intros E. apply exec_some in E as (_ & Hm & _).
  apply mstMarkupRegex_match_not_nil in Hm.
  destruct (matched e); [contradiction | simpl; lia].
Qed.

(** X12: [sanitize] never lengthens the contents, it changes them exactly
    when the directive pattern has a match in them, and contents without
    [@mst] come back as they are. *)
Theorem sanitize_changes_iff_match (contents : jsstring) :
  length (sanitize contents) <= length contents
  /\ (sanitize contents = contents <-> hasMatch mstMarkupRegex contents = false)
  /\ (includes contents (js "@mst") = false -> sanitize contents = contents).
Proof.
  assert (Hno : hasMatch mstMarkupRegex contents = false ->
                sanitize contents = contents).
  { unfold sanitize, replace, hasMatch. simpl.
    destruct (exec mstMarkupRegex contents); [discriminate | reflexivity]. }
  split; [apply replace_length_le, mstMarkupRegex_replacement_shorter|].
  split; [split; [|exact Hno] |].
  - intros Heq. destruct (hasMatch mstMarkupRegex contents) eqn:Hm; [|reflexivity].
    pose proof (replace_length_lt mstMarkupRegex [] contents
                  mstMarkupRegex_replacement_shorter Hm) as Hlt.
    unfold sanitize in Heq. rewrite Heq in Hlt. lia.
  - intros Hinc. apply Hno.
    destruct (hasMatch mstMarkupRegex contents) eqn:Hm; [|reflexivity].
    apply (hasMatch_includes _ (js "@mst") _ mstMarkupRegex_match_includes) in Hm.
    congruence.
Qed.

(** A literal matches itself and hands the rest to the continuation. *)
Lemma matcher_Lit (s : jsstring) :
  forall y cap c, matcher (Lit s) (s ++ y) cap c = c y cap.
Proof.
  induction s as [|a s IH]; intros y cap c; [reflexivity|].
  destruct s as [|b s].
  - cbn [Lit matcher app]. now rewrite N.eqb_refl.
  - change (Lit (a :: b :: s)) with (Seq (Char a) (Lit (b :: s))).
    change ((a :: b :: s) ++ y) with (a :: (b :: s) ++ y).
    cbn [matcher]. rewrite N.eqb_refl. apply IH.
Qed.

(** A starred class is greedy: when the continuation succeeds after the
    longest run of characters of the class, that is the match. *)
Lemma repeatMatcher_Class_greedy (p : codeunit -> bool) (c : continuation)
    (z : jsstring * captures) (y : jsstring) :
  match y with [] => True | b :: _ => p b = false end ->
  forall w fuel cap,
    forallb p w = true -> c y cap = Some z -> length (w ++ y) < fuel ->
    repeatMatcher (matcher (Class p)) (clearCaptures []) c fuel (w ++ y) cap
    = Some z.
Proof.
  intros Hy. induction w as [|a w IH]; intros fuel cap Hw Hc Hf;
    (destruct fuel as [|fuel]; [lia|]).
  - simpl. destruct y as [|b y']; simpl; [exact Hc | rewrite Hy; exact Hc].
  - simpl in Hw. apply andb_prop in Hw as [Ha Hw].
    change (repeatMatcher (matcher (Class p)) (clearCaptures []) c (S fuel)
              ((a :: w) ++ y) cap)
      with (match matcher (Class p) (a :: w ++ y) (clearCaptures [] cap)
                    (fun y0 cap' =>
                       if Nat.eqb (length y0) (length (a :: w ++ y)) then None
                       else repeatMatcher (matcher (Class p)) (clearCaptures [])
                              c fuel y0 cap')
            with Some z0 => Some z0 | None => c (a :: w ++ y) cap end).
    cbn [matcher]. rewrite Ha.
    replace (Nat.eqb (length (w ++ y)) (length (a :: w ++ y))) with false
      by (symmetry; apply Nat.eqb_neq; simpl; lia).
    rewrite IH; [reflexivity | exact Hw | exact Hc | simpl in Hf; lia].
Qed.

Lemma matcher_Star_Class_greedy (p : codeunit -> bool) (c : continuation)
    (z : jsstring * captures) (w y : jsstring) (cap : captures) :
  match y with [] => True | b :: _ => p b = false end ->
  forallb p w = true -> c y cap = Some z ->
  matcher (Star (Class p)) (w ++ y) cap c = Some z.
Proof.
  intros Hy Hw Hc.
  change (repeatMatcher (matcher (Class p)) (clearCaptures []) c
            (S (length (w ++ y))) (w ++ y) cap = Some z).
  apply repeatMatcher_Class_greedy; [exact Hy | exact Hw | exact Hc | lia].
Qed.

(** After the opener: whitespace, [@mst] and the rest of the line. *)
Lemma directiveTail_matcher (ws tail rest : jsstring) (cap : captures) :
  forallb whitespace ws = true -> forallb dot tail = true ->
  atLineEnd rest = true ->
  matcher (Seq (Star (Class whitespace))
             (Seq (Lit (js "@mst")) (Star (Class dot))))
    (ws ++ js "@mst" ++ tail ++ rest) cap (fun y cap' => Some (y, cap'))
  = Some (rest, cap).
Proof.
  intros Hws Htail Hrest. cbn [matcher].
  apply matcher_Star_Class_greedy; [reflexivity | exact Hws |].
  rewrite matcher_Lit.
  apply matcher_Star_Class_greedy; [| exact Htail | reflexivity].
  destruct rest as [|b rest']; [exact I|].
  simpl in Hrest. unfold dot. now rewrite Hrest.
Qed.

(** The directive pattern matches a comment of the first form up to the
    end of its line. *)
Lemma mstMarkupRegex_at_comment (opener ws tail rest : jsstring) :
  opener = js "//" \/ opener = js "#" ->
  forallb whitespace ws = true -> forallb dot tail = true ->
  atLineEnd rest = true ->
  exists cap,
    matcher mstMarkupRegex (opener ++ ws ++ js "@mst" ++ tail ++ rest)
      noCaptures (fun y cap' => Some (y, cap'))
    = Some (rest, cap).
Proof.
  intros Ho Hws Htail Hrest.
  pose proof (fun cap => directiveTail_matcher ws tail rest cap Hws Htail Hrest)
    as Hrun.
  cbn [matcher] in Hrun.
  unfold mstMarkupRegex. cbn [Concat].
  set (x := ws ++ js "@mst" ++ tail ++ rest) in *.
  destruct Ho as [-> | ->].
  - eexists. cbn [matcher]. rewrite matcher_Lit. rewrite Hrun. reflexivity.
  - eexists. change (js "#" ++ x) with (ch "#" :: x).
    cbn [matcher].
    change (matcher (Lit (js "//")) (ch "#" :: x) noCaptures _)
      with (@None (jsstring * captures)).
    cbn [matcher]. rewrite N.eqb_refl. rewrite Hrun. reflexivity.
Qed.

(** [exec] skips the positions where no match starts. *)
Lemma exec_skip (r : regex) (x y : jsstring) (cap : captures) :
  matcher r x noCaptures (fun y cap' => Some (y, cap')) = Some (y, cap) ->
  forall code,
    (forall a b, code = a ++ b -> b <> [] -> ~ matchAt r (b ++ x)) ->
    exists e,
      exec r (code ++ x) = Some e
      /\ before e = code
      /\ matched e = firstn (length x - length y) x
      /\ after e = y.
Proof.
  intros Hx. induction code as [|a code IH]; intros Hno.
  - eexists. rewrite exec_eq. cbn [app]. rewrite Hx.
    split; [reflexivity|]. repeat split.
  - destruct IH as (e & He & Hb & Hm & Ha).
    { intros a0 b -> Hb. apply (Hno (a :: a0) b); [reflexivity | exact Hb]. }
    eexists. rewrite exec_eq.
    destruct (matcher r ((a :: code) ++ x) noCaptures _) as [[y' cap']|] eqn:E.
    + exfalso. apply (Hno [] (a :: code) eq_refl); [discriminate|].
      apply matcher_some_match in E as (m & Hs & Hmm). now exists m, y'.
    + cbn [app]. rewrite He. split; [reflexivity|].
      cbn [before matched after]. rewrite Hb. repeat split; assumption.
Qed.

(** In text without [/] and [#] that does not end in a brace, followed by
    whatever, no match of the directive pattern starts. *)
Lemma mstMarkupRegex_no_match_in_code (code x : jsstring) :
  forallb opensNoComment code = true -> List.last code 0%N <> ch "{" ->
  forall a b, code = a ++ b -> b <> [] -> ~ matchAt mstMarkupRegex (b ++ x).
Proof.
  intros Hcode Hlast a b -> Hb (m & rest & Hm & Hmatch).
  rewrite forallb_app in Hcode. apply andb_prop in Hcode as [_ Hcode].
  destruct b as [|c0 b]; [contradiction|]. clear Hb.
  cbn [forallb] in Hcode. apply andb_prop in Hcode as [Hc0 Hcode].
  unfold opensNoComment in Hc0. apply andb_prop in Hc0 as [Hslash Hhash].
  apply negb_true_iff, N.eqb_neq in Hslash, Hhash.
  assert (Hstart : exists m', m = ch "/" :: m' \/ m = ch "#" :: m'
                              \/ m = ch "{" :: ch "/" :: m').
  { apply matches_mstMarkupRegex in Hmatch
      as [(opener & ws & tail & -> & [-> | ->] & _)
         | (lbrace & mid & tail & rbrace & -> & [-> | ->] & _)].
    - change (js "//") with [ch "/"; ch "/"]. eexists. left. reflexivity.
    - change (js "#") with [ch "#"]. eexists. right. left. reflexivity.
    - change (js "/") with [ch "/"]. eexists. left. reflexivity.
    - change (js "{") with [ch "{"]. change (js "/") with [ch "/"].
      eexists. right. right. reflexivity. }
  destruct Hstart as (m' & [-> | [-> | ->]]); cbn [app] in Hm;
    injection Hm as Hhead Hm; try contradiction.
  destruct b as [|c1 b].
  - apply Hlast. rewrite List.last_last. exact Hhead.
  - cbn [app] in Hm. injection Hm as Hhead1 _.
    cbn [forallb] in Hcode. apply andb_prop in Hcode as [Hc1 _].
    unfold opensNoComment in Hc1. apply andb_prop in Hc1 as [Hslash1 _].
    apply negb_true_iff, N.eqb_neq in Hslash1. contradiction.
Qed.

(** X13: a directive comment at the end of a line.  When the text before a
    comment [// @mst ...] or [# @mst ...] holds no [/] and no [#] and does
    not end in a brace, and the comment runs to the end of its line,
    [sanitize] deletes the comment from its opener to the end of the line,
    keeps the text before it and the line terminator, and goes on with
    the rest. *)
Theorem sanitize_strips_trailing_comment
    (code opener ws tail rest : jsstring) :
  forallb opensNoComment code = true -> List.last code 0%N <> ch "{" ->
  opener = js "//" \/ opener = js "#" ->
  forallb whitespace ws = true -> forallb dot tail = true ->
  atLineEnd rest = true ->
  sanitize (code ++ opener ++ ws ++ js "@mst" ++ tail ++ rest)
  = code ++ sanitize rest.
Proof.
  intros Hcode Hlast Ho Hws Htail Hrest.
  destruct (mstMarkupRegex_at_comment opener ws tail rest Ho Hws Htail Hrest)
    as (cap & Hx).
  destruct (exec_skip _ _ _ _ Hx code
              (mstMarkupRegex_no_match_in_code code _ Hcode Hlast))
    as (e & He & Hb & Hm & Ha).
  assert (Hmatched : matched e = opener ++ ws ++ js "@mst" ++ tail).
  { rewrite Hm. apply firstn_match. list_assoc. }
  unfold sanitize, replace.
  set (s := code ++ opener ++ ws ++ js "@mst" ++ tail ++ rest) in *.
  assert (Hlen : length rest < length s).
  { unfold s. rewrite !length_app. destruct Ho as [-> | ->]; simpl; lia. }
  rewrite (replace_loop_fuel mstMarkupRegex [] (S (length rest)) (length s) rest)
    by lia.
  cbn [replace_loop]. rewrite He, Hb, Ha, Hmatched. cbn [getSubstitution app].
  assert (Hne : exists o0 o', opener ++ ws ++ js "@mst" ++ tail = o0 :: o').
  { destruct Ho as [-> | ->]; simpl; eauto. }
  destruct Hne as (o0 & o' & ->). reflexivity.
Qed.

(** The line [const a = 1 // @mst remove-current-line] before a second
    line. *)
Lemma sanitize_trailing_comment_witness :
  sanitize (js "const a = 1 " ++ js "//" ++ js " " ++ js "@mst"
            ++ js " remove-current-line" ++ LF :: js "const b = 2")
  = js "const a = 1 " ++ sanitize (LF :: js "const b = 2").
Proof.
  apply (sanitize_strips_trailing_comment (js "const a = 1 ") (js "//")
           (js " ") (js " remove-current-line") (LF :: js "const b = 2")).
  - vm_compute. reflexivity.
  - vm_compute. discriminate.
  - left. reflexivity.
  - vm_compute. reflexivity.
  - vm_compute. reflexivity.
  - vm_compute. reflexivity.
Defined.

(** ** sanitize: a comment of the second form *)

(** A starred class followed by a continuation [c]: the run of the class
    is scanned from its end backwards, and the first position where [c]
    succeeds gives the result. *)
Lemma repeatMatcher_Class_scan (p : codeunit -> bool) (c : continuation)
    (y : jsstring) (cap : captures) :
  match y with [] => True | b :: _ => p b = false end ->
  forall w fuel,
    forallb p w = true -> length (w ++ y) < fuel ->
    (repeatMatcher (matcher (Class p)) (clearCaptures []) c fuel (w ++ y) cap
       = None
     /\ forall u v, w = u ++ v -> c (v ++ y) cap = None)
    \/ (exists u v,
          w = u ++ v
          /\ repeatMatcher (matcher (Class p)) (clearCaptures []) c fuel
               (w ++ y) cap = c (v ++ y) cap
          /\ c (v ++ y) cap <> None
          /\ forall u1 u2, v = u1 ++ u2 -> u1 <> [] -> c (u2 ++ y) cap = None).
Proof.
  intros Hy. induction w as [|a w IH]; intros fuel Hw Hf;
    (destruct fuel as [|fuel]; [lia|]).
  - assert (E : repeatMatcher (matcher (Class p)) (clearCaptures []) c (S fuel)
                  ([] ++ y) cap = c y cap).
    { simpl. destruct y as [|b y']; simpl; [reflexivity | now rewrite Hy]. }
    destruct (c y cap) as [z|] eqn:Hc.
    + right. exists [], []. split; [reflexivity|].
      split; [cbn [app] in *; congruence|].
      split; [cbn [app]; congruence|].
      intros u1 u2 H12 Hu1. apply eq_sym, app_eq_nil in H12 as [-> _].
      contradiction.
    + left. split; [exact E|].
      intros u v Huv. apply eq_sym, app_eq_nil in Huv as [-> ->]. exact Hc.
  - simpl in Hw. apply andb_prop in Hw as [Ha Hw].
    assert (E : repeatMatcher (matcher (Class p)) (clearCaptures []) c (S fuel)
                  ((a :: w) ++ y) cap
                = match repeatMatcher (matcher (Class p)) (clearCaptures []) c
                          fuel (w ++ y) cap
                  with Some z => Some z | None => c ((a :: w) ++ y) cap end).
    { change (repeatMatcher (matcher (Class p)) (clearCaptures []) c (S fuel)
                ((a :: w) ++ y) cap)
        with (match matcher (Class p) (a :: w ++ y) (clearCaptures [] cap)
                      (fun y0 cap' =>
                         if Nat.eqb (length y0) (length (a :: w ++ y)) then None
                         else repeatMatcher (matcher (Class p))
                                (clearCaptures []) c fuel y0 cap')
              with Some z0 => Some z0 | None => c (a :: w ++ y) cap end).
      cbn [matcher]. rewrite Ha.
      replace (Nat.eqb (length (w ++ y)) (length (a :: w ++ y))) with false
        by (symmetry; apply Nat.eqb_neq; simpl; lia).
      reflexivity. }
    destruct (IH fuel Hw ltac:(simpl in Hf; lia))
      as [[HR Hall] | (u & v & Hsplit & HR & Hne & Hlater)].
    + rewrite HR in E. destruct (c ((a :: w) ++ y) cap) as [z|] eqn:Hc.
      * right. exists [], (a :: w). split; [reflexivity|].
        split; [now rewrite E, Hc|]. split; [congruence|].
        intros u1 u2 H12 Hu1. destruct u1 as [|b u1]; [contradiction|].
        injection H12 as _ H12. now apply (Hall u1 u2).
      * left. split; [exact E|].
        intros u v Huv. destruct u as [|b u]; simpl in Huv.
        -- now subst v.
        -- injection Huv as _ Huv. now apply (Hall u v).
    + right. exists (a :: u), v. split; [simpl; now rewrite Hsplit|].
      split; [|split; assumption].
      rewrite E, HR. destruct (c (v ++ y) cap); [reflexivity | contradiction].
Qed.

Lemma matcher_Star_Class_scan (p : codeunit -> bool) (c : continuation)
    (w y : jsstring) (cap : captures) :
  match y with [] => True | b :: _ => p b = false end ->
  forallb p w = true ->
  (matcher (Star (Class p)) (w ++ y) cap c = None
   /\ forall u v, w = u ++ v -> c (v ++ y) cap = None)
  \/ (exists u v,
        w = u ++ v
        /\ matcher (Star (Class p)) (w ++ y) cap c = c (v ++ y) cap
        /\ c (v ++ y) cap <> None
        /\ forall u1 u2, v = u1 ++ u2 -> u1 <> [] -> c (u2 ++ y) cap = None).
Proof.
  intros Hy Hw.
  change (matcher (Star (Class p)) (w ++ y) cap c)
    with (repeatMatcher (matcher (Class p)) (clearCaptures []) c
            (S (length (w ++ y))) (w ++ y) cap).
  apply repeatMatcher_Class_scan; [exact Hy | exact Hw | lia].
Qed.

(** A literal fails on an input that does not start with it. *)
Lemma matcher_Lit_miss (s : jsstring) :
  forall x cap c, startsWith x s = false -> matcher (Lit s) x cap c = None.
Proof.
  induction s as [|a s IH]; intros x cap c H; [discriminate|].
  destruct x as [|b x]; cbn [startsWith] in H.
  - destruct s; reflexivity.
  - destruct s as [|a' s].
    + cbn [Lit matcher]. cbn [startsWith] in H. rewrite andb_true_r in H.
      now rewrite H.
    + change (Lit (a :: a' :: s)) with (Seq (Char a) (Lit (a' :: s))).
      cbn [matcher]. destruct (N.eqb b a); [|reflexivity].
      apply IH. exact H.
Qed.

(** The last occurrence of a character splits a text in one way. *)
Lemma last_occurrence_unique {A} (c : A) (a a' b b' : list A) :
  a ++ c :: b = a' ++ c :: b' -> ~ In c b -> ~ In c b' -> b = b'.
Proof.
  revert a'. induction a as [|x a IH]; intros a' H Hb Hb'.
  - destruct a' as [|x' a']; simpl in H.
    + now injection H.
    + injection H as _ H. exfalso. apply Hb. rewrite H.
      apply in_or_app. right. now left.
  - destruct a' as [|x' a']; simpl in H.
    + injection H as _ H. exfalso. apply Hb'. rewrite <- H.
      apply in_or_app. right. now left.
    + injection H as _ H. now apply (IH a').
Qed.

(** A run of line characters, at the end of its line, that starts a text
    which also starts with [s]: [s] lies within the run. *)
Lemma line_prefix (s : jsstring) :
  forallb dot s = true ->
  forall v y t,
    atLineEnd y = true -> v ++ y = s ++ t ->
    exists tv, v = s ++ tv /\ t = tv ++ y.
Proof.
  induction s as [|a s IH]; intros Hs v y t Hy H.
  - exists v. split; [reflexivity | symmetry; exact H].
  - simpl in Hs. apply andb_prop in Hs as [Ha Hs].
    destruct v as [|b v]; simpl in H.
    + subst y. simpl in Hy. unfold dot in Ha. rewrite Hy in Ha. discriminate.
    + injection H as -> H. destruct (IH Hs v y t Hy H) as (tv & -> & ->).
      now exists tv.
Qed.

(** The end of the second form, [/] and an optional brace. *)
Lemma closer_some (t : jsstring) (cap : captures) :
  matcher (Seq (Char (ch "/")) (Opt (Char (ch "}")))) (ch "/" :: t) cap
    (fun y cap' => Some (y, cap')) <> None.
Proof.
  cbn [matcher]. rewrite N.eqb_refl.
  destruct t as [|b t']; [discriminate|].
  destruct (N.eqb b (ch "}")); [|discriminate].
  destruct (Nat.eqb _ _); discriminate.
Qed.

Lemma closer_none (x : jsstring) (cap : captures) :
  match x with [] => True | b :: _ => b <> ch "/" end ->
  matcher (Seq (Char (ch "/")) (Opt (Char (ch "}")))) x cap
    (fun y cap' => Some (y, cap')) = None.
Proof.
  intros H. destruct x as [|b x]; cbn [matcher]; [reflexivity|].
  destruct (N.eqb_spec b (ch "/")); [contradiction | reflexivity].
Qed.

Lemma closer_rbrace (rbrace rest : jsstring) (cap : captures) :
  rbrace = js "}" \/ (rbrace = [] /\ startsWith rest (js "}") = false) ->
  matcher (Seq (Char (ch "/")) (Opt (Char (ch "}")))) (ch "/" :: rbrace ++ rest)
    cap (fun y cap' => Some (y, cap'))
  = Some (rest, cap).
Proof.
  intros [-> | [-> Hsw]].
  - change (js "}" ++ rest) with (ch "}" :: rest).
    cbn [matcher]. rewrite !N.eqb_refl.
    replace (Nat.eqb (length rest) (length (ch "}" :: rest))) with false
      by (symmetry; apply Nat.eqb_neq; simpl; lia).
    reflexivity.
  - cbn [app matcher]. rewrite N.eqb_refl.
    destruct rest as [|b rest']; [reflexivity|].
    change (js "}") with [ch "}"] in Hsw. cbn [startsWith] in Hsw.
    rewrite andb_true_r in Hsw. now rewrite Hsw.
Qed.

Lemma atLineEnd_stops_dot (y : jsstring) :
  atLineEnd y = true -> match y with [] => True | b :: _ => dot b = false end.
Proof.
  intros H. destruct y as [|b y]; [exact I|].
  simpl in H. unfold dot. now rewrite H.
Qed.

Lemma atLineEnd_no_slash (y : jsstring) :
  atLineEnd y = true -> match y with [] => True | b :: _ => b <> ch "/" end.
Proof.
  intros H. destruct y as [|b y]; [exact I|].
  intros ->. discriminate H.
Qed.

(** The second [.*] of the second form, before the end of the line [y]: it
    stops before the last [/] of the line. *)
Lemma closerStar_value (tv y : jsstring) (cap : captures) :
  forallb dot tv = true -> atLineEnd y = true ->
  (matcher (Star (Class dot)) (tv ++ y) cap
     (fun y1 cap1 =>
        matcher (Seq (Char (ch "/")) (Opt (Char (ch "}")))) y1 cap1
          (fun y cap' => Some (y, cap'))) = None
   /\ ~ In (ch "/") tv)
  \/ (exists a b,
        tv = a ++ ch "/" :: b /\ ~ In (ch "/") b
        /\ matcher (Star (Class dot)) (tv ++ y) cap
             (fun y1 cap1 =>
                matcher (Seq (Char (ch "/")) (Opt (Char (ch "}")))) y1 cap1
                  (fun y cap' => Some (y, cap')))
           = matcher (Seq (Char (ch "/")) (Opt (Char (ch "}"))))
               (ch "/" :: b ++ y) cap (fun y cap' => Some (y, cap'))).
Proof.
  intros Htv Hy.
  destruct (matcher_Star_Class_scan dot
              (fun y1 cap1 =>
                 matcher (Seq (Char (ch "/")) (Opt (Char (ch "}")))) y1 cap1
                   (fun y cap' => Some (y, cap')))
              tv y cap (atLineEnd_stops_dot y Hy) Htv)
    as [[HR Hall] | (u & v & Hsplit & HR & Hne & Hlater)].
  - left. split; [exact HR|]. intros Hin.
    apply in_split in Hin as (l1 & l2 & ->).
    specialize (Hall l1 (ch "/" :: l2) eq_refl). cbv beta in Hall.
    revert Hall. apply (closer_some (l2 ++ y)).
  - right. cbv beta in Hne, HR, Hlater.
    destruct v as [|c0 v'].
    + exfalso. apply Hne. apply closer_none. cbn [app].
      now apply atLineEnd_no_slash.
    + destruct (N.eq_dec c0 (ch "/")) as [-> | Hc0].
      * exists u, v'. split; [exact Hsplit|]. split; [|exact HR].
        intros Hin. apply in_split in Hin as (l1 & l2 & ->).
        specialize (Hlater (ch "/" :: l1) (ch "/" :: l2) eq_refl).
        revert Hlater. intros Hlater.
        apply (closer_some (l2 ++ y) cap). apply Hlater. discriminate.
      * exfalso. apply Hne. apply closer_none. exact Hc0.
Qed.

(** After the first [.*] of the second form, wherever it stopped in the
    line: the rest of the pattern fails, or it ends the match behind the
    last [/] of the line and its brace. *)
Lemma directiveBody_value (inner rbrace r1 y : jsstring) (cap : captures) :
  forallb dot (inner ++ ch "/" :: rbrace ++ r1) = true ->
  ~ In (ch "/") (rbrace ++ r1) -> atLineEnd y = true ->
  matcher (Seq (Char (ch "/")) (Opt (Char (ch "}"))))
    (ch "/" :: (rbrace ++ r1) ++ y) cap (fun y cap' => Some (y, cap'))
  = Some (r1 ++ y, cap) ->
  forall u v, inner ++ ch "/" :: rbrace ++ r1 = u ++ v ->
    matcher (Seq (Lit (js "@mst"))
               (Seq (Star (Class dot))
                  (Seq (Char (ch "/")) (Opt (Char (ch "}"))))))
      (v ++ y) cap (fun y cap' => Some (y, cap')) = None
    \/ matcher (Seq (Lit (js "@mst"))
                 (Seq (Star (Class dot))
                    (Seq (Char (ch "/")) (Opt (Char (ch "}"))))))
         (v ++ y) cap (fun y cap' => Some (y, cap')) = Some (r1 ++ y, cap).
Proof.
  intros Hdot Hno Hy Hcloser u v Hsplit.
  change (matcher (Seq (Lit (js "@mst"))
                     (Seq (Star (Class dot))
                        (Seq (Char (ch "/")) (Opt (Char (ch "}"))))))
            (v ++ y) cap (fun y cap' => Some (y, cap')))
    with (matcher (Lit (js "@mst")) (v ++ y) cap
            (fun y1 cap1 =>
               matcher (Star (Class dot)) y1 cap1
                 (fun y2 cap2 =>
                    matcher (Seq (Char (ch "/")) (Opt (Char (ch "}")))) y2 cap2
                      (fun y cap' => Some (y, cap'))))).
  destruct (startsWith (v ++ y) (js "@mst")) eqn:Hsw.
  - apply startsWith_app in Hsw as (t & Ht).
    destruct (line_prefix (js "@mst") eq_refl v y t Hy Ht) as (tv & -> & ->).
    rewrite <- app_assoc, matcher_Lit.
    assert (Htv : forallb dot tv = true).
    { rewrite Hsplit in Hdot. rewrite !forallb_app in Hdot.
      apply andb_prop in Hdot as [_ Hdot]. now apply andb_prop in Hdot as [_ Hdot]. }
    destruct (closerStar_value tv y cap Htv Hy)
      as [[-> _] | (a & b & Hab & Hb & ->)]; [now left|].
    right. subst tv.
    assert (Heq : b = rbrace ++ r1).
    { apply (last_occurrence_unique (ch "/") (u ++ js "@mst" ++ a) inner);
        [| exact Hb | exact Hno].
      rewrite Hsplit. list_assoc. }
    subst b. exact Hcloser.
  - left. now apply matcher_Lit_miss.
Qed.

(** The second form of the directive pattern, from behind its first [/]:
    the match ends behind the last [/] of the line and its brace. *)
Lemma inline_from_slash (inner rbrace r1 y : jsstring) (cap : captures) :
  forallb dot inner = true -> includes inner (js "@mst") = true ->
  rbrace = js "}" \/ (rbrace = [] /\ startsWith (r1 ++ y) (js "}") = false) ->
  forallb lineCharNoSlash r1 = true -> atLineEnd y = true ->
  matcher (Seq (Star (Class dot))
             (Seq (Lit (js "@mst"))
                (Seq (Star (Class dot))
                   (Seq (Char (ch "/")) (Opt (Char (ch "}")))))))
    ((inner ++ ch "/" :: rbrace ++ r1) ++ y) cap (fun y cap' => Some (y, cap'))
  = Some (r1 ++ y, cap).
Proof.
  intros Hinner Hinc Hrb Hr1 Hy.
  assert (Hr1dot : forallb dot r1 = true /\ ~ In (ch "/") r1).
  { split.
    - apply forallb_forall. intros c Hc.
      rewrite forallb_forall in Hr1. specialize (Hr1 c Hc).
      unfold lineCharNoSlash in Hr1. now apply andb_prop in Hr1 as [H _].
    - intros Hin. rewrite forallb_forall in Hr1. specialize (Hr1 _ Hin).
      unfold lineCharNoSlash in Hr1. apply andb_prop in Hr1 as [_ H].
      rewrite N.eqb_refl in H. discriminate. }
  destruct Hr1dot as [Hr1dot Hr1no].
  assert (Hrbdot : forallb dot rbrace = true /\ ~ In (ch "/") rbrace).
  { destruct Hrb as [-> | [-> _]]; split; try reflexivity.
    - intros [H | []]. discriminate H.
    - intros []. }
  destruct Hrbdot as [Hrbdot Hrbno].
  assert (Hdot : forallb dot (inner ++ ch "/" :: rbrace ++ r1) = true).
  { rewrite forallb_app. cbn [forallb]. rewrite forallb_app.
    now rewrite Hinner, Hrbdot, Hr1dot. }
  assert (Hno : ~ In (ch "/") (rbrace ++ r1)).
  { intros Hin. apply in_app_or in Hin as [H | H]; contradiction. }
  assert (Hcloser : forall cap',
            matcher (Seq (Char (ch "/")) (Opt (Char (ch "}"))))
              (ch "/" :: (rbrace ++ r1) ++ y) cap' (fun y cap' => Some (y, cap'))
            = Some (r1 ++ y, cap')).
  { intros cap'. rewrite <- app_assoc. now apply closer_rbrace. }
  change (matcher (Star (Class dot))
            ((inner ++ ch "/" :: rbrace ++ r1) ++ y) cap
            (fun y1 cap1 =>
               matcher (Seq (Lit (js "@mst"))
                          (Seq (Star (Class dot))
                             (Seq (Char (ch "/")) (Opt (Char (ch "}"))))))
                 y1 cap1 (fun y cap' => Some (y, cap')))
          = Some (r1 ++ y, cap)).
  destruct (matcher_Star_Class_scan dot
              (fun y1 cap1 =>
                 matcher (Seq (Lit (js "@mst"))
                            (Seq (Star (Class dot))
                               (Seq (Char (ch "/")) (Opt (Char (ch "}"))))))
                   y1 cap1 (fun y cap' => Some (y, cap')))
              (inner ++ ch "/" :: rbrace ++ r1) y cap
              (atLineEnd_stops_dot y Hy) Hdot)
    as [[_ Hall] | (u & v & Hsplit & -> & Hne & _)].
  - exfalso. apply includes_spec in Hinc as (pre & post & Hpp).
    assert (Heq : inner ++ ch "/" :: rbrace ++ r1
                  = pre ++ js "@mst" ++ post ++ ch "/" :: rbrace ++ r1)
      by (rewrite Hpp; list_assoc).
    specialize (Hall pre (js "@mst" ++ post ++ ch "/" :: rbrace ++ r1) Heq).
    cbv beta in Hall.
    assert (Hpost : forallb dot (post ++ ch "/" :: rbrace ++ r1) = true).
    { rewrite Hpp in Hdot. rewrite <- !app_assoc in Hdot.
      rewrite forallb_app in Hdot. apply andb_prop in Hdot as [_ Hdot].
      rewrite forallb_app in Hdot. now apply andb_prop in Hdot as [_ Hdot]. }
    change (matcher (Seq (Lit (js "@mst"))
                       (Seq (Star (Class dot))
                          (Seq (Char (ch "/")) (Opt (Char (ch "}"))))))
              ((js "@mst" ++ post ++ ch "/" :: rbrace ++ r1) ++ y) cap
              (fun y cap' => Some (y, cap')))
      with (matcher (Lit (js "@mst"))
              ((js "@mst" ++ post ++ ch "/" :: rbrace ++ r1) ++ y) cap
              (fun y1 cap1 =>
                 matcher (Star (Class dot)) y1 cap1
                   (fun y2 cap2 =>
                      matcher (Seq (Char (ch "/")) (Opt (Char (ch "}")))) y2
                        cap2 (fun y cap' => Some (y, cap'))))) in Hall.
    rewrite <- app_assoc, matcher_Lit in Hall.
    destruct (closerStar_value (post ++ ch "/" :: rbrace ++ r1) y cap Hpost Hy)
      as [[_ Hnone] | (a & b & _ & _ & HR)].
    + apply Hnone. apply in_or_app. right. now left.
    + rewrite HR in Hall. revert Hall. apply (closer_some (b ++ y)).
  - cbv beta in Hne |- *.
    destruct (directiveBody_value inner rbrace r1 y cap Hdot Hno Hy
                (Hcloser cap) u v Hsplit) as [H | H];
      [contradiction | exact H].
Qed.

Lemma matcher_Opt_Char_hit (a : codeunit) (t : jsstring) (cap : captures)
    (c : continuation) (z : jsstring * captures) :
  c t cap = Some z -> matcher (Opt (Char a)) (a :: t) cap c = Some z.
Proof.
  intros H. cbn [matcher]. rewrite N.eqb_refl.
  replace (Nat.eqb (length t) (length (a :: t))) with false
    by (symmetry; apply Nat.eqb_neq; simpl; lia).
  change (clearCaptures (groups (Char a)) cap) with cap. now rewrite H.
Qed.

Lemma matcher_Opt_Char_miss (a : codeunit) (x : jsstring) (cap : captures)
    (c : continuation) :
  match x with [] => True | b :: _ => b <> a end ->
  matcher (Opt (Char a)) x cap c = c x cap.
Proof.
  intros H. destruct x as [|b x]; cbn [matcher]; [reflexivity|].
  destruct (N.eqb_spec b a); [contradiction | reflexivity].
Qed.

(** The directive pattern matches a comment of the second form up to the
    last [/] of its line and the brace behind it. *)
Lemma mstMarkupRegex_at_inline (lbrace inner rbrace r1 y : jsstring) :
  lbrace = js "{" \/ (lbrace = [] /\ startsWith inner (js "/") = false) ->
  forallb dot inner = true -> includes inner (js "@mst") = true ->
  rbrace = js "}" \/ (rbrace = [] /\ startsWith (r1 ++ y) (js "}") = false) ->
  forallb lineCharNoSlash r1 = true -> atLineEnd y = true ->
  matcher mstMarkupRegex
    (lbrace ++ js "/" ++ inner ++ js "/" ++ rbrace ++ r1 ++ y)
    noCaptures (fun y cap' => Some (y, cap'))
  = Some (r1 ++ y, noCaptures).
Proof.
  intros Hlb Hinner Hinc Hrb Hr1 Hy.
  pose proof (inline_from_slash inner rbrace r1 y noCaptures Hinner Hinc Hrb
                Hr1 Hy) as Hrun.
  rewrite <- app_assoc in Hrun.
  change (js "/" ++ inner ++ js "/" ++ rbrace ++ r1 ++ y)
    with (ch "/" :: inner ++ ch "/" :: rbrace ++ r1 ++ y).
  cbn [app] in Hrun. rewrite <- app_assoc in Hrun.
  set (x := inner ++ ch "/" :: rbrace ++ r1 ++ y) in *.
  unfold mstMarkupRegex. cbn [Concat].
  set (A := Seq (Group 1 (Alt (Lit (js "//")) (Char (ch "#")))) _).
  set (R := Seq (Star (Class dot)) _) in *.
  change (match matcher A (lbrace ++ ch "/" :: x) noCaptures
                  (fun y cap' => Some (y, cap'))
          with
          | Some z => Some z
          | None =>
              matcher (Opt (Char (ch "{"))) (lbrace ++ ch "/" :: x) noCaptures
                (fun y1 cap1 =>
                   matcher (Seq (Char (ch "/")) R) y1 cap1
                     (fun y cap' => Some (y, cap')))
          end = Some (r1 ++ y, noCaptures)).
  assert (Hslash : matcher (Seq (Char (ch "/")) R) (ch "/" :: x) noCaptures
                     (fun y cap' => Some (y, cap'))
                   = Some (r1 ++ y, noCaptures)).
  { cbn [matcher]. rewrite N.eqb_refl. exact Hrun. }
  destruct Hlb as [-> | [-> Hsw]].
  - change (js "{" ++ ch "/" :: x) with (ch "{" :: ch "/" :: x).
    replace (matcher A (ch "{" :: ch "/" :: x) noCaptures
               (fun y cap' => Some (y, cap'))) with (@None (jsstring * captures))
      by reflexivity.
    now apply matcher_Opt_Char_hit.
  - cbn [app].
    assert (HA : matcher A (ch "/" :: x) noCaptures
                   (fun y cap' => Some (y, cap')) = None).
    { unfold x. destruct inner as [|i0 inner']; [discriminate Hinc|].
      change (js "/") with [ch "/"] in Hsw. cbn [startsWith] in Hsw.
      rewrite andb_true_r in Hsw.
      unfold A. change (Lit (js "//")) with (Seq (Char (ch "/")) (Char (ch "/"))).
      cbn [matcher app]. rewrite N.eqb_refl, Hsw. reflexivity. }
    rewrite HA. rewrite matcher_Opt_Char_miss; [exact Hslash|].
    discriminate.
Qed.

(** X14: a directive comment of the second form.  Let the contents before
    the comment hold no [/] and no [#] and not end in a brace; let the
    comment start with a brace and a [/], or with a [/] that no [/] follows
    directly; and let [@mst] stand on the line between that [/] and the
    last [/] of the line.  Then [sanitize] deletes from the first [/] (and
    the brace before it) up to the last [/] of the line (and a brace
    directly behind it), whatever lies between; it keeps the contents
    before the comment and goes on with the text behind that last [/]. *)
Theorem sanitize_strips_inline_comment
    (code lbrace inner rbrace r1 r2 : jsstring) :
  forallb opensNoComment code = true -> List.last code 0%N <> ch "{" ->
  lbrace = js "{" \/ (lbrace = [] /\ startsWith inner (js "/") = false) ->
  forallb dot inner = true -> includes inner (js "@mst") = true ->
  rbrace = js "}" \/ (rbrace = [] /\ startsWith (r1 ++ r2) (js "}") = false) ->
  forallb lineCharNoSlash r1 = true -> atLineEnd r2 = true ->
  sanitize (code ++ lbrace ++ js "/" ++ inner ++ js "/" ++ rbrace ++ r1 ++ r2)
  = code ++ sanitize (r1 ++ r2).
Proof.
  intros Hcode Hlast Hlb Hinner Hinc Hrb Hr1 Hr2.
  pose proof (mstMarkupRegex_at_inline lbrace inner rbrace r1 r2 Hlb Hinner
                Hinc Hrb Hr1 Hr2) as Hx.
  destruct (exec_skip _ _ _ _ Hx code
              (mstMarkupRegex_no_match_in_code code _ Hcode Hlast))
    as (e & He & Hb & Hm & Ha).
  assert (Hmatched : matched e = lbrace ++ js "/" ++ inner ++ js "/" ++ rbrace).
  { rewrite Hm. apply firstn_match. list_assoc. }
  unfold sanitize, replace.
  set (s := code ++ lbrace ++ js "/" ++ inner ++ js "/" ++ rbrace ++ r1 ++ r2)
    in *.
  assert (Hlen : length (r1 ++ r2) < length s).
  { unfold s. rewrite !length_app. simpl. lia. }
  rewrite (replace_loop_fuel mstMarkupRegex [] (S (length (r1 ++ r2)))
             (length s) (r1 ++ r2)) by lia.
  cbn [replace_loop]. rewrite He, Hb, Ha, Hmatched. cbn [getSubstitution app].
  assert (Hne : exists o0 o',
            lbrace ++ js "/" ++ inner ++ js "/" ++ rbrace = o0 :: o').
  { destruct Hlb as [-> | [-> _]]; simpl; eauto. }
  destruct Hne as (o0 & o' & ->). reflexivity.
Qed.

(** The line [{/* @mst remove-current-line */} </View>], indented: the
    deletion runs on to the [/] of the closing tag, and [View>] is what is
    left behind the indentation. *)
Lemma sanitize_inline_comment_witness :
  sanitize (js "  " ++ js "{" ++ js "/"
            ++ js "* @mst remove-current-line */} <" ++ js "/" ++ []
            ++ js "View>" ++ [])
  = js "  " ++ sanitize (js "View>" ++ []).
Proof.
  apply (sanitize_strips_inline_comment (js "  ") (js "{")
           (js "* @mst remove-current-line */} <") [] (js "View>") []).
  - vm_compute. reflexivity.
  - vm_compute. discriminate.
  - left. reflexivity.
  - vm_compute. reflexivity.
  - vm_compute. reflexivity.
  - right. split; [reflexivity | vm_compute; reflexivity].
  - vm_compute. reflexivity.
  - vm_compute. reflexivity.
Defined.


(** ** The matcher on text that leaves no choice *)

Lemma matcher_Seq (r1 r2 : regex) (x : jsstring) (cap : captures)
    (c : continuation) :
  matcher (Seq r1 r2) x cap c
  = matcher r1 x cap (fun y cap' => matcher r2 y cap' c).
Proof. reflexivity. Qed.

Lemma matcher_Char_hit (a : codeunit) (y : jsstring) (cap : captures)
    (c : continuation) :
  matcher (Char a) (a :: y) cap c = c y cap.
Proof. cbn [matcher]. now rewrite N.eqb_refl. Qed.

Lemma matcher_Group (n : nat) (r : regex) (x : jsstring) (cap : captures)
    (c : continuation) :
  matcher (Group n r) x cap c
  = matcher r x cap
      (fun y cap' => c y (setCapture n (firstn (length x - length y) x) cap')).
Proof. reflexivity. Qed.

(** [+] on a class is greedy as [*] is. *)
Lemma matcher_Plus_Class_greedy (p : codeunit -> bool) (c : continuation)
    (z : jsstring * captures) (w y : jsstring) (cap : captures) :
  nonEmpty w = true ->
  match y with [] => True | b :: _ => p b = false end ->
  forallb p w = true -> c y cap = Some z ->
  matcher (Plus (Class p)) (w ++ y) cap c = Some z.
Proof.
  intros Hne Hy Hw Hc. destruct w as [|a w]; [discriminate|].
  simpl in Hw. apply andb_prop in Hw as [Ha Hw].
  change (matcher (Class p) (a :: w ++ y) (clearCaptures [] cap)
            (fun y' cap' =>
               repeatMatcher (matcher (Class p)) (clearCaptures []) c
                 (S (length y')) y' cap') = Some z).
  cbn [matcher]. rewrite Ha.
  apply repeatMatcher_Class_greedy; [exact Hy | exact Hw | exact Hc | lia].
Qed.

(** An optional part that matches, and one that does not. *)
Lemma matcher_Opt_take (r1 : regex) (x : jsstring) (cap : captures)
    (c : continuation) (z : jsstring * captures) :
  matcher r1 x (clearCaptures (groups r1) cap)
    (fun y cap' => if Nat.eqb (length y) (length x) then None else c y cap')
  = Some z ->
  matcher (Opt r1) x cap c = Some z.
Proof.
  intros H.
  change (match matcher r1 x (clearCaptures (groups r1) cap)
                  (fun y cap' =>
                     if Nat.eqb (length y) (length x) then None else c y cap')
          with Some z0 => Some z0 | None => c x cap end = Some z).
  now rewrite H.
Qed.

Lemma matcher_Opt_skip (r1 : regex) (x : jsstring) (cap : captures)
    (c : continuation) :
  matcher r1 x (clearCaptures (groups r1) cap)
    (fun y cap' => if Nat.eqb (length y) (length x) then None else c y cap')
  = None ->
  matcher (Opt r1) x cap c = c x cap.
Proof.
  intros H.
  change (match matcher r1 x (clearCaptures (groups r1) cap)
                  (fun y cap' =>
                     if Nat.eqb (length y) (length x) then None else c y cap')
          with Some z0 => Some z0 | None => c x cap end = c x cap).
  now rewrite H.
Qed.

Lemma length_app_neq {A} (m y : list A) :
  m <> [] -> Nat.eqb (length y) (length (m ++ y)) = false.
Proof.
  intros H. apply Nat.eqb_neq. rewrite length_app.
  destruct m; [contradiction | simpl; lia].
Qed.

Lemma wordchar_range (c : codeunit) :
  wordchar c = true -> (48 <= c <= 122)%N.
Proof.
  unfold wordchar. rewrite !orb_true_iff, !andb_true_iff, !N.leb_le, N.eqb_eq.
  lia.
Qed.

Lemma wordchar_not_whitespace (c : codeunit) :
  wordchar c = true -> whitespace c = false.
Proof.
  intros H. apply wordchar_range in H. unfold whitespace, isLineTerminator.
  repeat match goal with
         | |- context [N.eqb c ?k] =>
             replace (N.eqb c k) with false by (symmetry; apply N.eqb_neq; lia)
         end.
  replace (N.leb 8192 c) with false by (symmetry; apply N.leb_gt; lia).
  reflexivity.
Qed.

Lemma whitespace_not_wordchar (c : codeunit) :
  whitespace c = true -> wordchar c = false.
Proof.
  intros H. destruct (wordchar c) eqn:E; [|reflexivity].
  apply wordchar_not_whitespace in E. congruence.
Qed.

(** [exec] skips the positions where no match starts, and hands on the
    captures of the match that it finds. *)
Lemma exec_skip_caps (r : regex) (x y : jsstring) (cap : captures) :
  matcher r x noCaptures (fun y cap' => Some (y, cap')) = Some (y, cap) ->
  forall code,
    (forall a b, code = a ++ b -> b <> [] -> ~ matchAt r (b ++ x)) ->
    exists e,
      exec r (code ++ x) = Some e
      /\ before e = code
      /\ matched e = firstn (length x - length y) x
      /\ after e = y
      /\ caps e = cap.
Proof.
  intros Hx. induction code as [|a code IH]; intros Hno.
  - eexists. rewrite exec_eq. cbn [app]. rewrite Hx.
    split; [reflexivity|]. repeat split.
  - destruct IH as (e & He & Hb & Hm & Ha & Hc).
    { intros a0 b -> Hb. apply (Hno (a :: a0) b); [reflexivity | exact Hb]. }
    eexists. rewrite exec_eq.
    destruct (matcher r ((a :: code) ++ x) noCaptures _) as [[y' cap']|] eqn:E.
    + exfalso. apply (Hno [] (a :: code) eq_refl); [discriminate|].
      apply matcher_some_match in E as (m & Hs & Hmm). now exists m, y'.
    + cbn [app]. rewrite He. split; [reflexivity|].
      cbn [before matched after caps]. rewrite Hb. repeat split; assumption.
Qed.

Lemma replace_loop_no_match (r : regex) (tmpl : list replacementItem)
    (fuel : nat) (s : jsstring) :
  exec r s = None -> replace_loop fuel r tmpl s = s.
Proof. intros H. destruct fuel; cbn [replace_loop]; [reflexivity | now rewrite H]. Qed.

(** One match in the text and none behind it: [replace] puts the
    replacement in its place. *)
Lemma replace_one (r : regex) (tmpl : list replacementItem)
    (code m y : jsstring) (cap : captures) :
  matcher r (m ++ y) noCaptures (fun y cap' => Some (y, cap')) = Some (y, cap) ->
  m <> [] ->
  (forall a b, code = a ++ b -> b <> [] -> ~ matchAt r (b ++ m ++ y)) ->
  exec r y = None ->
  replace (code ++ m ++ y) r tmpl = code ++ getSubstitution tmpl cap ++ y.
Proof.
  intros Hx Hm Hno Hy.
  destruct (exec_skip_caps _ _ _ _ Hx code Hno) as (e & He & Hb & Hmat & Ha & Hc).
  rewrite (firstn_match (m ++ y) m y eq_refl) in Hmat.
  unfold replace. cbn [replace_loop]. rewrite He, Hb, Ha, Hmat, Hc.
  destruct m as [|m0 m']; [contradiction|].
  now rewrite replace_loop_no_match.
Qed.

(** ** patchMSTObserverBlock: the rewrite of a component *)

(** The start pattern from [\s*=] on: groups 4 and 5. *)
Lemma startBlockRegex_tail (ws2 ws3 ws4 fname params rest : jsstring)
    (cap : captures) :
  forallb whitespace ws2 = true -> forallb whitespace ws3 = true ->
  nonEmpty ws4 = true -> forallb whitespace ws4 = true ->
  nonEmpty fname = true -> forallb wordchar fname = true ->
  forallb notCloseParen params = true ->
  matcher
    (Concat [Star (Class whitespace); Char (ch "="); Star (Class whitespace);
             Lit (js "observer"); Char (ch "("); Lit (js "function");
             Plus (Class whitespace); Group 4 (Plus (Class wordchar));
             Group 5 (Concat [Char (ch "("); Star (Class notCloseParen);
                              Char (ch ")")])])
    (ws2 ++ ch "=" :: ws3 ++ js "observer" ++ ch "(" :: js "function" ++ ws4
     ++ fname ++ ch "(" :: params ++ ch ")" :: rest)
    cap (fun y cap' => Some (y, cap'))
  = Some (rest, setCapture 5 (ch "(" :: params ++ [ch ")"])
                  (setCapture 4 fname cap)).
Proof.
  intros Hws2 Hws3 Hne4 Hws4 Hnef Hf Hp. cbn [Concat].
  destruct fname as [|f0 fname']; [discriminate|].
  assert (Hf0 : whitespace f0 = false).
  { apply wordchar_not_whitespace. simpl in Hf. now apply andb_prop in Hf as [H _]. }
  rewrite matcher_Seq.
  apply matcher_Star_Class_greedy; [exact eq_refl | exact Hws2 |]. cbv beta.
  rewrite matcher_Seq, matcher_Char_hit. cbv beta. rewrite matcher_Seq.
  apply matcher_Star_Class_greedy; [exact eq_refl | exact Hws3 |]. cbv beta.
  rewrite matcher_Seq, matcher_Lit. cbv beta.
  rewrite matcher_Seq, matcher_Char_hit. cbv beta.
  rewrite matcher_Seq, matcher_Lit. cbv beta. rewrite matcher_Seq.
  apply matcher_Plus_Class_greedy; [exact Hne4 | exact Hf0 | exact Hws4 |].
  cbv beta. rewrite matcher_Seq, matcher_Group.
  apply matcher_Plus_Class_greedy; [reflexivity | exact eq_refl | exact Hf |].
  cbv beta. rewrite (firstn_match _ (f0 :: fname') _ eq_refl).
  rewrite matcher_Group, matcher_Seq, matcher_Char_hit. cbv beta.
  rewrite matcher_Seq.
  apply matcher_Star_Class_greedy; [exact eq_refl | exact Hp |]. cbv beta.
  rewrite matcher_Char_hit.
  rewrite (firstn_match _ (ch "(" :: params ++ [ch ")"]) rest);
    [reflexivity|].
  cbn [app]. now rewrite <- app_assoc.
Qed.

(** The same behind a name without annotation: group 3 takes no part. *)
Lemma startBlockRegex_no_annotation
    (ws2 ws3 ws4 fname params rest : jsstring) (cap : captures) :
  forallb whitespace ws2 = true -> forallb whitespace ws3 = true ->
  nonEmpty ws4 = true -> forallb whitespace ws4 = true ->
  nonEmpty fname = true -> forallb wordchar fname = true ->
  forallb notCloseParen params = true ->
  matcher
    (Concat [Opt (Group 3 (Concat [Char (ch ":"); Star (Class whitespace);
                                   Plus (Class annotationChar)]));
             Star (Class whitespace); Char (ch "="); Star (Class whitespace);
             Lit (js "observer"); Char (ch "("); Lit (js "function");
             Plus (Class whitespace); Group 4 (Plus (Class wordchar));
             Group 5 (Concat [Char (ch "("); Star (Class notCloseParen);
                              Char (ch ")")])])
    (ws2 ++ ch "=" :: ws3 ++ js "observer" ++ ch "(" :: js "function" ++ ws4
     ++ fname ++ ch "(" :: params ++ ch ")" :: rest)
    cap (fun y cap' => Some (y, cap'))
  = Some (rest, setCapture 5 (ch "(" :: params ++ [ch ")"])
                  (setCapture 4 fname cap)).
Proof.
  intros Hws2 Hws3 Hne4 Hws4 Hnef Hf Hp.
  change (Concat (?r :: ?rs)) with (Seq r (Concat rs)).
  rewrite matcher_Seq, matcher_Opt_skip.
  - now apply startBlockRegex_tail.
  - cbn [Concat]. rewrite matcher_Group, matcher_Seq.
    destruct ws2 as [|w ws2']; cbn [app matcher]; [reflexivity|].
    destruct (N.eqb_spec w (ch ":")) as [-> | _]; [|reflexivity].
    discriminate Hws2.
Qed.

(** The same behind an annotation: group 3 is the colon, the white space
    and the annotation up to the [=]. *)
Lemma startBlockRegex_annotation
    (wsA ann ws3 ws4 fname params rest : jsstring) (cap : captures) :
  forallb whitespace wsA = true -> forallb annotationChar ann = true ->
  match ann with a :: _ => negb (whitespace a) | [] => false end = true ->
  forallb whitespace ws3 = true ->
  nonEmpty ws4 = true -> forallb whitespace ws4 = true ->
  nonEmpty fname = true -> forallb wordchar fname = true ->
  forallb notCloseParen params = true ->
  matcher
    (Concat [Opt (Group 3 (Concat [Char (ch ":"); Star (Class whitespace);
                                   Plus (Class annotationChar)]));
             Star (Class whitespace); Char (ch "="); Star (Class whitespace);
             Lit (js "observer"); Char (ch "("); Lit (js "function");
             Plus (Class whitespace); Group 4 (Plus (Class wordchar));
             Group 5 (Concat [Char (ch "("); Star (Class notCloseParen);
                              Char (ch ")")])])
    (ch ":" :: wsA ++ ann ++ ch "=" :: ws3 ++ js "observer" ++ ch "("
     :: js "function" ++ ws4 ++ fname ++ ch "(" :: params ++ ch ")" :: rest)
    cap (fun y cap' => Some (y, cap'))
  = Some (rest, setCapture 5 (ch "(" :: params ++ [ch ")"])
                  (setCapture 4 fname
                     (setCapture 3 (ch ":" :: wsA ++ ann)
                        (clearCaptures [3] cap)))).
Proof.
  intros HwsA Hann Ha0 Hws3 Hne4 Hws4 Hnef Hf Hp.
  destruct ann as [|a0 ann']; [discriminate|].
  apply negb_true_iff in Ha0.
  change (Concat (?r :: ?rs)) with (Seq r (Concat rs)).
  rewrite matcher_Seq. apply matcher_Opt_take.
  set (y := ch "=" :: ws3 ++ js "observer" ++ ch "(" :: js "function" ++ ws4
            ++ fname ++ ch "(" :: params ++ ch ")" :: rest).
  set (T := Concat (Star (Class whitespace) :: _)).
  cbn [Concat]. rewrite matcher_Group, matcher_Seq, matcher_Char_hit. cbv beta.
  rewrite matcher_Seq.
  apply matcher_Star_Class_greedy; [exact Ha0 | exact HwsA |]. cbv beta.
  apply matcher_Plus_Class_greedy; [reflexivity | exact eq_refl | exact Hann |].
  cbv beta.
  rewrite (firstn_match _ (ch ":" :: wsA ++ a0 :: ann') y)
    by (cbn [app]; now rewrite <- app_assoc).
  replace (Nat.eqb (length y) (length (ch ":" :: wsA ++ (a0 :: ann') ++ y)))
    with false
    by (symmetry; apply Nat.eqb_neq; cbn [length]; rewrite !length_app; lia).
  apply (startBlockRegex_tail [] ws3 ws4 fname params rest); auto.
Qed.

(** From [const] on: group 2 is the name. *)
Lemma startBlockRegex_name (ws1 name tailText : jsstring) (cap : captures)
    (z : jsstring * captures) :
  nonEmpty ws1 = true -> forallb whitespace ws1 = true ->
  nonEmpty name = true -> forallb wordchar name = true ->
  match tailText with [] => True | b :: _ => wordchar b = false end ->
  matcher
    (Concat [Opt (Group 3 (Concat [Char (ch ":"); Star (Class whitespace);
                                   Plus (Class annotationChar)]));
             Star (Class whitespace); Char (ch "="); Star (Class whitespace);
             Lit (js "observer"); Char (ch "("); Lit (js "function");
             Plus (Class whitespace); Group 4 (Plus (Class wordchar));
             Group 5 (Concat [Char (ch "("); Star (Class notCloseParen);
                              Char (ch ")")])])
    tailText (setCapture 2 name cap) (fun y cap' => Some (y, cap')) = Some z ->
  matcher
    (Concat [Lit (js "const"); Plus (Class whitespace);
             Group 2 (Plus (Class wordchar));
             Opt (Group 3 (Concat [Char (ch ":"); Star (Class whitespace);
                                   Plus (Class annotationChar)]));
             Star (Class whitespace); Char (ch "="); Star (Class whitespace);
             Lit (js "observer"); Char (ch "("); Lit (js "function");
             Plus (Class whitespace); Group 4 (Plus (Class wordchar));
             Group 5 (Concat [Char (ch "("); Star (Class notCloseParen);
                              Char (ch ")")])])
    (js "const" ++ ws1 ++ name ++ tailText) cap (fun y cap' => Some (y, cap'))
  = Some z.
Proof.
  intros Hne1 Hws1 Hnen Hn Hstop Htail.
  destruct name as [|n0 name']; [discriminate|].
  assert (Hn0 : whitespace n0 = false).
  { apply wordchar_not_whitespace. simpl in Hn. now apply andb_prop in Hn as [H _]. }
  change (Concat (?r :: ?rs)) with (Seq r (Concat rs)).
  rewrite matcher_Seq, matcher_Lit. cbv beta.
  change (Concat (?r :: ?rs)) with (Seq r (Concat rs)).
  rewrite matcher_Seq.
  apply matcher_Plus_Class_greedy; [exact Hne1 | exact Hn0 | exact Hws1 |].
  cbv beta.
  change (Concat (?r :: ?rs)) with (Seq r (Concat rs)).
  rewrite matcher_Seq, matcher_Group.
  apply matcher_Plus_Class_greedy; [reflexivity | exact Hstop | exact Hn |].
  cbv beta. rewrite (firstn_match _ (n0 :: name') tailText eq_refl).
  exact Htail.
Qed.

(** A declaration that is not exported: group 1 takes no part. *)
Lemma startBlockRegex_not_exported (r : regex) (tailText : jsstring)
    (cap : captures) (z : jsstring * captures) :
  startsWith tailText (js "export") = false ->
  matcher r tailText cap (fun y cap' => Some (y, cap')) = Some z ->
  matcher
    (Seq (Opt (Group 1 (Seq (Lit (js "export")) (Plus (Class whitespace))))) r)
    tailText cap (fun y cap' => Some (y, cap'))
  = Some z.
Proof.
  intros Hsw Htail. rewrite matcher_Seq, matcher_Opt_skip; [exact Htail|].
  rewrite matcher_Group, matcher_Seq. now apply matcher_Lit_miss.
Qed.

(** An exported declaration: group 1 is [export] and the white space. *)
Lemma startBlockRegex_exported (r : regex) (wsE tailText : jsstring)
    (cap : captures) (z : jsstring * captures) :
  nonEmpty wsE = true -> forallb whitespace wsE = true ->
  match tailText with [] => True | b :: _ => whitespace b = false end ->
  matcher r tailText
    (setCapture 1 (js "export" ++ wsE) (clearCaptures [1] cap))
    (fun y cap' => Some (y, cap')) = Some z ->
  matcher
    (Seq (Opt (Group 1 (Seq (Lit (js "export")) (Plus (Class whitespace))))) r)
    (js "export" ++ wsE ++ tailText) cap (fun y cap' => Some (y, cap'))
  = Some z.
Proof.
  intros Hne Hws Hstop Htail. rewrite matcher_Seq. apply matcher_Opt_take.
  rewrite matcher_Group, matcher_Seq, matcher_Lit. cbv beta.
  apply matcher_Plus_Class_greedy; [exact Hne | exact Hstop | exact Hws |].
  cbv beta.
  rewrite (firstn_match _ (js "export" ++ wsE) tailText)
    by now rewrite <- app_assoc.
  replace (Nat.eqb (length tailText) (length (js "export" ++ wsE ++ tailText)))
    with false
    by (symmetry; apply Nat.eqb_neq; rewrite !length_app; simpl; lia).
  exact Htail.
Qed.

(** The line with the start marker, before the declaration. *)
Lemma startBlockRegex_marker_line (ws0 tailText : jsstring) (cap : captures)
    (z : jsstring * captures) :
  forallb whitespace ws0 = true ->
  matcher
    (Concat [Opt (Group 1 (Seq (Lit (js "export")) (Plus (Class whitespace))));
             Lit (js "const"); Plus (Class whitespace);
             Group 2 (Plus (Class wordchar));
             Opt (Group 3 (Concat [Char (ch ":"); Star (Class whitespace);
                                   Plus (Class annotationChar)]));
             Star (Class whitespace); Char (ch "="); Star (Class whitespace);
             Lit (js "observer"); Char (ch "("); Lit (js "function");
             Plus (Class whitespace); Group 4 (Plus (Class wordchar));
             Group 5 (Concat [Char (ch "("); Star (Class notCloseParen);
                              Char (ch ")")])])
    tailText cap (fun y cap' => Some (y, cap')) = Some z ->
  matcher startBlockRegex
    (js "//" ++ ws0 ++ marker OBSERVER_BLOCK_START ++ LF :: tailText)
    cap (fun y cap' => Some (y, cap'))
  = Some z.
Proof.
  intros Hws0 Htail. unfold startBlockRegex.
  change (Concat (?r :: ?rs)) with (Seq r (Concat rs)).
  rewrite matcher_Seq, matcher_Lit. cbv beta.
  change (Concat (?r :: ?rs)) with (Seq r (Concat rs)).
  rewrite matcher_Seq.
  apply matcher_Star_Class_greedy; [exact eq_refl | exact Hws0 |]. cbv beta.
  change (Concat (?r :: ?rs)) with (Seq r (Concat rs)).
  rewrite matcher_Seq, matcher_Lit. cbv beta.
  change (Concat (?r :: ?rs)) with (Seq r (Concat rs)).
  rewrite matcher_Seq, matcher_Char_hit. cbv beta.
  exact Htail.
Qed.

(** The start pattern on the marker line and a well-formed declaration: the
    match ends behind the parameter list, and the replacement is the arrow
    function of the declaration. *)
Lemma startBlockRegex_at_declaration (ws0 : jsstring)
    (d : observerDeclaration) (rest : jsstring) :
  forallb whitespace ws0 = true -> wellFormedDeclaration d = true ->
  exists cap,
    matcher startBlockRegex
      ((startMarkerLine ws0 ++ declarationText d) ++ rest)
      noCaptures (fun y cap' => Some (y, cap'))
    = Some (rest, cap)
    /\ getSubstitution startBlockReplacement cap = arrowText d.
Proof.
  intros Hws0 Hd. destruct d as [ex ws1 name an ws2 ws3 ws4 fname params].
  unfold wellFormedDeclaration in Hd.
  cbn [od_export od_space1 od_name od_annotation od_space2 od_space3
       od_space4 od_fname od_params] in Hd.
  rewrite !andb_true_iff in Hd.
  destruct Hd as ((((((((((((Hex & Hne1) & Hws1) & Hnen) & Hn) & Han) & Hws2)
                        & Hws3) & Hne4) & Hws4) & Hnef) & Hf) & Hp).
  assert (Hstop : match
                    match an with
                    | Some (ws, ann) => ch ":" :: ws ++ ann
                    | None => []
                    end ++ ws2 ++ ch "=" :: ws3 ++ js "observer" ++ ch "("
                    :: js "function" ++ ws4 ++ fname ++ ch "(" :: params
                    ++ ch ")" :: rest
                  with [] => True | b :: _ => wordchar b = false end).
  { destruct an as [[wsA ann]|]; [exact eq_refl|].
    destruct ws2 as [|w ws2']; [exact eq_refl|].
    apply whitespace_not_wordchar. simpl in Hws2.
    now apply andb_prop in Hws2 as [H _]. }
  replace ((startMarkerLine ws0
            ++ declarationText
                 {| od_export := ex; od_space1 := ws1; od_name := name;
                    od_annotation := an; od_space2 := ws2; od_space3 := ws3;
                    od_space4 := ws4; od_fname := fname;
                    od_params := params |}) ++ rest)
    with (js "//" ++ ws0 ++ marker OBSERVER_BLOCK_START ++ LF
          :: match ex with Some ws => js "export" ++ ws | None => [] end
          ++ js "const" ++ ws1 ++ name
          ++ (match an with
              | Some (ws, ann) => ch ":" :: ws ++ ann
              | None => []
              end ++ ws2 ++ ch "=" :: ws3 ++ js "observer" ++ ch "("
              :: js "function" ++ ws4 ++ fname ++ ch "(" :: params
              ++ ch ")" :: rest))
    by (unfold startMarkerLine, declarationText, exportText, annotationText;
        cbn [od_export od_space1 od_name od_annotation od_space2 od_space3
             od_space4 od_fname od_params];
        destruct ex, an as [[? ?]|]; list_assoc).
  unfold arrowText, exportText, annotationText.
  cbn [od_export od_space1 od_name od_annotation od_space2 od_space3
       od_space4 od_fname od_params].
  destruct ex as [wsE|].
  - apply andb_prop in Hex as [HneE HwsE].
    destruct an as [[wsA ann]|].
    + rewrite !andb_true_iff in Han. destruct Han as (((HwsA & Hann) & Ha0) & He2).
      destruct ws2 as [|? ?]; [|discriminate]. cbn [app].
      eexists. split.
      * apply startBlockRegex_marker_line; [exact Hws0|].
        change (Concat (?r :: ?rs)) with (Seq r (Concat rs)).
        rewrite <- app_assoc.
        apply startBlockRegex_exported; [exact HneE | exact HwsE | exact eq_refl |].
        apply startBlockRegex_name; [exact Hne1 | exact Hws1 | exact Hnen
                                    | exact Hn | exact eq_refl |].
        rewrite <- app_assoc. cbn [app].
        now apply startBlockRegex_annotation.
      * unfold startBlockReplacement. cbn [getSubstitution].
        cbv [setCapture clearCaptures noCaptures existsb Nat.eqb orb].
        list_assoc.
    + eexists. split.
      * apply startBlockRegex_marker_line; [exact Hws0|].
        change (Concat (?r :: ?rs)) with (Seq r (Concat rs)).
        rewrite <- app_assoc.
        apply startBlockRegex_exported; [exact HneE | exact HwsE | exact eq_refl |].
        apply startBlockRegex_name; [exact Hne1 | exact Hws1 | exact Hnen
                                    | exact Hn | exact Hstop |].
        cbn [app]. now apply startBlockRegex_no_annotation.
      * unfold startBlockReplacement. cbn [getSubstitution].
        cbv [setCapture clearCaptures noCaptures existsb Nat.eqb orb].
        list_assoc.
  - destruct an as [[wsA ann]|].
    + rewrite !andb_true_iff in Han. destruct Han as (((HwsA & Hann) & Ha0) & He2).
      destruct ws2 as [|? ?]; [|discriminate]. cbn [app].
      eexists. split.
      * apply startBlockRegex_marker_line; [exact Hws0|].
        change (Concat (?r :: ?rs)) with (Seq r (Concat rs)).
        apply startBlockRegex_not_exported; [reflexivity|].
        apply startBlockRegex_name; [exact Hne1 | exact Hws1 | exact Hnen
                                    | exact Hn | exact eq_refl |].
        rewrite <- app_assoc. cbn [app].
        now apply startBlockRegex_annotation.
      * unfold startBlockReplacement. cbn [getSubstitution].
        cbv [setCapture clearCaptures noCaptures existsb Nat.eqb orb].
        list_assoc.
    + eexists. split.
      * apply startBlockRegex_marker_line; [exact Hws0|].
        change (Concat (?r :: ?rs)) with (Seq r (Concat rs)).
        apply startBlockRegex_not_exported; [reflexivity|].
        apply startBlockRegex_name; [exact Hne1 | exact Hws1 | exact Hnen
                                    | exact Hn | exact Hstop |].
        cbn [app]. now apply startBlockRegex_no_annotation.
      * unfold startBlockReplacement. cbn [getSubstitution].
        cbv [setCapture clearCaptures noCaptures existsb Nat.eqb orb].
        list_assoc.
Qed.

(** The end pattern on the closing text. *)
Lemma endBlockRegex_at_closing (ws1 ws2 post : jsstring) :
  forallb whitespace ws1 = true -> forallb whitespace ws2 = true ->
  matcher endBlockRegex (closingText ws1 ws2 ++ post) noCaptures
    (fun y cap' => Some (y, cap'))
  = Some (post, noCaptures).
Proof.
  intros H1 H2.
  replace (closingText ws1 ws2 ++ post)
    with (ch "}" :: ch ")" :: ws1 ++ js "//" ++ ws2
          ++ marker OBSERVER_BLOCK_END ++ post)
    by (unfold closingText; list_assoc).
  unfold endBlockRegex. cbn [Concat].
  rewrite matcher_Seq, matcher_Char_hit. cbv beta.
  rewrite matcher_Seq, matcher_Char_hit. cbv beta.
  rewrite matcher_Seq.
  apply matcher_Star_Class_greedy; [exact eq_refl | exact H1 |]. cbv beta.
  rewrite matcher_Seq, matcher_Lit. cbv beta. rewrite matcher_Seq.
  apply matcher_Star_Class_greedy; [exact eq_refl | exact H2 |]. cbv beta.
  now rewrite matcher_Lit.
Qed.

(** ** Where no match of an observer pattern can start *)

Lemma first_occurrence_unique {A} (c : A) (l1 l2 r1 r2 : list A) :
  l1 ++ c :: r1 = l2 ++ c :: r2 -> ~ In c l1 -> ~ In c l2 ->
  l1 = l2 /\ r1 = r2.
Proof.
  revert l2. induction l1 as [|x l1 IH]; intros l2 H H1 H2.
  - destruct l2 as [|x2 l2]; simpl in H.
    + injection H as ->. now split.
    + injection H as -> _. exfalso. apply H2. now left.
  - destruct l2 as [|x2 l2]; simpl in H.
    + injection H as -> _. exfalso. apply H1. now left.
    + injection H as -> H. destruct (IH l2 H) as [-> ->].
      * intros Hin. apply H1. now right.
      * intros Hin. apply H2. now right.
      * now split.
Qed.

Lemma in_split_first (c : codeunit) (l : jsstring) :
  In c l -> exists l1 l2, l = l1 ++ c :: l2 /\ ~ In c l1.
Proof.
  induction l as [|x l IH]; intros Hin; [contradiction|].
  destruct (N.eq_dec x c) as [-> | Hne].
  - exists [], l. split; [reflexivity | intros []].
  - destruct Hin as [-> | Hin]; [contradiction|].
    destruct (IH Hin) as (l1 & l2 & -> & Hl1).
    exists (x :: l1), l2. split; [reflexivity|].
    intros [H | H]; [contradiction | now apply Hl1].
Qed.

Lemma whitespace_not_In (c : codeunit) (ws : jsstring) :
  whitespace c = false -> forallb whitespace ws = true -> ~ In c ws.
Proof.
  intros Hc Hws Hin. rewrite forallb_forall in Hws.
  rewrite (Hws c Hin) in Hc. discriminate.
Qed.

(** A text that ends in a token [t0 :: tok'], behind a prefix [pm] without
    [t0] that starts with [d], does not start before another such text
    with prefix [cp], when the token occurs nowhere before that one and the
    two prefixes hold as many [d]. *)
Lemma no_earlier_token (d t0 : codeunit)
    (tok' cp pm b post rest' : jsstring) :
  ~ In d tok' -> ~ In t0 cp -> ~ In t0 pm ->
  (exists cp', cp = d :: cp') -> (exists pm', pm = d :: pm') ->
  count_occ N.eq_dec cp d = count_occ N.eq_dec pm d ->
  b <> [] -> includes b (t0 :: tok') = false ->
  b ++ cp ++ (t0 :: tok') ++ post <> pm ++ (t0 :: tok') ++ rest'.
Proof.
  intros Hd Hcp Hpm (cp' & Ecp) (pm' & Epm) Hcount Hb Hinc H.
  assert (Hnot : forall pre suf, b <> pre ++ (t0 :: tok') ++ suf).
  { intros pre suf E.
    assert (Ht : includes b (t0 :: tok') = true)
      by (apply includes_spec; now exists pre, suf).
    congruence. }
  destruct (in_dec N.eq_dec t0 b) as [Hin | Hnin].
  - apply in_split_first in Hin as (b1 & b2 & Eb & Hb1).
    rewrite Eb in H. rewrite <- app_assoc in H. cbn [app] in H.
    apply first_occurrence_unique in H as [E1 E2]; [| exact Hb1 | exact Hpm].
    apply app_eq_app in E2 as [l [[E3 E4] | [E3 E4]]].
    + apply (Hnot b1 l). rewrite Eb, E3. reflexivity.
    + destruct l as [|l0 l].
      * apply (Hnot b1 []). rewrite Eb. cbn [app].
        rewrite app_nil_r in E3. now rewrite E3, app_nil_r.
      * rewrite Ecp in E4. cbn [app] in E4. injection E4 as <- _.
        apply Hd. rewrite E3. apply in_or_app. right. now left.
  - rewrite app_assoc in H.
    apply first_occurrence_unique in H as [E1 _]; [| | exact Hpm].
    + destruct b as [|b0 b']; [contradiction|].
      rewrite Epm in E1. cbn [app] in E1. injection E1 as -> E1.
      assert (Hc : count_occ N.eq_dec ((d :: b') ++ cp) d
                   = count_occ N.eq_dec pm d)
        by (rewrite Epm; cbn [app]; now rewrite E1).
      rewrite count_occ_app in Hc. cbn [count_occ] in Hc.
      destruct (N.eq_dec d d); [lia | contradiction].
    + intros Hin. apply in_app_or in Hin as [Hin | Hin]; contradiction.
Qed.

Lemma existsb_not_In (c : codeunit) (l : jsstring) :
  existsb (N.eqb c) l = false -> ~ In c l.
Proof.
  intros H Hin.
  assert (E : existsb (N.eqb c) l = true)
    by (apply existsb_exists; exists c; split; [exact Hin | apply N.eqb_refl]).
  congruence.
Qed.

Lemma whitespace_count (c : codeunit) (ws : jsstring) :
  whitespace c = false -> forallb whitespace ws = true ->
  count_occ N.eq_dec ws c = 0.
Proof. intros Hc Hws. apply count_occ_not_In. now apply whitespace_not_In. Qed.

Lemma includes_suffix (code a b tok : jsstring) :
  includes code tok = false -> code = a ++ b -> includes b tok = false.
Proof.
  intros H ->. destruct (includes b tok) eqn:E; [|reflexivity].
  apply includes_spec in E as (pre & suf & ->).
  assert (Ht : includes (a ++ pre ++ tok ++ suf) tok = true)
    by (apply includes_spec; exists (a ++ pre), suf; now rewrite <- app_assoc).
  congruence.
Qed.

(** What a match of the start pattern starts with. *)
Lemma startBlockRegex_match_shape (m : jsstring) :
  matches startBlockRegex m ->
  exists ws t,
    forallb whitespace ws = true
    /\ m = js "//" ++ ws ++ marker OBSERVER_BLOCK_START ++ t.
Proof.
  unfold startBlockRegex. cbn [Concat]. intros H.
  apply matches_Seq_iff in H as (s1 & x1 & -> & H1 & H).
  apply matches_Seq_iff in H as (s2 & x2 & -> & H2 & H).
  apply matches_Seq_iff in H as (s3 & x3 & -> & H3 & _).
  apply matches_Lit_iff in H1 as ->. apply matches_Lit_iff in H3 as ->.
  apply matches_Star_Class_iff in H2. now exists s2, x3.
Qed.

(** What a match of the end pattern is. *)
Lemma endBlockRegex_match_shape (m : jsstring) :
  matches endBlockRegex m ->
  exists ws1 ws2,
    forallb whitespace ws1 = true /\ forallb whitespace ws2 = true
    /\ m = closingText ws1 ws2.
Proof.
  unfold endBlockRegex. cbn [Concat]. intros H.
  apply matches_Seq_iff in H as (s1 & x1 & -> & H1 & H).
  apply matches_Seq_iff in H as (s2 & x2 & -> & H2 & H).
  apply matches_Seq_iff in H as (s3 & x3 & -> & H3 & H).
  apply matches_Seq_iff in H as (s4 & x4 & -> & H4 & H).
  apply matches_Seq_iff in H as (s5 & x5 & -> & H5 & H).
  apply matches_Char_iff in H1 as ->. apply matches_Char_iff in H2 as ->.
  apply matches_Lit_iff in H4 as ->. apply matches_Lit_iff in H as ->.
  apply matches_Star_Class_iff in H3, H5.
  exists s3, s5. split; [exact H3|]. split; [exact H5|]. reflexivity.
Qed.

(** Before the marker line of a block, in text without the start marker,
    no match of the start pattern starts. *)
Lemma startBlockRegex_no_earlier (code ws0 tailText : jsstring) :
  includes code (marker OBSERVER_BLOCK_START) = false ->
  forallb whitespace ws0 = true ->
  forall a b, code = a ++ b -> b <> [] ->
    ~ matchAt startBlockRegex
        (b ++ js "//" ++ ws0 ++ marker OBSERVER_BLOCK_START ++ tailText).
Proof.
  intros Hcode Hws0 a b Hab Hb (m & rest' & Hm & Hmatch).
  apply startBlockRegex_match_shape in Hmatch as (ws & t & Hws & ->).
  revert Hm.
  change (marker OBSERVER_BLOCK_START)
    with (ch "@" :: js "mst observer-block-start").
  replace (js "//" ++ ws0 ++ (ch "@" :: js "mst observer-block-start")
           ++ tailText)
    with ((js "//" ++ ws0) ++ (ch "@" :: js "mst observer-block-start")
          ++ tailText)
    by (rewrite <- !app_assoc; reflexivity).
  replace ((js "//" ++ ws ++ (ch "@" :: js "mst observer-block-start") ++ t)
           ++ rest')
    with ((js "//" ++ ws) ++ (ch "@" :: js "mst observer-block-start")
          ++ t ++ rest')
    by (rewrite <- !app_assoc; reflexivity).
  apply (no_earlier_token (ch "/") (ch "@")).
  - now apply existsb_not_In.
  - intros Hin. apply in_app_or in Hin as [Hin | Hin].
    + revert Hin. now apply existsb_not_In.
    + revert Hin. now apply whitespace_not_In.
  - intros Hin. apply in_app_or in Hin as [Hin | Hin].
    + revert Hin. now apply existsb_not_In.
    + revert Hin. now apply whitespace_not_In.
  - now exists (ch "/" :: ws0).
  - now exists (ch "/" :: ws).
  - rewrite !count_occ_app.
    rewrite (whitespace_count (ch "/") ws0 eq_refl Hws0).
    rewrite (whitespace_count (ch "/") ws eq_refl Hws). reflexivity.
  - exact Hb.
  - change (ch "@" :: js "mst observer-block-start")
      with (marker OBSERVER_BLOCK_START).
    now apply (includes_suffix code a b).
Qed.

(** Before the closing text of a block, in text without the end marker, no
    match of the end pattern starts. *)
Lemma endBlockRegex_no_earlier (region ws1 ws2 post : jsstring) :
  includes region (marker OBSERVER_BLOCK_END) = false ->
  forallb whitespace ws1 = true -> forallb whitespace ws2 = true ->
  forall a b, region = a ++ b -> b <> [] ->
    ~ matchAt endBlockRegex (b ++ closingText ws1 ws2 ++ post).
Proof.
  intros Hregion Hws1 Hws2 a b Hab Hb (m & rest' & Hm & Hmatch).
  apply endBlockRegex_match_shape in Hmatch as (wa & wb & Hwa & Hwb & ->).
  revert Hm. unfold closingText.
  change (marker OBSERVER_BLOCK_END)
    with (ch "@" :: js "mst observer-block-end").
  replace ((js "})" ++ ws1 ++ js "//" ++ ws2
            ++ ch "@" :: js "mst observer-block-end") ++ post)
    with ((js "})" ++ ws1 ++ js "//" ++ ws2)
          ++ (ch "@" :: js "mst observer-block-end") ++ post)
    by (rewrite <- !app_assoc; reflexivity).
  replace ((js "})" ++ wa ++ js "//" ++ wb
            ++ ch "@" :: js "mst observer-block-end") ++ rest')
    with ((js "})" ++ wa ++ js "//" ++ wb)
          ++ (ch "@" :: js "mst observer-block-end") ++ rest')
    by (rewrite <- !app_assoc; reflexivity).
  apply (no_earlier_token (ch "}") (ch "@")).
  - now apply existsb_not_In.
  - intros Hin. repeat (apply in_app_or in Hin as [Hin | Hin]);
      revert Hin;
      first [now apply existsb_not_In | now apply whitespace_not_In].
  - intros Hin. repeat (apply in_app_or in Hin as [Hin | Hin]);
      revert Hin;
      first [now apply existsb_not_In | now apply whitespace_not_In].
  - now exists (ch ")" :: ws1 ++ js "//" ++ ws2).
  - now exists (ch ")" :: wa ++ js "//" ++ wb).
  - rewrite !count_occ_app.
    rewrite (whitespace_count (ch "}") ws1 eq_refl Hws1).
    rewrite (whitespace_count (ch "}") ws2 eq_refl Hws2).
    rewrite (whitespace_count (ch "}") wa eq_refl Hwa).
    rewrite (whitespace_count (ch "}") wb eq_refl Hwb). reflexivity.
  - exact Hb.
  - change (ch "@" :: js "mst observer-block-end")
      with (marker OBSERVER_BLOCK_END).
    now apply (includes_suffix region a b).
Qed.

Lemma includes_app_sep (c : codeunit) (m l rest : jsstring) :
  ~ In c m -> m <> [] ->
  includes (l ++ c :: rest) m = true ->
  includes l m = true \/ includes rest m = true.
Proof.
  intros Hc Hne H. apply includes_spec in H as [pre [post H]].
  apply app_eq_app in H as [l0 [[H1 H2] | [H1 H2]]].
  - symmetry in H2. apply app_eq_app in H2 as [l1 [[H3 H4] | [H3 H4]]].
    + left. apply includes_spec. exists pre, l1. now rewrite H1, H3.
    + destruct l1 as [|c1 l1].
      * left. apply includes_spec. exists pre, []. rewrite H1, H3.
        now rewrite !app_nil_r.
      * exfalso. apply Hc. injection H4 as <- _. rewrite H3.
        apply in_or_app. right. now left.
  - destruct l0 as [|c0 l0].
    + exfalso. destruct m as [|c1 m]; [contradiction|].
      injection H2 as <- _. apply Hc. now left.
    + right. injection H2 as _ ->. apply includes_spec. now exists l0, post.
Qed.

Lemma exec_none_by_token (r : regex) (tok s : jsstring) :
  (forall m, matches r m -> includes m tok = true) ->
  includes s tok = false -> exec r s = None.
Proof.
  intros Hr Hs. destruct (exec r s) as [e|] eqn:E; [|reflexivity].
  assert (Hm : hasMatch r s = true) by (unfold hasMatch; now rewrite E).
  apply (hasMatch_includes r tok s Hr) in Hm. congruence.
Qed.

(** X15: the rewrite of a component.  For contents that hold the line with
    the start marker, directly behind it a well-formed declaration
    [export const Name: Annotation = observer(function Fname(params)], a
    body, and the closing text with the end marker, where the start marker
    occurs nowhere else and the end marker nowhere else,
    [patchMSTObserverBlock] returns the contents with the marker line and
    the declaration replaced by the arrow function
    [export const Name: Annotation = (params) =>] and the closing text by a
    brace.  The text before, the body and the text behind stay as they
    are; the name of the inner function is dropped. *)
Theorem patchMSTObserverBlock_rewrites_component
    (code ws0 : jsstring) (d : observerDeclaration)
    (body ws1 ws2 post : jsstring) (fuel : nat) :
  wellFormedDeclaration d = true ->
  forallb whitespace ws0 = true ->
  forallb whitespace ws1 = true -> forallb whitespace ws2 = true ->
  includes code (marker OBSERVER_BLOCK_START) = false ->
  includes (body ++ closingText ws1 ws2 ++ post) (marker OBSERVER_BLOCK_START)
    = false ->
  includes (code ++ arrowText d ++ body) (marker OBSERVER_BLOCK_END) = false ->
  includes post (marker OBSERVER_BLOCK_END) = false ->
  patchMSTObserverBlock (S fuel)
    (code ++ startMarkerLine ws0 ++ declarationText d ++ body
     ++ closingText ws1 ws2 ++ post)
  = Some (code ++ arrowText d ++ body ++ js "}" ++ post).
Proof.
  intros Hd Hws0 Hws1 Hws2 Hcode Hrest Hregion Hpost.
  set (rest1 := body ++ closingText ws1 ws2 ++ post) in *.
  set (region := code ++ arrowText d ++ body) in *.
  destruct (startBlockRegex_at_declaration ws0 d rest1 Hws0 Hd)
    as (cap & Hx & Hsub).
  assert (Hne : startMarkerLine ws0 ++ declarationText d <> [])
    by (unfold startMarkerLine; intros E; discriminate E).
  assert (Hearly : forall a b, code = a ++ b -> b <> [] ->
            ~ matchAt startBlockRegex
                (b ++ (startMarkerLine ws0 ++ declarationText d) ++ rest1)).
  { intros a b Hab Hb.
    replace ((startMarkerLine ws0 ++ declarationText d) ++ rest1)
      with (js "//" ++ ws0 ++ marker OBSERVER_BLOCK_START
            ++ LF :: declarationText d ++ rest1)
      by (unfold startMarkerLine; rewrite <- !app_assoc; reflexivity).
    now apply (startBlockRegex_no_earlier code ws0 _ Hcode Hws0 a b). }
  assert (Hcontents : code ++ startMarkerLine ws0 ++ declarationText d ++ rest1
                      = code ++ (startMarkerLine ws0 ++ declarationText d)
                        ++ rest1)
    by now rewrite <- app_assoc.
  rewrite Hcontents.
  assert (H1 : replace (code ++ (startMarkerLine ws0 ++ declarationText d)
                        ++ rest1) startBlockRegex startBlockReplacement
               = region ++ closingText ws1 ws2 ++ post).
  { rewrite (replace_one _ _ code _ rest1 cap Hx Hne Hearly).
    - rewrite Hsub. unfold region, rest1. now rewrite <- !app_assoc.
    - now apply (exec_none_by_token _ _ _ startBlockRegex_match_includes). }
  assert (Hclose : closingText ws1 ws2 <> [])
    by (unfold closingText; intros E; discriminate E).
  assert (H2 : replace (region ++ closingText ws1 ws2 ++ post) endBlockRegex
                 endBlockReplacement
               = region ++ js "}" ++ post).
  { rewrite (replace_one _ _ region _ post noCaptures
               (endBlockRegex_at_closing ws1 ws2 post Hws1 Hws2) Hclose).
    - reflexivity.
    - now apply endBlockRegex_no_earlier.
    - now apply (exec_none_by_token _ _ _ endBlockRegex_match_includes). }
  assert (H3 : hasObserverBlock
                 (code ++ (startMarkerLine ws0 ++ declarationText d) ++ rest1)
               = true).
  { unfold hasObserverBlock, hasMatch. apply andb_true_iff. split.
    - destruct (exec_skip_caps _ _ _ _ Hx code Hearly) as (e & -> & _).
      reflexivity.
    - destruct (exec endBlockRegex _) as [e|] eqn:E; [reflexivity|].
      exfalso.
      apply (exec_none _ _ E
               (code ++ (startMarkerLine ws0 ++ declarationText d) ++ body)
               (closingText ws1 ws2 ++ post)).
      + unfold rest1. now rewrite <- !app_assoc.
      + pose proof (endBlockRegex_at_closing ws1 ws2 post Hws1 Hws2) as Hc.
        apply matcher_some_match in Hc as (m & Hm & Hmatch).
        now exists m, post. }
  assert (H4 : hasObserverBlock (region ++ js "}" ++ post) = false).
  { unfold hasObserverBlock. apply andb_false_iff. right.
    destruct (hasMatch endBlockRegex (region ++ js "}" ++ post)) eqn:E;
      [|reflexivity].
    apply (hasMatch_includes _ _ _ endBlockRegex_match_includes) in E.
    change (js "}" ++ post) with (ch "}" :: post) in E.
    apply includes_app_sep in E as [E | E]; try congruence.
    - now apply existsb_not_In.
    - apply marker_not_nil. }
  cbn [patchMSTObserverBlock].
  rewrite patchMSTObserverBlock_body_eq, H3. cbv zeta.
  rewrite H1, H2, H4. unfold region. now rewrite <- !app_assoc.
Qed.

(** The component [Foo] with the annotation [FC<Props>], between an import
    and an export: the marker line goes, the declaration becomes an arrow
    function (the blank behind the annotation is part of the annotation),
    the closing text a brace. *)
Lemma patchMSTObserverBlock_component_witness :
  patchMSTObserverBlock 1
    (js "import x;" ++ [LF]
     ++ startMarkerLine (js " ")
     ++ declarationText
          {| od_export := Some (js " "); od_space1 := js " ";
             od_name := js "Foo";
             od_annotation := Some (js " ", js "FC<Props> ");
             od_space2 := []; od_space3 := js " "; od_space4 := js " ";
             od_fname := js "Foo"; od_params := js "props" |}
     ++ (js " {" ++ [LF] ++ js "  return null" ++ [LF])
     ++ closingText [] (js " ")
     ++ LF :: js "export default Foo")
  = Some (js "import x;" ++ [LF]
          ++ js "export const Foo: FC<Props>  = (props) =>"
          ++ (js " {" ++ [LF] ++ js "  return null" ++ [LF])
          ++ js "}" ++ LF :: js "export default Foo").
Proof.
  apply (patchMSTObserverBlock_rewrites_component (js "import x;" ++ [LF])
           (js " ")
           {| od_export := Some (js " "); od_space1 := js " ";
              od_name := js "Foo";
              od_annotation := Some (js " ", js "FC<Props> ");
              od_space2 := []; od_space3 := js " "; od_space4 := js " ";
              od_fname := js "Foo"; od_params := js "props" |}
           (js " {" ++ [LF] ++ js "  return null" ++ [LF]) [] (js " ")
           (LF :: js "export default Foo") 0);
    vm_compute; reflexivity.
Defined.
